(** * FacialRecognition: a shallow embedding of the repository's glue code

    The repository wraps three external libraries (face_recognition, cv2 and
    numpy) and the Python standard library (pathlib, shutil, pickle).  The
    embedding keeps the repository's own control flow and data and takes the
    external entry points as the fields of a class, [Libraries].

    Part I holds the model, Part II its properties. *)

From stdpp Require Import base option list strings pretty gmap.
From Stdlib Require Import Ascii ZArith Lia QArith Qminmax Qround Qabs Qpower Lqa.
From Stdlib Require Uint63 PrimFloat FloatOps SpecFloat.
Close Scope Q_scope.

Local Open Scope string_scope.
Local Open Scope list_scope.
#[local] Set Warnings "-register-all".

(** ** Exceptions and results *)

(** The exception classes the modelled code can meet. *)
Inductive exc_type :=
| FileNotFoundError
| FileExistsError
| NotADirectoryError
| IsADirectoryError
| SameFileError
| KeyError
| IndexError
| TypeError
| ValueError
| ZeroDivisionError
| UnpicklingError
| EOFError
| LibraryError.

#[global] Instance exc_type_eq_dec : EqDecision exc_type.
Proof. solve_decision. Defined.

(** An exception either comes out of the interpreter or of a library call, or
    is built by a [raise] statement of the repository. *)
Inductive exn :=
| FromLibrary (t : exc_type)
| FromRepository (t : exc_type) (msg : string).

Inductive result (E A : Type) :=
| Ok (a : A)
| Raise (e : E).
Arguments Ok {E A} a.
Arguments Raise {E A} e.

Definition from_library {A} (r : result exc_type A) : result exn A :=
  match r with
  | Ok a => Ok a
  | Raise t => Raise (FromLibrary t)
  end.

(** ** Programs: state that survives exceptions

    A Python call that raises keeps every mutation it made before raising, so
    a program returns its final state together with its result. *)

Definition prog (S A : Type) : Type := S -> result exn A * S.

Definition ret {S A} (a : A) : prog S A := fun s => (Ok a, s).

Definition bind {S A B} (m : prog S A) (k : A -> prog S B) : prog S B :=
  fun s =>
    match m s with
    | (Ok a, s') => k a s'
    | (Raise e, s') => (Raise e, s')
    end.

Definition raise {S A} (e : exn) : prog S A := fun s => (Raise e, s).

(** [try: m except Exception as e: h e]. *)
Definition try_except {S A} (m : prog S A) (h : exn -> prog S A) : prog S A :=
  fun s =>
    match m s with
    | (Ok a, s') => (Ok a, s')
    | (Raise e, s') => h e s'
    end.

Definition gets {S A} (f : S -> A) : prog S A := fun s => (Ok (f s), s).

Definition modify {S} (f : S -> S) : prog S unit := fun s => (Ok tt, f s).

Definition lift_result {S A} (r : result exc_type A) : prog S A :=
  fun s => (from_library r, s).

Declare Scope prog_scope.
Delimit Scope prog_scope with prog.
Notation "x <- m ;; k" := (bind m (fun x => k))
  (at level 100, m at next level, right associativity) : prog_scope.
Notation "m ;; k" := (bind m (fun _ => k))
  (at level 100, right associativity) : prog_scope.

(** [for x in l: body x]. *)
Fixpoint for_each {S A} (l : list A) (body : A -> prog S unit) : prog S unit :=
  match l with
  | [] => ret tt
  | x :: l' => bind (body x) (fun _ => for_each l' body)
  end.

(** ** Strings: [pathlib]'s suffix and [str.lower] *)

(** Index of the last occurrence of [c], as [str.rfind]. *)
Fixpoint rindex (c : ascii) (s : string) : option nat :=
  match s with
  | EmptyString => None
  | String a s' =>
      match rindex c s' with
      | Some i => Some (S i)
      | None => if Ascii.eqb a c then Some 0 else None
      end
  end.

(** [PurePath.suffix] of a final component: the part from the last dot on,
    unless that dot is the first or the last character. *)
Definition suffix (name : string) : string :=
  match rindex "."%char name with
  | Some i =>
      if ((0 <? i) && (i <? String.length name - 1))%nat
      then String.substring i (String.length name - i)%nat name
      else ""
  | None => ""
  end.

Definition lower_ascii (a : ascii) : ascii :=
  let n := Ascii.nat_of_ascii a in
  if ((65 <=? n) && (n <=? 90))%nat then Ascii.ascii_of_nat (n + 32)%nat else a.

(** [str.lower] on the ASCII letters; the four accepted extensions are ASCII
    and no other letter lowers to one of theirs. *)
Fixpoint lower (s : string) : string :=
  match s with
  | EmptyString => EmptyString
  | String a s' => String (lower_ascii a) (lower s')
  end.

(** ** Strings: the components of a path name

    [pathlib] parses a name at its slashes and drops the empty parts and the
    single dots; it keeps a part [..] as it is. *)

(** [c in s]. *)
Fixpoint occurs (c : ascii) (s : string) : bool :=
  match s with
  | EmptyString => false
  | String a s' => Ascii.eqb a c || occurs c s'
  end.

(** [s.split('/')], as its first part and the others. *)
Fixpoint split_slash (s : string) : string * list string :=
  match s with
  | EmptyString => ("", [])
  | String a s' =>
      let '(part, others) := split_slash s' in
      if Ascii.eqb a "/" then ("", part :: others) else (String a part, others)
  end.

Definition parts (s : string) : list string :=
  let '(part, others) := split_slash s in part :: others.

Definition components (s : string) : list string :=
  filter (fun c => c <> "" /\ c <> ".") (parts s).

(** What stands after the last slash. *)
Definition final_part (s : string) : string := List.last (parts s) "".

(** A name that leads to a place below the path it is joined to: it does not
    start with a slash (an absolute name replaces the path), none of its parts
    is [..], and it holds no NUL, on which every call of the operating system
    raises ValueError. *)
Definition below (s : string) : bool :=
  negb (String.prefix "/" s) && bool_decide (".." ∉ parts s)
  && negb (occurs Ascii.zero s).

(** A name that is one component: the name of an entry of a directory. *)
Definition is_component (s : string) : bool :=
  negb (occurs "/" s) && negb (occurs Ascii.zero s)
  && bool_decide (s ∉ [""; "."; ".."]).

(** ** The pickled blob *)

(** Values stored under the keys of the pickled dict: a list of encodings or
    a list of names. *)
Inductive pyval (encoding : Type) :=
| PyEncodings (es : list encoding)
| PyNames (ns : list string).
Arguments PyEncodings {encoding} es.
Arguments PyNames {encoding} ns.

(** ** The external libraries *)

Class Libraries := {
  (** a face embedding, a decoded image, the bytes of a file, a numpy float *)
  encoding : Type;
  image : Type;
  content : Type;
  distance : Type;
  location : Type;
  (** face_recognition *)
  fr_load_image_file : content -> result exc_type image;
  fr_face_encodings : image -> result exc_type (list encoding);
  fr_face_locations : image -> list location;
  fr_face_encodings_at : image -> list location -> list encoding;
  fr_compare_faces : list encoding -> encoding -> distance -> list bool;
  fr_face_distance : list encoding -> encoding -> list distance;
  (** numpy *)
  np_argmin : list distance -> result exc_type nat;
  (** cv2 *)
  cv2_imread : content -> option image;
  cv2_cvtColor_BGR2RGB : image -> image;
  cv2_resize_quarter : image -> image;
  (** pickle, on the dicts the repository stores; loading anything else
      raises *)
  pickle_dump : gmap string (pyval encoding) -> content;
  pickle_load : content -> result exc_type (gmap string (pyval encoding));
  (** the double a numpy.float64 holds *)
  float64 : distance -> PrimFloat.float;
}.

(** What the repository relies on from the libraries. *)
Record LibraryLaws (L : Libraries) : Prop := {
  compare_faces_length :
    forall known e tol, length (fr_compare_faces known e tol) = length known;
  face_distance_length :
    forall known e, length (fr_face_distance known e) = length known;
  np_argmin_in_range :
    forall ds, ds <> [] -> exists i, np_argmin ds = Ok i /\ i < length ds;
}.

Definition PickleRoundTrip (L : Libraries) : Prop :=
  forall b, pickle_load (pickle_dump b) = Ok b.

(** ** Double-precision arithmetic

    Python's floats are doubles, and every finite double is a rational.  Of
    the operations [resize_image] uses, the division of two ints and the
    product of an int and a float are rounded; comparisons, [min] and [int()]
    are exact and are defined on the rational values. *)

Class Double := {
  float : Type;
  to_Q : float -> Q;
  (** [a / b] on two ints, [b] not zero *)
  truediv : Z -> Z -> float;
  (** [w * x] for an int [w] and a float [x] *)
  mul_int : Z -> float -> float;
}.

(** Half the distance from 1 to the next double. *)
Definition unit_roundoff : Q := 1 # 9007199254740992.

(** 2^-60, far above the smallest normal double. *)
Definition tiny : Q := 1 # 1152921504606846976.

(** The standard model of rounding to nearest, for operands and results in
    the range where a double neither overflows nor underflows, and the two
    facts that follow from 1 being a double: a quotient of ints is at least 1
    when the exact one is, and below 1 when the exact one is. *)
Record DoubleLaws (D : Double) : Prop := {
  truediv_accurate :
    forall a b, (0 <= a < 2 ^ 53)%Z -> (0 < b < 2 ^ 53)%Z ->
      (inject_Z a / inject_Z b * (1 - unit_roundoff) <= to_Q (truediv a b)
       /\ to_Q (truediv a b) <= inject_Z a / inject_Z b * (1 + unit_roundoff))%Q;
  truediv_at_least_one :
    forall a b, (0 < b <= a)%Z -> (a < 2 ^ 53)%Z -> (1 <= to_Q (truediv a b))%Q;
  truediv_below_one :
    forall a b, (0 <= a < b)%Z -> (b < 2 ^ 53)%Z -> (to_Q (truediv a b) < 1)%Q;
  mul_int_accurate :
    forall w x, (0 < w < 2 ^ 53)%Z -> (tiny <= to_Q x)%Q -> (to_Q x <= 1)%Q ->
      (inject_Z w * to_Q x * (1 - unit_roundoff) <= to_Q (mul_int w x)
       /\ to_Q (mul_int w x) <= inject_Z w * to_Q x * (1 + unit_roundoff))%Q;
}.

(** ** Two arithmetics

    [Binary64] is the arithmetic of the interpreter, on the kernel's
    primitive doubles; [Exact] computes without rounding. *)

Module Binary64.

(** An int as a double: exact for an absolute value below 2^53. *)
Definition of_Z (z : Z) : PrimFloat.float :=
  if (z <? 0)%Z then PrimFloat.opp (PrimFloat.of_uint63 (Uint63.of_Z (- z)))
  else PrimFloat.of_uint63 (Uint63.of_Z z).

(** The rational a finite double stands for; infinities and NaN, which the
    sizes of an image do not reach, count as 0. *)
Definition value (x : PrimFloat.float) : Q :=
  match FloatOps.Prim2SF x with
  | SpecFloat.S754_finite s m e =>
      (inject_Z (if s then Z.neg m else Z.pos m) * Qpower 2 e)%Q
  | _ => 0%Q
  end.

#[export] Instance double : Double := {|
  float := PrimFloat.float;
  to_Q := value;
  truediv a b := PrimFloat.div (of_Z a) (of_Z b);
  mul_int w x := PrimFloat.mul (of_Z w) x;
|}.

(** [int(np.ceil(x))]. *)
Definition ceil (x : PrimFloat.float) : Z := Qceiling (value x).

(** The two expressions of [create_face_mosaic], as they are computed. *)
Definition mosaic_cols (n_images : Z) : Z := ceil (PrimFloat.sqrt (of_Z n_images)).

Definition mosaic_rows (n_images : Z) : Z :=
  ceil (PrimFloat.div (of_Z n_images) (of_Z (mosaic_cols n_images))).

End Binary64.

Module Exact.

#[export] Instance double : Double := {|
  float := Q;
  to_Q x := x;
  truediv a b := (inject_Z a / inject_Z b)%Q;
  mul_int w x := (inject_Z w * x)%Q;
|}.

End Exact.

(** ** Doubles as text *)

(** The integer nearest to [n / d], the even one of two that are as near. *)
Definition round_half_even (n d : Z) : Z :=
  let q := (n / d)%Z in
  let r := (n mod d)%Z in
  if (2 * r <? d)%Z then q
  else if (d <? 2 * r)%Z then (q + 1)%Z
  else if Z.even q then q else (q + 1)%Z.

(** The format specification [:.1f] on a double: the tenths nearest to its
    exact value [m * 2^e], the last digit even on a tie, after the minus sign
    of a negative double, also where all the digits are zero. *)
Definition format_1f (x : PrimFloat.float) : string :=
  match FloatOps.Prim2SF x with
  | SpecFloat.S754_nan => "nan"
  | SpecFloat.S754_infinity s => if s then "-inf" else "inf"
  | SpecFloat.S754_zero s => (if s then "-" else "") +:+ "0.0"
  | SpecFloat.S754_finite s m e =>
      let tenths :=
        if (0 <=? e)%Z then (10 * Z.pos m * 2 ^ e)%Z
        else round_half_even (10 * Z.pos m) (2 ^ (- e)) in
      (if s then "-" else "") +:+ pretty (tenths / 10)%Z +:+ "."
      +:+ pretty (tenths mod 10)%Z
  end.

(** ** The file system *)

Section FileSystem.
Context {L : Libraries}.

(** A path is the list of its components below the working directory. *)
Definition path := list string.

(** A directory lists its entries in the order [iterdir] yields them. *)
Inductive node :=
| File (c : content)
| Dir (entries : list (string * node)).

Fixpoint alist_find (k : string) (es : list (string * node)) : option node :=
  match es with
  | [] => None
  | (k', n) :: es' => if String.eqb k k' then Some n else alist_find k es'
  end.

(** Replace the entry [k] where it stands, or add it at the end. *)
Fixpoint alist_set (k : string) (n : node) (es : list (string * node))
  : list (string * node) :=
  match es with
  | [] => [(k, n)]
  | (k', n') :: es' =>
      if String.eqb k k' then (k, n) :: es' else (k', n') :: alist_set k n es'
  end.

Inductive stat :=
| Found (n : node)
| NoEntry
| NotDirectory.

Fixpoint resolve (root : node) (p : path) : stat :=
  match p with
  | [] => Found root
  | c :: p' =>
      match root with
      | File _ => NotDirectory
      | Dir es =>
          match alist_find c es with
          | Some n => resolve n p'
          | None => NoEntry
          end
      end
  end.

(** [Path.exists] and [os.path.exists]. *)
Definition path_exists (root : node) (p : path) : bool :=
  match resolve root p with Found _ => true | _ => false end.

Definition is_dir (root : node) (p : path) : bool :=
  match resolve root p with Found (Dir _) => true | _ => false end.

Definition is_file (root : node) (p : path) : bool :=
  match resolve root p with Found (File _) => true | _ => false end.

(** Put [new] at [p]; the parent of [p] has to be a directory. *)
Fixpoint store (root : node) (p : path) (new : node) : result exc_type node :=
  match p with
  | [] => Ok new
  | c :: p' =>
      match root with
      | File _ => Raise NotADirectoryError
      | Dir es =>
          match alist_find c es, p' with
          | Some child, _ =>
              match store child p' new with
              | Ok child' => Ok (Dir (alist_set c child' es))
              | Raise e => Raise e
              end
          | None, [] => Ok (Dir (alist_set c new es))
          | None, _ :: _ => Raise FileNotFoundError
          end
      end
  end.

(** [Path.mkdir(exist_ok=True)], without [parents]. *)
Definition mkdir_exist_ok (root : node) (p : path) : result exc_type node :=
  match resolve root p with
  | Found (Dir _) => Ok root
  | Found (File _) => Raise FileExistsError
  | NotDirectory => Raise NotADirectoryError
  | NoEntry => store root p (Dir [])
  end.

(** [open(p, 'rb').read()]. *)
Definition read_file (root : node) (p : path) : result exc_type content :=
  match resolve root p with
  | Found (File c) => Ok c
  | Found (Dir _) => Raise IsADirectoryError
  | NoEntry => Raise FileNotFoundError
  | NotDirectory => Raise NotADirectoryError
  end.

(** [open(p, 'wb').write(c)]. *)
Definition write_file (root : node) (p : path) (c : content)
  : result exc_type node :=
  match resolve root p with
  | Found (Dir _) => Raise IsADirectoryError
  | NotDirectory => Raise NotADirectoryError
  | Found (File _) | NoEntry => store root p (File c)
  end.

(** [Path.iterdir]: the entries of a directory, in order. *)
Definition iterdir (root : node) (p : path)
  : result exc_type (list (string * node)) :=
  match resolve root p with
  | Found (Dir es) => Ok es
  | Found (File _) => Raise NotADirectoryError
  | NoEntry => Raise FileNotFoundError
  | NotDirectory => Raise NotADirectoryError
  end.

(** [Path.name] and [os.path.basename]: the last component. *)
Definition name (p : path) : string := List.last p "".

(** [Path.parent]. *)
Definition parent (p : path) : path := removelast p.

(** [base / name] for a name that is [below]: the components of the name
    follow those of the base. *)
Definition joinpath (base : path) (name : string) : path :=
  base ++ components name.

Definition path_eqb (p q : path) : bool := bool_decide (p = q).

(** [shutil.copy(src, dst)]: into [dst] when it is a directory; refuses to
    copy a file onto itself; opens the source before the destination. *)
Definition shutil_copy (root : node) (src dst : path) : result exc_type node :=
  let dst' := if is_dir root dst then dst ++ [name src] else dst in
  if path_exists root src && path_eqb src dst' then Raise SameFileError
  else
    match read_file root src with
    | Ok c => write_file root dst' c
    | Raise e => Raise e
    end.

End FileSystem.

(** ** The console and the world *)

Section World.
Context {L : Libraries}.

(** One constructor per message the modelled functions print. *)
Inductive event :=
| LoadingFromFile
| FacesLoaded (n : nat)
| CreatingEncodings
| DirectoryMissing (p : path)
| DirectoryCreated
| Processing (person : string)
| Encoded (file : string)
| NoFaceDetected (file : string)
| ErrorWith (file : string) (e : exn)
| EncodingsSaved (n : nat)
| NothingEncoded
| SourceMissing (p : path)
| ImageAdded (p : path).

Record world := World { fs : node; console : list event }.

Definition world_print (ev : event) (w : world) : world :=
  {| fs := fs w; console := console w ++ [ev] |}.

(** Run a file-system operation that returns the new tree. *)
Definition world_update (op : node -> result exc_type node) : prog world unit :=
  fun w =>
    match op (fs w) with
    | Ok root' => (Ok tt, {| fs := root'; console := console w |})
    | Raise t => (Raise (FromLibrary t), w)
    end.

(** Run a file-system operation that only reads. *)
Definition world_read {A} (op : node -> result exc_type A) : prog world A :=
  fun w => (from_library (op (fs w)), w).

(** [str(path)]. *)
Definition path_str (p : path) : string := String.concat "/" p.

End World.

(** ** utils.py *)

Module Utils.
Section Utils.
Context {L : Libraries}.

Definition imread (root : node) (p : path) : option image :=
  match resolve root p with
  | Found (File c) => cv2_imread c
  | _ => None
  end.

Definition load_image (image_path : path) : prog world image :=
  (img <- gets (fun w => imread (fs w) image_path) ;;
   match img with
   | None =>
       raise (FromRepository ValueError
                ("Impossible de charger l'image: " +:+ path_str image_path))
   | Some image => ret image
   end)%prog.

Definition compare_faces (known_encodings : list encoding)
    (face_encoding : encoding) (tolerance : distance)
  : list bool * list distance :=
  let matches := fr_compare_faces known_encodings face_encoding tolerance in
  let distances := fr_face_distance known_encodings face_encoding in
  (matches, distances).

(** The dict literal [{'encodings': encodings, 'names': names}]. *)
Definition blob (encodings : list encoding) (names : list string)
  : gmap string (pyval encoding) :=
  <["encodings" := PyEncodings encodings]> (<["names" := PyNames names]> ∅).

Definition save_encodings (encodings : list encoding) (names : list string)
    (filename : path) : prog world unit :=
  let data := blob encodings names in
  world_update (fun root => write_file root filename (pickle_dump data)).

Definition load_encodings (filename : path)
  : prog world (gmap string (pyval encoding)) :=
  (c <- world_read (fun root => read_file root filename) ;;
   lift_result (pickle_load c))%prog.

(** *** The grid of [create_face_mosaic] *)

(** [int(np.ceil(np.sqrt(n)))], as an integer: the ceiling of the square
    root.  The double-precision value of the expression is this integer for
    any number of images below 2^52. *)
Definition mosaic_cols (n_images : Z) : Z := Z.sqrt_up n_images.

(** [int(np.ceil(n / cols))], as an integer: the ceiling of the quotient. *)
Definition mosaic_rows (n_images : Z) : Z :=
  let cols := mosaic_cols n_images in
  (n_images + cols - 1) / cols.

(** The array [np.zeros((rows * 200, cols * 200, 3))], seen as its shape and
    the 200 by 200 blocks written so far. *)
Record mosaic := Mosaic {
  height : Z;
  width : Z;
  blocks : gmap (Z * Z) image;
}.

Definition zeros (rows cols : Z) : mosaic :=
  {| height := rows * 200; width := cols * 200; blocks := ∅ |}.

(** A numpy slice [a:b], with [a] and [b] not negative, over an axis of
    length [len] is clipped to it. *)
Definition slice_length (len a b : Z) : Z :=
  Z.max 0 (Z.min b len - Z.min a len).

(** [mosaic[row*200:(row+1)*200, col*200:(col+1)*200] = img] with [img] of
    shape 200 by 200: numpy raises ValueError unless the clipped target has
    that shape. *)
Definition assign_block (m : mosaic) (row col : Z) (img : image)
  : result exc_type mosaic :=
  if (slice_length (height m) (row * 200) ((row + 1) * 200) =? 200)%Z
     && (slice_length (width m) (col * 200) ((col + 1) * 200) =? 200)%Z
  then Ok {| height := height m; width := width m;
             blocks := <[(row, col) := img]> (blocks m) |}
  else Raise ValueError.

Definition place (cols : Z) (item : nat * image) : prog mosaic unit :=
  let '(idx, img) := item in
  let row := (Z.of_nat idx / cols)%Z in
  let col := (Z.of_nat idx mod cols)%Z in
  fun m =>
    match assign_block m row col img with
    | Ok m' => (Ok tt, m')
    | Raise t => (Raise (FromLibrary t), m)
    end.

(** [enumerate(images)]. *)
Definition enumerate {A} (l : list A) : list (nat * A) :=
  zip (seq 0 (length l)) l.

(** The part of [create_face_mosaic] after the images are loaded; [None]
    is the early return on an empty list. *)
Definition build_mosaic (images : list image)
  : option (result exn unit * mosaic) :=
  match images with
  | [] => None
  | _ :: _ =>
      let n_images := Z.of_nat (length images) in
      let cols := mosaic_cols n_images in
      let rows := mosaic_rows n_images in
      Some (for_each (enumerate images) (place cols) (zeros rows cols))
  end.

End Utils.

(** *** resize_image *)

Section Resize.
Context {D : Double}.

(** [min(a, b)]: [a] unless [b < a]. *)
Definition min_float (a b : float) : float :=
  if Qle_bool (to_Q a) (to_Q b) then a else b.

(** [int(x)]: truncation towards zero. *)
Definition int_of_float (x : float) : Z :=
  if Qle_bool 0 (to_Q x) then Qfloor (to_Q x) else Qceiling (to_Q x).

(** What [resize_image] returns: the image itself, or the result of
    [cv2.resize(image, (new_width, new_height))]. *)
Inductive resized :=
| Unchanged
| Resized (new_width new_height : Z).

(** [cv2.resize(image, (new_width, new_height))]: a size with a side that
    is not positive raises cv2.error. *)
Definition cv2_resize (new_width new_height : Z) : result exc_type resized :=
  if ((0 <? new_width) && (0 <? new_height))%Z
  then Ok (Resized new_width new_height)
  else Raise LibraryError.

(** The image is seen through [image.shape[:2]], its height and width. *)
Definition resize_image (shape : Z * Z) (max_width max_height : Z)
  : result exc_type resized :=
  let '(height, width) := shape in
  if (width =? 0)%Z then Raise ZeroDivisionError
  else if (height =? 0)%Z then Raise ZeroDivisionError
  else
    let ratio := min_float (truediv max_width width) (truediv max_height height) in
    if negb (Qle_bool 1 (to_Q ratio)) then
      let new_width := int_of_float (mul_int width ratio) in
      let new_height := int_of_float (mul_int height ratio) in
      cv2_resize new_width new_height
    else Ok Unchanged.

End Resize.
End Utils.

(** ** face_recognition_system.py *)

Module Recognition.
Section Recognition.
Context {L : Libraries}.

Record FaceRecognitionSystem := {
  known_faces_dir : path;
  tolerance : distance;
  known_face_encodings : list encoding;
  known_face_names : list string;
  encodings_file : path;
}.

(** A running method: the object it mutates and the world around it. *)
Record session := Session { self : FaceRecognitionSystem; env : world }.

Definition set_encodings (es : list encoding) (s : session) : session :=
  {| self := {| known_faces_dir := known_faces_dir (self s);
                tolerance := tolerance (self s);
                known_face_encodings := es;
                known_face_names := known_face_names (self s);
                encodings_file := encodings_file (self s) |};
     env := env s |}.

Definition set_names (ns : list string) (s : session) : session :=
  {| self := {| known_faces_dir := known_faces_dir (self s);
                tolerance := tolerance (self s);
                known_face_encodings := known_face_encodings (self s);
                known_face_names := ns;
                encodings_file := encodings_file (self s) |};
     env := env s |}.

Definition say (ev : event) : prog session unit :=
  modify (fun s => {| self := self s; env := world_print ev (env s) |}).

(** Run a program of the world inside a method. *)
Definition in_world {A} (m : prog world A) : prog session A :=
  fun s =>
    let '(r, w') := m (env s) in
    (r, {| self := self s; env := w' |}).

Definition image_extensions : list string := [".jpg"; ".jpeg"; ".png"; ".bmp"].

(** The body of the inner loop of [encode_known_faces].  [face_recognition]
    opens the file itself, so a directory with an image suffix raises. *)
Definition encode_image (person_name : string) (image_path : string * node)
  : prog session unit :=
  let '(image_name, target) := image_path in
  if bool_decide (lower (suffix image_name) ∈ image_extensions) then
    try_except
      (image <- lift_result
                  match target with
                  | File c => fr_load_image_file c
                  | Dir _ => Raise IsADirectoryError
                  end ;;
       face_encodings <- lift_result (fr_face_encodings image) ;;
       match face_encodings with
       | first :: _ =>
           modify (fun s => set_encodings (known_face_encodings (self s) ++ [first]) s) ;;
           modify (fun s => set_names (known_face_names (self s) ++ [person_name]) s) ;;
           say (Encoded image_name)
       | [] => say (NoFaceDetected image_name)
       end)%prog
      (fun e => say (ErrorWith image_name e))
  else ret tt.

(** The body of the outer loop. *)
Definition encode_person (person_dir : string * node) : prog session unit :=
  let '(person_name, target) := person_dir in
  match target with
  | Dir images =>
      (say (Processing person_name) ;;
       for_each images (encode_image person_name))%prog
  | File _ => ret tt
  end.

Definition encode_known_faces : prog session unit :=
  (dir <- gets (fun s => known_faces_dir (self s)) ;;
   present <- gets (fun s => path_exists (fs (env s)) dir) ;;
   if negb present then
     say (DirectoryMissing dir) ;;
     in_world (world_update (fun root => mkdir_exist_ok root dir)) ;;
     say DirectoryCreated
   else
     persons <- in_world (world_read (fun root => iterdir root dir)) ;;
     for_each persons encode_person ;;
     encodings <- gets (fun s => known_face_encodings (self s)) ;;
     names <- gets (fun s => known_face_names (self s)) ;;
     file <- gets (fun s => encodings_file (self s)) ;;
     match encodings with
     | _ :: _ =>
         in_world (world_update (fun root =>
           write_file root file (pickle_dump (Utils.blob encodings names)))) ;;
         say (EncodingsSaved (length encodings))
     | [] => say NothingEncoded
     end)%prog.

(** [data[key]] on the unpickled dict. *)
Definition subscript (data : gmap string (pyval encoding)) (key : string)
  : result exc_type (pyval encoding) :=
  match data !! key with
  | Some v => Ok v
  | None => Raise KeyError
  end.

(** The registry is typed: an entry of the other kind cannot be stored in
    the field and ends the load with TypeError. *)
Definition as_encodings (v : pyval encoding) : result exc_type (list encoding) :=
  match v with
  | PyEncodings es => Ok es
  | PyNames _ => Raise TypeError
  end.

Definition as_names (v : pyval encoding) : result exc_type (list string) :=
  match v with
  | PyNames ns => Ok ns
  | PyEncodings _ => Raise TypeError
  end.

Definition load_known_faces : prog session unit :=
  (file <- gets (fun s => encodings_file (self s)) ;;
   present <- gets (fun s => path_exists (fs (env s)) file) ;;
   if present then
     say LoadingFromFile ;;
     c <- in_world (world_read (fun root => read_file root file)) ;;
     data <- lift_result (pickle_load c) ;;
     v <- lift_result (subscript data "encodings") ;;
     encodings <- lift_result (as_encodings v) ;;
     modify (set_encodings encodings) ;;
     v <- lift_result (subscript data "names") ;;
     names <- lift_result (as_names v) ;;
     modify (set_names names) ;;
     say (FacesLoaded (length names))
   else
     say CreatingEncodings ;;
     encode_known_faces)%prog.

(** The four assignments of [__init__]. *)
Definition new_system (known_faces_dir : path) (tolerance : distance)
  : FaceRecognitionSystem :=
  {| known_faces_dir := known_faces_dir;
     tolerance := tolerance;
     known_face_encodings := [];
     known_face_names := [];
     encodings_file := ["face_encodings.pkl"] |}.

Definition init (known_faces_dir : path) (tolerance : distance) (w : world)
  : result exn unit * session :=
  load_known_faces {| self := new_system known_faces_dir tolerance; env := w |}.

(** *** Recognition *)

(** [(1 - face_distances[best_match_index]) * 100], on doubles. *)
Definition confidence (d : distance) : PrimFloat.float :=
  PrimFloat.mul (PrimFloat.sub (Binary64.of_Z 1) (float64 d)) (Binary64.of_Z 100).

(** The body of the loop over the detected encodings: the local [name] and
    the append to [face_names]. *)
Definition name_face (sys : FaceRecognitionSystem) (face_encoding : encoding)
  : prog (list string) unit :=
  let matches :=
    fr_compare_faces (known_face_encodings sys) face_encoding (tolerance sys) in
  let unknown := "Inconnu" in
  (name <-
     match known_face_encodings sys with
     | _ :: _ =>
         let face_distances :=
           fr_face_distance (known_face_encodings sys) face_encoding in
         best_match_index <- lift_result (np_argmin face_distances) ;;
         matched <- lift_result
                      match matches !! best_match_index with
                      | Some b => Ok b
                      | None => Raise IndexError
                      end ;;
         if (matched : bool) then
           name <- lift_result
                     match known_face_names sys !! best_match_index with
                     | Some n => Ok n
                     | None => Raise IndexError
                     end ;;
           d <- lift_result
                  match face_distances !! best_match_index with
                  | Some d => Ok d
                  | None => Raise IndexError
                  end ;;
           let confidence := confidence d in
           ret (name +:+ " (" +:+ format_1f confidence +:+ "%)")
         else ret unknown
     | [] => ret unknown
     end ;;
   modify (fun face_names => face_names ++ [name]))%prog.

(** The names returned by [recognize_faces_in_frame]; the annotated frame,
    drawn by cv2 from the same names, is left out. *)
Definition recognize_faces_in_frame (sys : FaceRecognitionSystem) (frame : image)
  : result exn (list string) :=
  let rgb_frame := cv2_cvtColor_BGR2RGB frame in
  let small_frame := cv2_resize_quarter rgb_frame in
  let face_locations := fr_face_locations small_frame in
  let face_encodings := fr_face_encodings_at small_frame face_locations in
  match for_each face_encodings (name_face sys) [] with
  | (Ok _, face_names) => Ok face_names
  | (Raise e, _) => Raise e
  end.

End Recognition.
End Recognition.

(** ** register_face.py *)

Module Registration.
Section Registration.
Context {L : Libraries}.

Record FaceRegistration := { known_faces_dir : path }.

Definition say (ev : event) : prog world unit := modify (world_print ev).

(** [__init__], without the cascade classifier. *)
Definition init (known_faces_dir : path) : prog world FaceRegistration :=
  (world_update (fun root => mkdir_exist_ok root known_faces_dir) ;;
   ret {| known_faces_dir := known_faces_dir |})%prog.

(** [image_path] is the path [Path(image_path)] gives, [person_name] the
    string that is joined to the directory; the import of shutil has no effect
    of its own. *)
Definition add_from_file (reg : FaceRegistration) (person_name : string)
    (image_path : path) : prog world bool :=
  (present <- gets (fun w => path_exists (fs w) image_path) ;;
   if negb present then
     say (SourceMissing image_path) ;;
     ret false
   else
     let person_dir := joinpath (known_faces_dir reg) person_name in
     world_update (fun root => mkdir_exist_ok root person_dir) ;;
     let destination := joinpath person_dir (name image_path) in
     world_update (fun root => shutil_copy root image_path destination) ;;
     say (ImageAdded destination) ;;
     ret true)%prog.

End Registration.
End Registration.

(** ** A small instance of the libraries

    Encodings are integers, an image is the list of the encodings of the faces
    in it, distances are absolute differences, and a file holds a picture, a
    pickled dict or something unreadable.  The model runs on it. *)

Module Toy.

Inductive toy_content :=
| Picture (faces : list Z)
| Pickled (b : gmap string (pyval Z))
| Junk.

Fixpoint argmin_from (best_index : nat) (best : Z) (i : nat) (ds : list Z) : nat :=
  match ds with
  | [] => best_index
  | d :: ds' =>
      if (d <? best)%Z then argmin_from i d (S i) ds'
      else argmin_from best_index best (S i) ds'
  end.

Definition argmin (ds : list Z) : result exc_type nat :=
  match ds with
  | [] => Raise ValueError
  | d :: ds' => Ok (argmin_from 0 d 1 ds')
  end.

(** Distances count thousandths: 400 stands for 0.4. *)
Definition thousandths (d : Z) : PrimFloat.float :=
  PrimFloat.div (Binary64.of_Z d) (Binary64.of_Z 1000).

#[export] Instance libraries : Libraries := {|
  encoding := Z;
  image := list Z;
  content := toy_content;
  distance := Z;
  location := nat;
  fr_load_image_file c :=
    match c with Picture faces => Ok faces | _ => Raise LibraryError end;
  fr_face_encodings img := Ok img;
  fr_face_locations img := seq 0 (length img);
  fr_face_encodings_at img locations := take (length locations) img;
  fr_compare_faces known e tol := map (fun k => (Z.abs (k - e) <=? tol)%Z) known;
  fr_face_distance known e := map (fun k => Z.abs (k - e)) known;
  np_argmin := argmin;
  cv2_imread c := match c with Picture faces => Some faces | _ => None end;
  cv2_cvtColor_BGR2RGB img := img;
  cv2_resize_quarter img := img;
  pickle_dump b := Pickled b;
  pickle_load c :=
    match c with Pickled b => Ok b | _ => Raise UnpicklingError end;
  float64 := thousandths;
|}.

(** A working directory with two persons, one of them with a photo without
    a face, a text file, an unreadable image and a nested directory. *)
Definition known_faces : node :=
  Dir [("Jean", Dir [("photo1.jpg", File (Picture [100%Z; 900%Z]));
                     ("notes.txt", File Junk);
                     ("broken.PNG", File Junk);
                     ("empty.jpeg", File (Picture []));
                     ("album.bmp", Dir [])]);
       ("README.md", File Junk);
       ("Marie", Dir [("portrait.BMP", File (Picture [500%Z]))])].

Definition cwd : node := Dir [("known_faces", known_faces)].

Definition start : world := {| fs := cwd; console := [] |}.

(** The object right after the assignments of [__init__]. *)
Definition session : Recognition.session :=
  {| Recognition.self := Recognition.new_system ["known_faces"] 600%Z;
     Recognition.env := start |}.

(** A system that knows Jean and Marie, and a frame with three faces. *)
Definition system : Recognition.FaceRecognitionSystem :=
  {| Recognition.known_faces_dir := ["known_faces"];
     Recognition.tolerance := 600%Z;
     Recognition.known_face_encodings := [100%Z; 500%Z];
     Recognition.known_face_names := ["Jean"; "Marie"];
     Recognition.encodings_file := ["face_encodings.pkl"] |}.

Definition frame : list Z := [120%Z; 2000%Z; 480%Z].

Definition registration : Registration.FaceRegistration :=
  {| Registration.known_faces_dir := ["known_faces"] |}.

End Toy.

(** ** Specification-side definitions

    These follow the words of the specification, not the code; Part II
    compares them with the functions above. *)

Section Specification.
Context {L : Libraries}.

(** The faces the external encoder finds in a directory entry. *)
Definition faces_in (target : node) : result exc_type (list encoding) :=
  match target with
  | File c =>
      match fr_load_image_file c with
      | Ok img => fr_face_encodings img
      | Raise t => Raise t
      end
  | Dir _ => Raise IsADirectoryError
  end.

Definition has_image_suffix (file : string) : bool :=
  bool_decide (lower (suffix file) ∈ Recognition.image_extensions).

(** At most one labelled encoding per image: the first face found. *)
Definition image_contribution (person_name : string) (entry : string * node)
  : list (encoding * string) :=
  if has_image_suffix entry.1 then
    match faces_in entry.2 with
    | Ok (first :: _) => [(first, person_name)]
    | _ => []
    end
  else [].

(** Only the immediate subdirectories contribute, each under its name. *)
Definition person_contribution (entry : string * node)
  : list (encoding * string) :=
  match entry.2 with
  | Dir images => flat_map (image_contribution entry.1) images
  | File _ => []
  end.

Definition registry_of (persons : list (string * node))
  : list (encoding * string) :=
  flat_map person_contribution persons.

(** What the scan prints for an entry: a success line, a warning when no
    face was found, or the exception that was caught. *)
Definition image_events (entry : string * node) : list event :=
  if has_image_suffix entry.1 then
    match faces_in entry.2 with
    | Ok (_ :: _) => [Encoded entry.1]
    | Ok [] => [NoFaceDetected entry.1]
    | Raise t => [ErrorWith entry.1 (FromLibrary t)]
    end
  else [].

Definition person_events (entry : string * node) : list event :=
  match entry.2 with
  | Dir images => Processing entry.1 :: flat_map image_events images
  | File _ => []
  end.

(** [tenths] is the integer nearest to [q], the even one of two that are
    as near. *)
Definition nearest_even (tenths : Z) (q : Q) : Prop :=
  (Qabs (inject_Z tenths - q) <= 1 # 2)%Q
  /\ ((Qabs (inject_Z tenths - q) == 1 # 2)%Q -> Z.even tenths = true).

(** [text] is the double [x] printed with one decimal: the decimal numeral,
    with one digit after the point, of the tenths nearest to the absolute
    value of [x], after a minus sign when [x] is negative; an infinite [x]
    and one that is not a number print as their names. *)
Definition shows_one_decimal (x : PrimFloat.float) (text : string) : Prop :=
  match FloatOps.Prim2SF x with
  | SpecFloat.S754_nan => text = "nan"
  | SpecFloat.S754_infinity s => text = if s then "-inf" else "inf"
  | SpecFloat.S754_zero s => text = (if s then "-" else "") +:+ "0.0"
  | SpecFloat.S754_finite s m e =>
      exists tenths : Z,
        nearest_even tenths (10 * (inject_Z (Z.pos m) * Qpower 2 e))%Q
        /\ text = (if s then "-" else "") +:+ pretty (tenths / 10)%Z +:+ "."
                  +:+ pretty (tenths mod 10)%Z
  end.

(** The label of a detected face: the known name at the index of minimal
    distance, followed by the confidence, when that index is a match. *)
Definition expected_label (sys : Recognition.FaceRecognitionSystem)
    (e : encoding) : string :=
  let known := Recognition.known_face_encodings sys in
  let ds := fr_face_distance known e in
  match known, np_argmin ds with
  | _ :: _, Ok i =>
      match fr_compare_faces known e (Recognition.tolerance sys) !! i,
            Recognition.known_face_names sys !! i, ds !! i with
      | Some true, Some name, Some d =>
          name +:+ " (" +:+ format_1f (Recognition.confidence d) +:+ "%)"
      | _, _, _ => "Inconnu"
      end
  | _, _ => "Inconnu"
  end.

(** The ratio of [resize_image] without rounding:
    [min(max_width / width, max_height / height)]. *)
Definition exact_ratio (shape : Z * Z) (max_width max_height : Z) : Q :=
  Qmin (inject_Z max_width / inject_Z shape.2) (inject_Z max_height / inject_Z shape.1).

(** [x] is [exact] rounded once: within a relative error of 2^-53. *)
Definition within (exact x : Q) : bool :=
  Qle_bool (exact * (1 - unit_roundoff)) x
  && Qle_bool x (exact * (1 + unit_roundoff)).

(** The operations of [resize_image] round to nearest on these sizes: each
    quotient is its exact value rounded once, and is at least 1 exactly when
    the exact one is; and where the ratio is below 1, each product is the
    exact product of the size and the ratio, rounded once.  An arithmetic
    under [DoubleLaws] does so on all sizes below 2^24, and for given sizes
    the condition is settled by evaluation. *)
Definition rounded_to_nearest {D : Double} (height width max_width max_height : Z)
  : bool :=
  let a := truediv max_width width in
  let b := truediv max_height height in
  let ratio := Utils.min_float a b in
  within (inject_Z max_width / inject_Z width) (to_Q a)
  && within (inject_Z max_height / inject_Z height) (to_Q b)
  && Bool.eqb (Qle_bool 1 (to_Q a)) (width <=? max_width)%Z
  && Bool.eqb (Qle_bool 1 (to_Q b)) (height <=? max_height)%Z
  && (Qle_bool 1 (to_Q ratio)
      || within (inject_Z width * to_Q ratio) (to_Q (mul_int width ratio))
         && within (inject_Z height * to_Q ratio) (to_Q (mul_int height ratio))).

(** Whether [resize_image], run on the interpreter's doubles, does to an
    image what the specification allows: nothing when it fits, and otherwise
    new sizes that are the floors of the exact products or one less. *)
Definition resized_as_specified (height width max_width max_height : Z) : bool :=
  let r := exact_ratio (height, width) max_width max_height in
  let fits := (width <=? max_width)%Z && (height <=? max_height)%Z in
  match Utils.resize_image (D := Binary64.double) (height, width) max_width max_height with
  | Ok Utils.Unchanged => fits
  | Ok (Utils.Resized new_width new_height) =>
      negb fits
      && (Qfloor (inject_Z width * r) - 1 <=? new_width)%Z
      && (new_width <=? Qfloor (inject_Z width * r))%Z
      && (Qfloor (inject_Z height * r) - 1 <=? new_height)%Z
      && (new_height <=? Qfloor (inject_Z height * r))%Z
  | Raise _ => false
  end.

(** A program that never raises an exception built by the repository. *)
Definition library_only {S A} (m : prog S A) : Prop :=
  forall s t msg, (m s).1 <> Raise (FromRepository t msg).

(** The same for the result of a call that changes nothing. *)
Definition library_only_result {A} (r : result exn A) : Prop :=
  forall t msg, r <> Raise (FromRepository t msg).

(** The session [s] after the lines [evs] were printed and the labelled
    encodings [pairs] appended to the registry. *)
Definition grown (pairs : list (encoding * string)) (evs : list event)
    (s : Recognition.session) : Recognition.session :=
  let sys := Recognition.self s in
  {| Recognition.self :=
       {| Recognition.known_faces_dir := Recognition.known_faces_dir sys;
          Recognition.tolerance := Recognition.tolerance sys;
          Recognition.known_face_encodings :=
            Recognition.known_face_encodings sys ++ pairs.*1;
          Recognition.known_face_names :=
            Recognition.known_face_names sys ++ pairs.*2;
          Recognition.encodings_file := Recognition.encodings_file sys |};
     Recognition.env :=
       {| fs := fs (Recognition.env s);
          console := console (Recognition.env s) ++ evs |} |}.

End Specification.

(** ** More of the file system: [os.remove] *)

Section FileSystemMore.
Context {L : Libraries}.

(** A directory without the name [k]. *)
Fixpoint alist_delete (k : string) (es : list (string * node))
  : list (string * node) :=
  match es with
  | [] => []
  | (k', n) :: es' =>
      if String.eqb k k' then alist_delete k es' else (k', n) :: alist_delete k es'
  end.

(** Take the entry at [p] out of the tree. *)
Fixpoint unlink (root : node) (p : path) : result exc_type node :=
  match p with
  | [] => Raise IsADirectoryError
  | c :: p' =>
      match root with
      | File _ => Raise NotADirectoryError
      | Dir es =>
          match alist_find c es, p' with
          | Some _, [] => Ok (Dir (alist_delete c es))
          | Some child, _ :: _ =>
              match unlink child p' with
              | Ok child' => Ok (Dir (alist_set c child' es))
              | Raise e => Raise e
              end
          | None, _ => Raise FileNotFoundError
          end
      end
  end.

(** [os.remove(p)]: only a regular file can be removed. *)
Definition os_remove (root : node) (p : path) : result exc_type node :=
  match resolve root p with
  | Found (File _) => unlink root p
  | Found (Dir _) => Raise IsADirectoryError
  | NoEntry => Raise FileNotFoundError
  | NotDirectory => Raise NotADirectoryError
  end.

(** A node without entries: a file or an empty directory. *)
Definition leaf (n : node) : Prop :=
  match n with File _ => True | Dir es => es = [] end.

(** Two trees with the same regular files, of the same contents, at the
    paths outside [written]. *)
Definition same_files_except (written : path -> Prop) (root root' : node) : Prop :=
  forall q c, ~ written q ->
    resolve root' q = Found (File c) <-> resolve root q = Found (File c).

End FileSystemMore.

(** ** utils.py, continued *)

Module UtilsMore.
Section UtilsMore.
Context {L : Libraries}.

(** [get_face_encoding]: [face_recognition] opens the file itself. *)
Definition get_face_encoding (image_path : path) : prog world (list encoding) :=
  (c <- world_read (fun root => read_file root image_path) ;;
   image <- lift_result (fr_load_image_file c) ;;
   lift_result (fr_face_encodings image))%prog.

End UtilsMore.
End UtilsMore.

(** ** face_recognition_system.py: the menu of [main] *)

Module Main.
Section Main.
Context {L : Libraries}.
Import Recognition.

(** The line [main] prints when a choice of the menu is done. *)
Inductive closing :=
| ReencodingDone.

(** The branch [choice == "3"] of [main], run on the system [main] has
    built; the value returned is the line printed last. *)
Definition reencode : prog session closing :=
  (file <- gets (fun s => encodings_file (self s)) ;;
   present <- gets (fun s => path_exists (fs (env s)) file) ;;
   (if present
    then in_world (world_update (fun root => os_remove root file))
    else ret tt) ;;
   encode_known_faces ;;
   ret ReencodingDone)%prog.

End Main.
End Main.

(** ** face_recognition_system.py: the annotated frame *)

(** [face_recognition] gives the location of a face as the tuple
    (top, right, bottom, left). *)
Class Boxes (L : Libraries) := {
  box : location -> Z * Z * Z * Z;
}.

Module Drawing.

(** A colour is a (blue, green, red) tuple. *)
Definition color : Type := Z * Z * Z.

Inductive font :=
| FONT_HERSHEY_SIMPLEX
| FONT_HERSHEY_DUPLEX.

(** The calls that draw on a frame; the scale of a text is the value of its
    decimal literal. *)
Inductive shape :=
| Rectangle (pt1 pt2 : Z * Z) (c : color) (thickness : Z)
| PutText (text : string) (org : Z * Z) (face : font) (scale : Q) (c : color)
    (thickness : Z).

Definition FILLED : Z := -1.

(** [needle in s]: [needle] starts at some position of [s]. *)
Fixpoint contains (needle s : string) : bool :=
  String.prefix needle s
  || match s with
     | EmptyString => false
     | String _ s' => contains needle s'
     end.

(** [(0, 255, 0) if "Inconnu" not in name else (0, 0, 255)]. *)
Definition box_color (name : string) : color :=
  if negb (contains "Inconnu" name) then (0, 255, 0)%Z else (0, 0, 255)%Z.

Section Drawing.
Context {L : Libraries} {B : Boxes L}.

(** The body of the drawing loop: the three calls on [frame]. *)
Definition draw_face (item : location * string) : list shape :=
  let '(loc, name) := item in
  let '(top, right_, bottom, left_) := box loc in
  let top := (top * 4)%Z in
  let right_ := (right_ * 4)%Z in
  let bottom := (bottom * 4)%Z in
  let left_ := (left_ * 4)%Z in
  let color := box_color name in
  [Rectangle (left_, top) (right_, bottom) color 2;
   Rectangle (left_, bottom - 35)%Z (right_, bottom) color FILLED;
   PutText name (left_ + 6, bottom - 6)%Z FONT_HERSHEY_DUPLEX (6 # 10) (255, 255, 255)%Z 1].

(** The whole of [recognize_faces_in_frame]: what was drawn on the frame,
    in order, and the names. *)
Definition recognize_faces_in_frame (sys : Recognition.FaceRecognitionSystem)
    (frame : image) : result exn (list shape * list string) :=
  let rgb_frame := cv2_cvtColor_BGR2RGB frame in
  let small_frame := cv2_resize_quarter rgb_frame in
  let face_locations := fr_face_locations small_frame in
  let face_encodings := fr_face_encodings_at small_frame face_locations in
  match for_each face_encodings (Recognition.name_face sys) [] with
  | (Ok _, face_names) =>
      Ok (flat_map draw_face (zip face_locations face_names), face_names)
  | (Raise e, _) => Raise e
  end.

End Drawing.
End Drawing.

(** ** The camera, the windows and the keyboard *)

(** What cv2 does for the programs that run the camera: the Haar cascade
    of the registration, [detectMultiScale] on the grey frame with scale
    factor 1.1, 5 neighbours and a minimal size of 100 by 100, which gives
    rectangles (x, y, w, h); and the bytes [imwrite] stores, under a file
    name, for a frame and what was drawn on it. *)
Class Camera (L : Libraries) := {
  detectMultiScale : image -> list (Z * Z * Z * Z);
  imencode : string -> image -> list Drawing.shape -> content;
}.

(** A line feed. *)
Definition nl : string := String (Ascii.ascii_of_nat 10) "".

(** [try: m finally: f]. *)
Definition try_finally {S A} (m : prog S A) (f : prog S unit) : prog S A :=
  fun s =>
    let '(r, s') := m s in
    match f s' with
    | (Ok _, s'') => (r, s'')
    | (Raise e, s'') => (Raise e, s'')
    end.

(** [str.endswith]. *)
Definition endswith (s ending : string) : bool :=
  (String.length ending <=? String.length s)%nat
  && String.eqb
       (String.substring (String.length s - String.length ending)
          (String.length ending) s)
       ending.

Fixpoint zeros (n : nat) : string :=
  match n with
  | O => ""
  | S n' => String "0"%char (zeros n')
  end.

(** The format specification [:03d] on an int that is not negative. *)
Definition pad3 (n : Z) : string :=
  let digits := pretty n in
  zeros (3 - String.length digits) +:+ digits.

Module Studio.
Section Studio.
Context {L : Libraries} {B : Boxes L} {C : Camera L}.
Import Drawing.

(** One pass of a loop on the camera: the frame [read] returns, the value
    of [cv2.waitKey(1)] and the value of [time.time()].  A feed is the list of
    passes the camera serves before a read fails. *)
Record tick := Tick {
  tick_frame : image;
  tick_key : Z;
  tick_time : PrimFloat.float;
}.

(** What a window shows: a frame with what was drawn on it, or the frame
    with every pixel set to white. *)
Inductive display :=
| Drawn (frame : image) (shapes : list shape)
| White (frame : image).

Inductive output :=
| Print (text : string)
| Imshow (window : string) (d : display)
| WaitKey (delay : Z)
| Release
| DestroyAllWindows.

(** The files, and what went to the terminal, the windows and the camera,
    in order. *)
Record studio := Studio_ { disk : node; screen : list output }.

Definition emit (o : output) : prog studio unit :=
  modify (fun st => {| disk := disk st; screen := screen st ++ [o] |}).

Definition print (text : string) : prog studio unit := emit (Print text).

Definition update (op : node -> result exc_type node) : prog studio unit :=
  fun st =>
    match op (disk st) with
    | Ok root' => (Ok tt, {| disk := root'; screen := screen st |})
    | Raise t => (Raise (FromLibrary t), st)
    end.

(** [cv2.imwrite(str(p), frame)]: where the file cannot be written it
    returns False, which no caller looks at. *)
Definition imwrite (p : path) (frame : image) (shapes : list shape)
  : prog studio unit :=
  modify (fun st =>
    match write_file (disk st) p (imencode (name p) frame shapes) with
    | Ok root' => {| disk := root'; screen := screen st |}
    | Raise _ => st
    end).

(** [ord(' ')], [ord('q')] and [ord('s')]. *)
Definition SPACE : Z := 32.
Definition KEY_Q : Z := 113.
Definition KEY_S : Z := 115.

(** [cv2.waitKey(1) & 0xFF]. *)
Definition pressed (t : tick) : Z := Z.land (tick_key t) 255.

Definition green : color := (0, 255, 0)%Z.
Definition white : color := (255, 255, 255)%Z.

(** *** register_face.py: the loops on the camera *)

(** The name of the photo of number [photo_count]. *)
Definition numbered_photo (person_name : string) (photo_count : Z) : string :=
  person_name +:+ "_" +:+ pad3 photo_count +:+ ".jpg".

(** The rectangles and captions drawn around the faces the cascade found. *)
Definition detected_boxes (faces : list (Z * Z * Z * Z)) : list shape :=
  flat_map (fun '(x, y, w, h) =>
              [Rectangle (x, y) (x + w, y + h)%Z green 2;
               PutText "Visage détecté" (x, y - 10)%Z FONT_HERSHEY_SIMPLEX (5 # 10)
                 green 2])
           faces.

(** The [while photo_count < num_photos] loop; it returns [photo_count]. *)
Fixpoint capture_loop (person_dir : path) (person_name : string) (num_photos : Z)
    (feed : list tick) (photo_count : Z) (last_capture_time : PrimFloat.float)
  {struct feed} : prog studio Z :=
  if (photo_count <? num_photos)%Z then
    match feed with
    | [] => (print "❌ Impossible de lire l'image" ;; ret photo_count)%prog
    | t :: feed' =>
        let frame := tick_frame t in
        let faces := detectMultiScale frame in
        let display_frame :=
          detected_boxes faces
          ++ [PutText ("Photos: " +:+ pretty photo_count +:+ "/" +:+ pretty num_photos)
                (10, 30)%Z FONT_HERSHEY_SIMPLEX 1 green 2;
              PutText "ESPACE = Capturer | Q = Quitter" (10, 60)%Z
                FONT_HERSHEY_SIMPLEX (6 # 10) white 2] in
        let window := "Enregistrement - " +:+ person_name in
        (emit (Imshow window (Drawn frame display_frame)) ;;
         let key := pressed t in
         let current_time := tick_time t in
         if (key =? SPACE)%Z
            && PrimFloat.ltb (Binary64.of_Z 1)
                 (PrimFloat.sub current_time last_capture_time)
         then
           if (0 <? length faces)%nat then
             let photo_count := (photo_count + 1)%Z in
             let filename := numbered_photo person_name photo_count in
             let filepath := joinpath person_dir filename in
             imwrite filepath frame [] ;;
             print ("  ✓ Photo " +:+ pretty photo_count +:+ "/" +:+ pretty num_photos
                    +:+ " sauvegardée: " +:+ filename) ;;
             emit (Imshow window (White frame)) ;;
             emit (WaitKey 100) ;;
             capture_loop person_dir person_name num_photos feed' photo_count current_time
           else
             print "  ⚠️ Aucun visage détecté. Réessayez." ;;
             capture_loop person_dir person_name num_photos feed' photo_count
               last_capture_time
         else if (key =? KEY_Q)%Z then
           print (nl +:+ "⚠️ Enregistrement annulé") ;;
           ret photo_count
         else
           capture_loop person_dir person_name num_photos feed' photo_count
             last_capture_time)%prog
    end
  else ret photo_count.

(** [capture_faces_from_webcam]; [opened] is what [isOpened] answers.  The
    result is [None] where the function returns nothing. *)
Definition capture_faces_from_webcam (reg : Registration.FaceRegistration)
    (person_name : string) (num_photos : Z) (opened : bool) (feed : list tick)
  : prog studio (option Z) :=
  let person_dir := joinpath (Registration.known_faces_dir reg) person_name in
  (update (fun root => mkdir_exist_ok root person_dir) ;;
   print (nl +:+ "📸 Capture de " +:+ pretty num_photos +:+ " photos pour "
          +:+ person_name) ;;
   print "Instructions:" ;;
   print "  - Regardez la caméra" ;;
   print "  - Changez légèrement de position entre chaque photo" ;;
   print "  - Appuyez sur ESPACE pour capturer une photo" ;;
   print "  - Appuyez sur 'q' pour quitter" ;;
   if negb opened then
     print "❌ Impossible d'ouvrir la webcam" ;;
     ret None
   else
     photo_count <-
       try_finally
         (capture_loop person_dir person_name num_photos feed 0 (Binary64.of_Z 0))
         (emit Release ;; emit DestroyAllWindows) ;;
     (if (num_photos <=? photo_count)%Z then
        print (nl +:+ "✓ Enregistrement terminé! " +:+ pretty photo_count
               +:+ " photos sauvegardées dans " +:+ path_str person_dir) ;;
        print "💡 Conseil: Relancez le système de reconnaissance pour encoder ces nouveaux visages"
      else ret tt) ;;
     ret (Some photo_count))%prog.

(** The file name [capture_single_photo] saves under: a stamped one when
    none was given, and the given one, with .jpg added unless it ends with
    .jpg, .jpeg or .png. *)
Definition single_photo_name (person_name : string) (photo_name : option string)
    (now : PrimFloat.float) : string :=
  match photo_name with
  | None =>
      let timestamp := Utils.int_of_float (D := Binary64.double) now in
      person_name +:+ "_" +:+ pretty timestamp +:+ ".jpg"
  | Some photo_name =>
      if negb (endswith photo_name ".jpg" || endswith photo_name ".jpeg"
               || endswith photo_name ".png")
      then photo_name +:+ ".jpg"
      else photo_name
  end.

(** The [while not captured] loop; it returns [captured]. *)
Fixpoint single_loop (person_dir : path) (person_name : string)
    (photo_name : option string) (feed : list tick) : prog studio bool :=
  match feed with
  | [] => (print "❌ Impossible de lire l'image" ;; ret false)%prog
  | t :: feed' =>
      let frame := tick_frame t in
      let faces := detectMultiScale frame in
      let display_frame :=
        flat_map (fun '(x, y, w, h) => [Rectangle (x, y) (x + w, y + h)%Z green 2]) faces
        ++ [PutText "ESPACE = Capturer | Q = Quitter" (10, 30)%Z
              FONT_HERSHEY_SIMPLEX (7 # 10) green 2] in
      (emit (Imshow "Capture Photo" (Drawn frame display_frame)) ;;
       let key := pressed t in
       if (key =? SPACE)%Z then
         if (0 <? length faces)%nat then
           let photo_name := single_photo_name person_name photo_name (tick_time t) in
           let filepath := joinpath person_dir photo_name in
           imwrite filepath frame [] ;;
           print ("✓ Photo sauvegardée: " +:+ path_str filepath) ;;
           ret true
         else
           print "⚠️ Aucun visage détecté. Réessayez." ;;
           single_loop person_dir person_name photo_name feed'
       else if (key =? KEY_Q)%Z then
         print "⚠️ Capture annulée" ;;
         ret false
       else single_loop person_dir person_name photo_name feed')%prog
  end.

Definition capture_single_photo (reg : Registration.FaceRegistration)
    (person_name : string) (photo_name : option string) (opened : bool)
    (feed : list tick) : prog studio bool :=
  let person_dir := joinpath (Registration.known_faces_dir reg) person_name in
  (update (fun root => mkdir_exist_ok root person_dir) ;;
   print (nl +:+ "📸 Capture d'une photo pour " +:+ person_name) ;;
   print "Appuyez sur ESPACE pour capturer" ;;
   if negb opened then
     print "❌ Impossible d'ouvrir la webcam" ;;
     ret false
   else
     try_finally (single_loop person_dir person_name photo_name feed)
       (emit Release ;; emit DestroyAllWindows))%prog.

(** *** face_recognition_system.py: recognition on the camera *)

(** The [while True] loop; [detected_names] is read only after the first
    pass has assigned it. *)
Fixpoint video_loop (sys : Recognition.FaceRecognitionSystem) (feed : list tick)
    (frame_count : Z) (detected_names : list string) : prog studio unit :=
  match feed with
  | [] => print "❌ Impossible de lire l'image"
  | t :: feed' =>
      let frame := tick_frame t in
      (recognized <-
         (if (frame_count mod 2 =? 0)%Z
          then fun st => (Drawing.recognize_faces_in_frame sys frame, st)
          else ret ([], detected_names)) ;;
       let '(shapes, detected_names) := recognized in
       let shapes :=
         shapes
         ++ [PutText ("Visages: " +:+ pretty (length detected_names)) (10, 30)%Z
               FONT_HERSHEY_SIMPLEX (7 # 10) green 2] in
       emit (Imshow "Reconnaissance Faciale" (Drawn frame shapes)) ;;
       let frame_count := (frame_count + 1)%Z in
       let key := pressed t in
       if (key =? KEY_Q)%Z then ret tt
       else
         (if (key =? KEY_S)%Z then
            let screenshot_path := "screenshot_" +:+ pretty frame_count +:+ ".jpg" in
            imwrite [screenshot_path] frame shapes ;;
            print ("📸 Capture sauvegardée: " +:+ screenshot_path)
          else ret tt) ;;
         video_loop sys feed' frame_count detected_names)%prog
  end.

Definition start_video_recognition (sys : Recognition.FaceRecognitionSystem)
    (opened : bool) (feed : list tick) : prog studio unit :=
  (print (nl +:+ "🎥 Démarrage de la reconnaissance faciale...") ;;
   print "Appuyez sur 'q' pour quitter" ;;
   print "Appuyez sur 's' pour prendre une capture d'écran" ;;
   if negb opened then print "❌ Impossible d'ouvrir la webcam"
   else
     try_finally (video_loop sys feed 0 [])
       (emit Release ;; emit DestroyAllWindows ;;
        print (nl +:+ "✓ Reconnaissance faciale arrêtée")))%prog.

(** [recognize_in_image]. *)
Definition recognize_in_image (sys : Recognition.FaceRecognitionSystem)
    (image_path : path) : prog studio unit :=
  (print (nl +:+ "🖼️ Analyse de l'image: " +:+ path_str image_path) ;;
   frame <- gets (fun st => Utils.imread (disk st) image_path) ;;
   match frame with
   | None => print "❌ Impossible de charger l'image"
   | Some frame =>
       recognized <- (fun st => (Drawing.recognize_faces_in_frame sys frame, st)) ;;
       let '(shapes, detected_names) := recognized in
       print ("✓ " +:+ pretty (length detected_names) +:+ " visage(s) détecté(s): "
              +:+ String.concat ", " detected_names) ;;
       emit (Imshow "Reconnaissance Faciale - Image" (Drawn frame shapes)) ;;
       print "Appuyez sur une touche pour fermer..." ;;
       emit (WaitKey 0) ;;
       emit DestroyAllWindows
   end)%prog.

End Studio.
End Studio.

(** ** The small instance, continued

    A location is the index of the face in the image; the cascade finds a
    square for each face, and a written frame is stored as a picture. *)

Module ToyStudio.

Definition box_of (n : nat) : Z * Z * Z * Z :=
  (Z.of_nat n * 10, Z.of_nat n * 10 + 8, Z.of_nat n * 10 + 8, Z.of_nat n * 10)%Z.

#[export] Instance boxes : Boxes Toy.libraries := Build_Boxes Toy.libraries box_of.

Definition squares (img : list Z) : list (Z * Z * Z * Z) :=
  map (fun e => (e, e, 100, 100)%Z) img.

Definition stored (file : string) (frame : list Z) (shapes : list Drawing.shape)
  : Toy.toy_content := Toy.Picture frame.

#[export] Instance camera : Camera Toy.libraries :=
  Build_Camera Toy.libraries squares stored.

(** A pass on a frame, with a key value and the seconds on the clock. *)
Definition pass (frame : list Z) (key : Z) (seconds : Z)
  : @Studio.tick Toy.libraries :=
  @Studio.Tick Toy.libraries frame key (Binary64.of_Z seconds).

(** Two photos taken, a third attempt within the second after, and one on
    a frame without a face. *)
Definition feed : list (@Studio.tick Toy.libraries) :=
  [pass [100%Z] (-1) 1000; pass [110%Z] 32 1001; pass [120%Z] 32 1001;
   pass [] 32 1003; pass [130%Z] 32 1004; pass [140%Z] 113 1005].

Definition studio : @Studio.studio Toy.libraries :=
  @Studio.Studio_ Toy.libraries Toy.cwd [].

End ToyStudio.

(** ** utils.py: the functions on an image *)

(** What cv2 and numpy do for the remaining functions of utils.py. *)
Class Vision (L : Libraries) := {
  (** [cv2.cvtColor(image, cv2.COLOR_BGR2GRAY)] *)
  cv2_cvtColor_BGR2GRAY : image -> result exc_type image;
  (** the default Haar cascade: [detectMultiScale] on a grey image with scale
      factor 1.1, 5 neighbours and a minimal size of 30 by 30 *)
  detectMultiScale_30 : image -> result exc_type (list (Z * Z * Z * Z));
  (** [cv2.rectangle] and [cv2.putText] on an image *)
  cv2_draw : image -> Drawing.shape -> result exc_type image;
  (** [image[top:bottom, left:right]] *)
  np_region : image -> Z * Z * Z * Z -> image;
  (** [cv2.GaussianBlur(region, (k, k), sigma)] *)
  cv2_GaussianBlur : image -> Z -> Z -> result exc_type image;
  (** [image[top:bottom, left:right] = region] *)
  np_set_region : image -> Z * Z * Z * Z -> image -> result exc_type image;
  (** [np.mean], [np.std] and [cv2.Laplacian(gray, cv2.CV_64F).var()] *)
  np_mean : image -> PrimFloat.float;
  np_std : image -> PrimFloat.float;
  laplacian_var : image -> PrimFloat.float;
  (** [cv2.resize(img, (200, 200))] *)
  cv2_resize_200 : image -> result exc_type image;
  (** the bytes [cv2.imwrite] stores for a mosaic under a file name; it
      raises where the extension of the name has no encoder *)
  imencode_mosaic : string -> Utils.mosaic -> result exc_type content;
}.

(** [k r] when [r] is a value. *)
Definition and_then {E A B} (r : result E A) (k : A -> result E B) : result E B :=
  match r with
  | Ok a => k a
  | Raise e => Raise e
  end.

(** The format specification [:.2f] on a double. *)
Definition format_2f (x : PrimFloat.float) : string :=
  match FloatOps.Prim2SF x with
  | SpecFloat.S754_nan => "nan"
  | SpecFloat.S754_infinity s => if s then "-inf" else "inf"
  | SpecFloat.S754_zero s => (if s then "-" else "") +:+ "0.00"
  | SpecFloat.S754_finite s m e =>
      let hundredths :=
        if (0 <=? e)%Z then (100 * Z.pos m * 2 ^ e)%Z
        else round_half_even (100 * Z.pos m) (2 ^ (- e)) in
      let digits := pretty (hundredths mod 100)%Z in
      (if s then "-" else "") +:+ pretty (hundredths / 100)%Z +:+ "."
      +:+ zeros (2 - String.length digits) +:+ digits
  end.

Module UtilsRest.
Section UtilsRest.
Context {L : Libraries} {V : Vision L} {C : Camera L}.
Import Drawing.

(** [detect_faces_opencv]. *)
Definition detect_faces_opencv (img : image) : result exn (list (Z * Z * Z * Z)) :=
  from_library
    (and_then (cv2_cvtColor_BGR2GRAY img) (fun gray =>
     and_then (detectMultiScale_30 gray) (fun faces =>
     Ok faces))).

(** [draw_face_box]: the three calls on the image, in order. *)
Definition draw_face_box (img : image) (location : Z * Z * Z * Z) (name : string)
    (color : color) : result exn image :=
  let '(top, right_, bottom, left_) := location in
  from_library
    (and_then (cv2_draw img (Rectangle (left_, top) (right_, bottom) color 2))
       (fun img =>
     and_then (cv2_draw img
                 (Rectangle (left_, bottom - 35)%Z (right_, bottom) color FILLED))
       (fun img =>
     and_then (cv2_draw img
                 (PutText name (left_ + 6, bottom - 6)%Z FONT_HERSHEY_DUPLEX (6 # 10)
                    (255, 255, 255)%Z 1))
       (fun img => Ok img)))).

(** [blur_face]. *)
Definition blur_face (img : image) (location : Z * Z * Z * Z) (blur_amount : Z)
  : result exn image :=
  let '(top, right_, bottom, left_) := location in
  let face_region := np_region img (top, bottom, left_, right_) in
  from_library
    (and_then (cv2_GaussianBlur face_region blur_amount 30) (fun blurred_face =>
     and_then (np_set_region img (top, bottom, left_, right_) blurred_face)
       (fun img => Ok img))).

(** The dict [get_image_quality] returns. *)
Record quality := Quality {
  brightness : PrimFloat.float;
  contrast : PrimFloat.float;
  sharpness : PrimFloat.float;
  quality_score : PrimFloat.float;
}.

(** [get_image_quality]: [cv2.cvtColor] raises on the [None] that
    [cv2.imread] returns for what it cannot read. *)
Definition get_image_quality (image_path : path) : prog world quality :=
  (image <- gets (fun w => Utils.imread (fs w) image_path) ;;
   gray <- lift_result
             match image with
             | Some image => cv2_cvtColor_BGR2GRAY image
             | None => Raise LibraryError
             end ;;
   let brightness := np_mean gray in
   let contrast := np_std gray in
   let sharpness := laplacian_var gray in
   ret {| brightness := brightness;
          contrast := contrast;
          sharpness := sharpness;
          quality_score :=
            PrimFloat.div (PrimFloat.mul contrast sharpness) (Binary64.of_Z 10000) |})%prog.

(** [Path.glob("**/*.jpg")] from a directory: the entries of the directory
    whose name ends with .jpg, then those of its subdirectories, each in the
    order of its entries. *)
Fixpoint glob_jpg (here : path) (n : node) : list path :=
  match n with
  | File _ => []
  | Dir entries =>
      map (fun entry : string * node => here ++ [entry.1])
        (List.filter (fun entry : string * node => endswith entry.1 ".jpg") entries)
      ++ flat_map (fun entry : string * node =>
                     let '(k, child) := entry in
                     match child with
                     | Dir _ => glob_jpg (here ++ [k]) child
                     | File _ => []
                     end)
           entries
  end.

(** The loop that loads the images: what cannot be read is passed over. *)
Fixpoint load_images (root : node) (found : list path) (images : list image)
  : result exc_type (list image) :=
  match found with
  | [] => Ok images
  | img_path :: found' =>
      match Utils.imread root img_path with
      | Some img =>
          and_then (cv2_resize_200 img) (fun img =>
          load_images root found' (images ++ [img]))
      | None => load_images root found' images
      end
  end.

(** [create_face_mosaic]; [cv2.imwrite] returns False, which is not looked
    at, where the file cannot be written. *)
Definition create_face_mosaic (image_dir : path) (output_path : string)
  : prog Studio.studio unit :=
  (root <- gets Studio.disk ;;
   let found :=
     match resolve root image_dir with
     | Found n => glob_jpg image_dir n
     | _ => []
     end in
   images <- lift_result (load_images root found []) ;;
   match Utils.build_mosaic images with
   | None => Studio.print "Aucune image trouvée"
   | Some (filled, mosaic) =>
       (fun st => (filled, st)) ;;
       let target := components output_path in
       bytes <- lift_result (imencode_mosaic output_path mosaic) ;;
       modify (fun st =>
         match write_file (Studio.disk st) target bytes with
         | Ok root' => {| Studio.disk := root'; Studio.screen := Studio.screen st |}
         | Raise _ => st
         end) ;;
       Studio.print ("✓ Mosaïque créée: " +:+ output_path)
   end)%prog.

End UtilsRest.
End UtilsRest.

(** ** The scripts: the two menus and the examples *)

(** What the interpreter does for the scripts: [str.strip], [int] of a
    string, [str] of an exception, and the float 0.6 as a distance. *)
Class Interpreter (L : Libraries) := {
  str_strip : string -> string;
  int_of_str : string -> result exc_type Z;
  str_of_exception : exn -> string;
  tolerance_0_6 : distance;
}.

(** The class of an exception. *)
Definition class_of (e : exn) : exc_type :=
  match e with
  | FromLibrary t => t
  | FromRepository t _ => t
  end.

(** [try: m except t: h]. *)
Definition try_except_of {S A} (t : exc_type) (m : prog S A) (h : prog S A)
  : prog S A :=
  fun s =>
    match m s with
    | (Ok a, s') => (Ok a, s')
    | (Raise e, s') => if bool_decide (class_of e = t) then h s' else (Raise e, s')
    end.

(** [text * n]. *)
Fixpoint times (n : nat) (text : string) : string :=
  match n with
  | O => ""
  | S n' => text +:+ times n' text
  end.

(** [s.split(sep)] for a separator of one character, as its first part and
    the others. *)
Fixpoint split_on (sep : ascii) (s : string) : string * list string :=
  match s with
  | EmptyString => ("", [])
  | String a s' =>
      let '(part, others) := split_on sep s' in
      if Ascii.eqb a sep then ("", part :: others) else (String a part, others)
  end.

Module Scripts.
Section Scripts.
Context {L : Libraries} {B : Boxes L} {C : Camera L} {V : Vision L}
  {I : Interpreter L}.
Import Recognition.

(** What goes to the terminal and the windows, in order: the lines of the
    methods of the recognition system and of [add_from_file], what the camera
    programs put out, the other printed lines, and the prompts of [input].

    The tree of files is the one below the working directory, where the
    scripts keep known_faces and face_encodings.pkl; a path that is typed is
    looked up there by its components, so one that leaves the tree finds
    nothing. *)
Inductive line :=
| Said (ev : event)
| Shown (o : Studio.output)
| Asked (prompt : string).

(** The files, the terminal, and the lines that will be typed. *)
Record terminal := Terminal {
  files : node;
  lines : list line;
  keyboard : list string;
}.

Definition print (text : string) : prog terminal unit :=
  modify (fun tm => {| files := files tm;
                       lines := lines tm ++ [Shown (Studio.Print text)];
                       keyboard := keyboard tm |}).

(** [input(prompt)]: the next line typed, and EOFError when there is
    none. *)
Definition input (prompt : string) : prog terminal string :=
  fun tm =>
    let asked := lines tm ++ [Asked prompt] in
    match keyboard tm with
    | answer :: rest =>
        (Ok answer, {| files := files tm; lines := asked; keyboard := rest |})
    | [] =>
        (Raise (FromLibrary EOFError),
         {| files := files tm; lines := asked; keyboard := [] |})
    end.

(** Run a program of the world, or of the camera, at the terminal. *)
Definition in_the_world {A} (m : prog world A) : prog terminal A :=
  fun tm =>
    let '(r, w') := m {| fs := files tm; console := [] |} in
    (r, {| files := fs w';
           lines := lines tm ++ (Said <$> console w');
           keyboard := keyboard tm |}).

Definition in_the_studio {A} (m : prog Studio.studio A) : prog terminal A :=
  fun tm =>
    let '(r, st') := m {| Studio.disk := files tm; Studio.screen := [] |} in
    (r, {| files := Studio.disk st';
           lines := lines tm ++ (Shown <$> Studio.screen st');
           keyboard := keyboard tm |}).

(** [FaceRecognitionSystem(known_faces_dir=...)], with the default
    tolerance. *)
Definition new_FaceRecognitionSystem (known_faces_dir : path)
  : prog terminal FaceRecognitionSystem :=
  fun tm =>
    let '(r, s') := init known_faces_dir tolerance_0_6
                      {| fs := files tm; console := [] |} in
    let tm' := {| files := fs (env s');
                  lines := lines tm ++ (Said <$> console (env s'));
                  keyboard := keyboard tm |} in
    match r with
    | Ok _ => (Ok (self s'), tm')
    | Raise e => (Raise e, tm')
    end.

(** A method of the system, called at the terminal. *)
Definition method {A} (system : FaceRecognitionSystem) (m : prog session A)
  : prog terminal A :=
  fun tm =>
    let '(r, s') := m {| self := system; env := {| fs := files tm; console := [] |} |} in
    (r, {| files := fs (env s');
           lines := lines tm ++ (Said <$> console (env s'));
           keyboard := keyboard tm |}).

(** *** examples.py *)

Definition exemple_analyse_qualite : prog terminal unit :=
  (print ("=== Analyse de qualité d'image ===" +:+ nl) ;;
   image_path <- input "Chemin de l'image à analyser: " ;;
   let image_path := str_strip image_path in
   try_except
     (quality <- in_the_world (UtilsRest.get_image_quality (components image_path)) ;;
      print (nl +:+ "📊 Résultats:") ;;
      print ("  Luminosité: " +:+ format_1f (UtilsRest.brightness quality) +:+ "/255") ;;
      print ("  Contraste: " +:+ format_1f (UtilsRest.contrast quality)) ;;
      print ("  Netteté: " +:+ format_1f (UtilsRest.sharpness quality)) ;;
      print ("  Score qualité: " +:+ format_2f (UtilsRest.quality_score quality)) ;;
      print (nl +:+ "💡 Recommandations:") ;;
      (if PrimFloat.ltb (UtilsRest.brightness quality) (Binary64.of_Z 50)
       then print "  ⚠️ Image trop sombre - augmentez l'éclairage"
       else if PrimFloat.ltb (Binary64.of_Z 200) (UtilsRest.brightness quality)
       then print "  ⚠️ Image surexposée - réduisez l'éclairage"
       else print "  ✓ Luminosité correcte") ;;
      if PrimFloat.ltb (UtilsRest.sharpness quality) (Binary64.of_Z 100)
      then print "  ⚠️ Image floue - utilisez une meilleure caméra"
      else print "  ✓ Netteté correcte")
     (fun e => print ("❌ Erreur: " +:+ str_of_exception e)))%prog.

(** [results[image_path] = names]: a key that is there keeps its place. *)
Fixpoint set_item (k : string) (v : list string) (d : list (string * list string))
  : list (string * list string) :=
  match d with
  | [] => [(k, v)]
  | (k', v') :: d' =>
      if String.eqb k k' then (k, v) :: d' else (k', v') :: set_item k v d'
  end.

(** The loop over the images of [exemple_reconnaissance_batch]; it returns
    [results]. *)
Fixpoint analyse_images (system : FaceRecognitionSystem) (images : list string)
    (results : list (string * list string))
  : prog terminal (list (string * list string)) :=
  match images with
  | [] => ret results
  | image_path :: images' =>
      let image_path := str_strip image_path in
      (print (nl +:+ "📷 Analyse: " +:+ image_path) ;;
       results <-
         try_except
           (frame <- gets (fun tm => Utils.imread (files tm) (components image_path)) ;;
            match frame with
            | Some frame =>
                names <- (fun tm => (recognize_faces_in_frame system frame, tm)) ;;
                let results := set_item image_path names results in
                print ("  ✓ " +:+ pretty (length names) +:+ " visage(s) détecté(s): "
                       +:+ String.concat ", " names) ;;
                ret results
            | None =>
                print "  ❌ Impossible de charger l'image" ;;
                ret results
            end)
           (fun e => print ("  ❌ Erreur: " +:+ str_of_exception e) ;; ret results) ;;
       analyse_images system images' results)%prog
  end.

Definition exemple_reconnaissance_batch : prog terminal unit :=
  (print ("=== Reconnaissance batch ===" +:+ nl) ;;
   system <- new_FaceRecognitionSystem ["known_faces"] ;;
   match known_face_encodings system with
   | [] => print "❌ Aucun visage connu. Enregistrez des visages d'abord."
   | _ :: _ =>
       answer <- input "Chemins des images (séparés par des virgules): " ;;
       let images := let '(part, others) := split_on "," (str_strip answer) in
                     part :: others in
       results <- analyse_images system images [] ;;
       print (nl +:+ times 60 "=") ;;
       print "📊 RÉSUMÉ" ;;
       print (times 60 "=") ;;
       for_each results (fun '(path, names) =>
         print (path +:+ ": " +:+ pretty (length names) +:+ " visage(s)"))
   end)%prog.

(** [Counter(names)]: the names in the order of their first occurrence,
    with their numbers of occurrences. *)
Fixpoint count_up (name : string) (counts : list (string * nat))
  : list (string * nat) :=
  match counts with
  | [] => [(name, 1)]
  | (name', n) :: counts' =>
      if String.eqb name name' then (name', S n) :: counts'
      else (name', n) :: count_up name counts'
  end.

Definition Counter (names : list string) : list (string * nat) :=
  foldl (fun counts name => count_up name counts) [] names.

(** [most_common()]: by decreasing count, in a stable way. *)
Fixpoint insert_by_count (item : string * nat) (sorted : list (string * nat))
  : list (string * nat) :=
  match sorted with
  | [] => [item]
  | item' :: sorted' =>
      if (item'.2 <? item.2)%nat then item :: item' :: sorted'
      else item' :: insert_by_count item sorted'
  end.

Definition most_common (counts : list (string * nat)) : list (string * nat) :=
  foldl (fun sorted item => insert_by_count item sorted) [] counts.

Definition exemple_statistiques : prog terminal unit :=
  (print ("=== Statistiques ===" +:+ nl) ;;
   system <- new_FaceRecognitionSystem ["known_faces"] ;;
   match known_face_encodings system with
   | [] => print "❌ Aucun visage connu."
   | _ :: _ =>
       let counts := Counter (known_face_names system) in
       print ("📊 Nombre total de visages: "
              +:+ pretty (length (known_face_encodings system))) ;;
       print ("👥 Nombre de personnes: " +:+ pretty (length counts)) ;;
       print (nl +:+ "📋 Détails:") ;;
       for_each (most_common counts) (fun '(name, count) =>
         print ("  • " +:+ name +:+ ": " +:+ pretty count +:+ " photo(s)"))
   end)%prog.

Definition menu_principal : prog terminal unit :=
  (print (times 60 "=") ;;
   print " 🎓 EXEMPLES D'UTILISATION" ;;
   print (times 60 "=") ;;
   print (nl +:+ "1. Analyser la qualité d'une image") ;;
   print "2. Reconnaissance sur plusieurs images (batch)" ;;
   print "3. Afficher les statistiques" ;;
   print "4. Quitter" ;;
   choice <- input (nl +:+ "Votre choix (1-4): ") ;;
   let choice := str_strip choice in
   if String.eqb choice "1" then exemple_analyse_qualite
   else if String.eqb choice "2" then exemple_reconnaissance_batch
   else if String.eqb choice "3" then exemple_statistiques
   else if String.eqb choice "4" then print "Au revoir! 👋"
   else print "❌ Choix invalide")%prog.

(** *** face_recognition_system.py: [main]

    [opened] and [feed] are what the camera does if it is asked. *)
Definition recognition_main (opened : bool) (feed : list Studio.tick)
  : prog terminal unit :=
  (print (times 60 "=") ;;
   print " 👤 SYSTÈME DE RECONNAISSANCE FACIALE" ;;
   print (times 60 "=") ;;
   system <- new_FaceRecognitionSystem ["known_faces"] ;;
   match known_face_encodings system with
   | [] =>
       print (nl +:+ "⚠️ Aucun visage connu n'a été chargé!") ;;
       print "📝 Instructions:" ;;
       print "   1. Créez un dossier pour chaque personne dans 'known_faces/'" ;;
       print "   2. Ajoutez des photos de chaque personne dans son dossier" ;;
       print "   3. Relancez le programme" ;;
       print (nl +:+ "Exemple de structure:") ;;
       print "   known_faces/" ;;
       print "   ├── Jean/" ;;
       print "   │   ├── photo1.jpg" ;;
       print "   │   └── photo2.jpg" ;;
       print "   └── Marie/" ;;
       print "       └── photo1.jpg"
   | _ :: _ =>
       print (nl +:+ "Que voulez-vous faire?") ;;
       print "1. Reconnaissance en temps réel (webcam)" ;;
       print "2. Analyser une image" ;;
       print "3. Réencoder les visages connus" ;;
       print "4. Quitter" ;;
       choice <- input (nl +:+ "Votre choix (1-4): ") ;;
       let choice := str_strip choice in
       if String.eqb choice "1" then
         in_the_studio (Studio.start_video_recognition system opened feed)
       else if String.eqb choice "2" then
         image_path <- input "Chemin de l'image: " ;;
         let image_path := str_strip image_path in
         in_the_studio (Studio.recognize_in_image system (components image_path))
       else if String.eqb choice "3" then
         method system Main.reencode ;;
         print "✓ Réencodage terminé"
       else if String.eqb choice "4" then print "Au revoir! 👋"
       else print "❌ Choix invalide"
   end)%prog.

(** *** register_face.py: [main] *)
Definition registration_main (opened : bool) (feed : list Studio.tick)
  : prog terminal unit :=
  (print (times 60 "=") ;;
   print " 📸 ENREGISTREMENT DE NOUVEAUX VISAGES" ;;
   print (times 60 "=") ;;
   registration <- in_the_world (Registration.init ["known_faces"]) ;;
   print (nl +:+ "Que voulez-vous faire?") ;;
   print "1. Enregistrer un nouveau visage (série de photos)" ;;
   print "2. Capturer une seule photo" ;;
   print "3. Ajouter une image depuis un fichier" ;;
   print "4. Quitter" ;;
   choice <- input (nl +:+ "Votre choix (1-4): ") ;;
   let choice := str_strip choice in
   if String.eqb choice "1" then
     person_name <- input "Nom de la personne: " ;;
     let person_name := str_strip person_name in
     if negb (String.eqb person_name "") then
       try_except_of ValueError
         (answer <- input "Nombre de photos à capturer (défaut: 10): " ;;
          let answer := str_strip answer in
          num_photos <- lift_result
                          (int_of_str (if String.eqb answer "" then "10" else answer)) ;;
          in_the_studio
            (Studio.capture_faces_from_webcam registration person_name num_photos
               opened feed) ;;
          ret tt)
         (print "❌ Nombre invalide")
     else print "❌ Le nom ne peut pas être vide"
   else if String.eqb choice "2" then
     person_name <- input "Nom de la personne: " ;;
     let person_name := str_strip person_name in
     if negb (String.eqb person_name "") then
       in_the_studio
         (Studio.capture_single_photo registration person_name None opened feed) ;;
       ret tt
     else print "❌ Le nom ne peut pas être vide"
   else if String.eqb choice "3" then
     person_name <- input "Nom de la personne: " ;;
     let person_name := str_strip person_name in
     image_path <- input "Chemin de l'image: " ;;
     let image_path := str_strip image_path in
     if negb (String.eqb person_name "") && negb (String.eqb image_path "") then
       in_the_world
         (Registration.add_from_file registration person_name (components image_path)) ;;
       ret tt
     else print "❌ Informations manquantes"
   else if String.eqb choice "4" then print "Au revoir! 👋"
   else print "❌ Choix invalide")%prog.

End Scripts.
End Scripts.

(** ** The small instance, for the scripts

    Grey images and blurred regions are the images themselves, the
    brightness of an image is its first number, and a mosaic is stored as a
    picture of its two sizes.  The lines are typed without blanks around
    them, and only decimal digits make an int. *)

Module ToyScripts.

Definition blur (region : list Z) (k sigma : Z) : result exc_type (list Z) :=
  if ((0 <? k) && Z.odd k)%Z then Ok region else Raise LibraryError.

Definition stored_mosaic (file : string) (m : @Utils.mosaic Toy.libraries)
  : result exc_type Toy.toy_content :=
  if endswith file ".jpg"
  then Ok (Toy.Picture [@Utils.height Toy.libraries m; @Utils.width Toy.libraries m])
  else Raise LibraryError.

Definition grey (img : list Z) : result exc_type (list Z) := Ok img.

Definition faces (img : list Z) : result exc_type (list (Z * Z * Z * Z)) :=
  Ok (ToyStudio.squares img).

Definition drawn (img : list Z) (s : Drawing.shape) : result exc_type (list Z) := Ok img.

Definition region (img : list Z) (where_ : Z * Z * Z * Z) : list Z := img.

Definition set_region (img : list Z) (where_ : Z * Z * Z * Z) (blurred : list Z)
  : result exc_type (list Z) := Ok blurred.

Definition first_number (img : list Z) : PrimFloat.float := Binary64.of_Z (hd 0%Z img).

Definition size (img : list Z) : PrimFloat.float :=
  Binary64.of_Z (Z.of_nat (length img)).

Definition sharp (img : list Z) : PrimFloat.float := Binary64.of_Z 150.

#[export] Instance vision : Vision Toy.libraries :=
  Build_Vision Toy.libraries grey faces drawn region blur set_region first_number size
    sharp grey stored_mosaic.

Fixpoint digits (s : string) (value : Z) : option Z :=
  match s with
  | EmptyString => Some value
  | String a s' =>
      let n := Ascii.nat_of_ascii a in
      if ((48 <=? n) && (n <=? 57))%nat
      then digits s' (value * 10 + Z.of_nat (n - 48))%Z
      else None
  end.

Definition int (s : string) : result exc_type Z :=
  match s, digits s 0 with
  | String _ _, Some value => Ok value
  | _, _ => Raise ValueError
  end.

Definition str (e : exn) : string :=
  match e with
  | FromLibrary _ => "error"
  | FromRepository _ msg => msg
  end.

#[export] Instance interpreter : Interpreter Toy.libraries :=
  Build_Interpreter Toy.libraries (fun s => s) int str 600%Z.

Definition terminal (keyboard : list string) : Scripts.terminal :=
  {| Scripts.files := Toy.cwd; Scripts.lines := []; Scripts.keyboard := keyboard |}.

End ToyScripts.

(** * Part II: properties *)

(** ** Programs *)

Section ProgramFacts.
Context {S : Type}.

Lemma bind_ok {A B} (m : prog S A) (k : A -> prog S B) s a s' :
  m s = (Ok a, s') -> bind m k s = k a s'.
Proof. intros H. unfold bind. by rewrite H. Qed.

Lemma for_each_cons {A} (x : A) l (body : A -> prog S unit) s :
  for_each (x :: l) body s = bind (body x) (fun _ => for_each l body) s.
Proof. reflexivity. Qed.

End ProgramFacts.

(** ** Names and their components *)

Section JoinFacts.

Lemma split_slash_plain s : occurs "/" s = false -> split_slash s = (s, []).
Proof.
  induction s as [|a s IH]; simpl; [done|].
  destruct (Ascii.eqb a "/"); simpl; [done|]. intros H. by rewrite IH.
Qed.

(** One component is parsed into itself. *)
Lemma components_component s : is_component s = true -> components s = [s].
Proof.
  unfold is_component, components, parts. intros H.
  apply andb_prop in H as [H Hs]. apply andb_prop in H as [H _].
  apply negb_true_iff in H. rewrite split_slash_plain by done.
  apply bool_decide_eq_true in Hs.
  rewrite filter_cons_True, filter_nil; [done|].
  split; intros ->; apply Hs; repeat constructor.
Qed.

Lemma below_component s : is_component s = true -> below s = true.
Proof.
  unfold is_component, below, parts. intros H.
  apply andb_prop in H as [H Hs]. apply andb_prop in H as [H Hz].
  apply negb_true_iff in H. rewrite split_slash_plain by done.
  apply bool_decide_eq_true in Hs.
  rewrite Hz, andb_true_r. apply andb_true_intro. split.
  - destruct s as [|a s]; [done|].
    change (String.prefix "/" (String a s))
      with (if ascii_dec "/" a then String.prefix "" s else false).
    destruct (ascii_dec "/" a) as [<-|]; [|done].
    by simpl in H.
  - apply bool_decide_eq_true. intros Hin. apply Hs.
    apply list_elem_of_singleton in Hin. subst. repeat constructor.
Qed.

Lemma joinpath_component base c :
  is_component c = true -> joinpath base c = base ++ [c].
Proof. intros H. unfold joinpath. by rewrite components_component. Qed.

Lemma occurs_app c s1 s2 : occurs c (s1 +:+ s2) = occurs c s1 || occurs c s2.
Proof.
  induction s1 as [|a s1 IH]; [done|].
  change (String a s1 +:+ s2) with (String a (s1 +:+ s2)). simpl.
  by rewrite IH, orb_assoc.
Qed.

Lemma occurs_pretty_N_go c x s :
  (forall d, pretty_N_char d <> c) -> occurs c s = false ->
  occurs c (pretty_N_go x s) = false.
Proof.
  intros Hc. revert s. induction (N.lt_wf_0 x) as [x _ IH]; intros s Hs.
  assert (x = 0 \/ 0 < x)%N as [->|?] by lia.
  - by rewrite pretty_N_go_0.
  - rewrite pretty_N_go_step by done. apply IH.
    { by apply N.div_lt. }
    cbn [occurs]. rewrite Hs, orb_false_r. apply Ascii.eqb_neq. apply Hc.
Qed.

Lemma occurs_pretty_N c (x : N) :
  (forall d, pretty_N_char d <> c) -> occurs c (pretty x) = false.
Proof.
  intros Hc. unfold pretty, pretty_N. destruct (decide (x = 0%N)).
  - cbn [occurs]. rewrite orb_false_r. apply Ascii.eqb_neq. apply (Hc 0%N).
  - by apply occurs_pretty_N_go.
Qed.

(** The decimal digits of an int hold nothing but digits and the sign. *)
Lemma occurs_pretty_Z c (z : Z) :
  (forall d, pretty_N_char d <> c) -> c <> "-"%char -> occurs c (pretty z) = false.
Proof.
  intros Hc Hdash. unfold pretty, pretty_Z. destruct z as [|p|p].
  - cbn [occurs]. rewrite orb_false_r. apply Ascii.eqb_neq. apply (Hc 0%N).
  - exact (occurs_pretty_N c (N.pos p) Hc).
  - rewrite occurs_app. cbn [occurs]. rewrite orb_false_r.
    assert (occurs c (pretty p) = false) as ->
      by exact (occurs_pretty_N c (N.pos p) Hc).
    rewrite orb_false_r. apply Ascii.eqb_neq. congruence.
Qed.

Lemma digit_not_slash d : pretty_N_char d <> "/"%char.
Proof. unfold pretty_N_char. by repeat case_match. Qed.

Lemma digit_not_nul d : pretty_N_char d <> Ascii.zero.
Proof. unfold pretty_N_char. by repeat case_match. Qed.

Lemma parts_cons a s :
  parts (String a s)
  = if Ascii.eqb a "/" then "" :: parts s
    else match parts s with
         | part :: others => String a part :: others
         | [] => []
         end.
Proof.
  unfold parts. simpl. destruct (split_slash s) as [part others].
  by destruct (Ascii.eqb a "/").
Qed.

Lemma parts_nonempty s : parts s <> [].
Proof. unfold parts. by destruct (split_slash s). Qed.

(** Appending a text without slash extends the last part. *)
Lemma parts_app a b :
  occurs "/" b = false ->
  parts (a +:+ b) = removelast (parts a) ++ [final_part a +:+ b].
Proof.
  intros Hb. unfold final_part. induction a as [|x a IH].
  - change ("" +:+ b) with b. unfold parts at 1. by rewrite split_slash_plain.
  - change (String x a +:+ b) with (String x (a +:+ b)).
    rewrite !parts_cons, IH.
    pose proof (parts_nonempty a) as Hne.
    destruct (parts a) as [|part [|other others]]; [done| |];
      destruct (Ascii.eqb x "/"); try done.
Qed.

Lemma final_part_app a b :
  occurs "/" b = false -> final_part (a +:+ b) = final_part a +:+ b.
Proof.
  intros Hb. unfold final_part at 1. rewrite parts_app by done. apply last_last.
Qed.

(** The name of a joined path is what stands after the last slash of the
    name that was joined, when something other than a dot stands there. *)
Lemma name_joinpath (base : path) (s : string) :
  final_part s <> "" -> final_part s <> "." ->
  name (joinpath base s) = final_part s.
Proof.
  intros Hempty Hdot. unfold name, joinpath, components.
  rewrite (app_removelast_last "" (parts_nonempty s)).
  fold (final_part s). rewrite filter_app, filter_cons_True, filter_nil by done.
  by rewrite app_assoc, last_last.
Qed.

End JoinFacts.

(** ** The file system *)

Section FileSystemFacts.
Context {L : Libraries}.

Lemma alist_find_set_eq k n es : alist_find k (alist_set k n es) = Some n.
Proof.
  induction es as [|[k' n'] es IH]; simpl.
  - by rewrite String.eqb_refl.
  - destruct (String.eqb k k') eqn:E; simpl; rewrite ?String.eqb_refl, ?E; done.
Qed.

Lemma alist_find_set_ne k k' n es :
  k <> k' -> alist_find k' (alist_set k n es) = alist_find k' es.
Proof.
  intros Hne. induction es as [|[k0 n0] es IH]; simpl.
  - apply String.eqb_neq in Hne. rewrite String.eqb_sym in Hne. by rewrite Hne.
  - destruct (String.eqb k k0) eqn:E; simpl.
    + apply String.eqb_eq in E. subst k0.
      assert (String.eqb k' k = false) as -> by (apply String.eqb_neq; congruence).
      done.
    + destruct (String.eqb k' k0); [done | apply IH].
Qed.

Lemma resolve_app root p q :
  resolve root (p ++ q)
  = match resolve root p with
    | Found n => resolve n q
    | NoEntry => NoEntry
    | NotDirectory => NotDirectory
    end.
Proof.
  revert root. induction p as [|c p IH]; intros root; simpl; [done|].
  destruct root as [|es]; [done|].
  destruct (alist_find c es); [apply IH | done].
Qed.

(** The parent of anything found is a directory. *)
Lemma resolve_parent root p c n :
  resolve root (p ++ [c]) = Found n -> exists es, resolve root p = Found (Dir es).
Proof.
  rewrite resolve_app. destruct (resolve root p) as [[|es]| |]; simpl; try done.
  by exists es.
Qed.

Lemma resolve_store root p new root' :
  store root p new = Ok root' -> resolve root' p = Found new.
Proof.
  revert root root'. induction p as [|c p IH]; intros root root'; simpl.
  - by intros [= ->].
  - destruct root as [|es]; [done|].
    destruct (alist_find c es) as [child|] eqn:Hfind.
    + destruct (store child p new) as [child'|] eqn:Hchild; [|done].
      intros [= <-]. simpl. rewrite alist_find_set_eq. by apply IH with child.
    + destruct p; [|done]. intros [= <-]. simpl. by rewrite alist_find_set_eq.
Qed.

(** Into an existing directory one can always store. *)
Lemma store_into_directory root p es c new :
  resolve root p = Found (Dir es) -> exists root', store root (p ++ [c]) new = Ok root'.
Proof.
  revert root. induction p as [|c0 p IH]; intros root; simpl.
  - intros [= ->]. destruct (alist_find c es); eauto.
  - destruct root as [|es0]; [done|].
    destruct (alist_find c0 es0) as [child|]; [|done].
    intros Hchild. destruct (IH _ Hchild) as [child' ->]. eauto.
Qed.

(** Creating an entry where there was none leaves every file in place. *)
Lemma store_keeps_files root p new root' q c :
  resolve root p = NoEntry -> store root p new = Ok root' ->
  resolve root q = Found (File c) -> resolve root' q = Found (File c).
Proof.
  revert root root' q. induction p as [|k p IH]; intros root root' q; simpl; [done|].
  destruct root as [|es]; [done|].
  destruct (alist_find k es) as [child|] eqn:Hfind.
  - intros Hp. destruct (store child p new) as [child'|] eqn:Hchild; [|done].
    intros [= <-]. destruct q as [|k2 q]; simpl; [done|].
    destruct (decide (k = k2)) as [<-|Hne].
    + rewrite Hfind, alist_find_set_eq. by apply IH.
    + by rewrite alist_find_set_ne.
  - intros _. destruct p; [|done]. intros [= <-].
    destruct q as [|k2 q]; simpl; [done|].
    destruct (decide (k = k2)) as [<-|Hne].
    + by rewrite Hfind.
    + by rewrite alist_find_set_ne.
Qed.

(** [mkdir(exist_ok=True)] below an existing directory, on a name that is
    not taken by a file. *)
Lemma mkdir_exist_ok_child root p c :
  is_dir root p = true -> is_file root (p ++ [c]) = false ->
  exists root',
    mkdir_exist_ok root (p ++ [c]) = Ok root'
    /\ (forall q x, resolve root q = Found (File x) -> resolve root' q = Found (File x))
    /\ ((root' = root /\ exists es, resolve root (p ++ [c]) = Found (Dir es))
        \/ resolve root' (p ++ [c]) = Found (Dir [])).
Proof.
  unfold is_dir, is_file, mkdir_exist_ok. intros Hp Hc.
  destruct (resolve root p) as [[|es]| |] eqn:Hparent; try done.
  destruct (resolve root (p ++ [c])) as [[|es']| |] eqn:Hchild; try done.
  - exists root. split; [done|]. split; [done|]. left. eauto.
  - destruct (store_into_directory root p es c (Dir []) Hparent) as [root' Hstore].
    exists root'. split; [done|]. split.
    + intros q x. by apply store_keeps_files with (p ++ [c]) (Dir []).
    + right. by apply resolve_store with root.
  - rewrite resolve_app, Hparent in Hchild. simpl in Hchild.
    destruct (alist_find c es); done.
Qed.

(** [mkdir(exist_ok=True)] where the directory is there, or nothing is and
    the parent is a directory. *)
Lemma mkdir_exist_ok_possible root p :
  is_dir root p = true
  \/ (path_exists root p = false /\ is_dir root (parent p) = true) ->
  exists root',
    mkdir_exist_ok root p = Ok root'
    /\ (forall q x, resolve root q = Found (File x) -> resolve root' q = Found (File x))
    /\ ((root' = root /\ exists es, resolve root p = Found (Dir es))
        \/ resolve root' p = Found (Dir [])).
Proof.
  intros [Hdir|[Habsent Hparent]].
  - exists root. unfold is_dir in Hdir. unfold mkdir_exist_ok.
    destruct (resolve root p) as [[|es]| |]; try done.
    split; [done|]. split; [done|]. left. eauto.
  - destruct p as [|c p _] using rev_ind; [done|].
    unfold parent in Hparent. rewrite removelast_last in Hparent.
    apply mkdir_exist_ok_child; [done|].
    unfold path_exists in Habsent. unfold is_file.
    by destruct (resolve root (p ++ [c])) as [[|]| |].
Qed.

Lemma write_file_child root p es c x :
  resolve root p = Found (Dir es) -> is_dir root (p ++ [c]) = false ->
  exists root', write_file root (p ++ [c]) x = Ok root'
                /\ resolve root' (p ++ [c]) = Found (File x).
Proof.
  unfold is_dir, write_file. intros Hparent Hc.
  destruct (store_into_directory root p es c (File x) Hparent) as [root' Hstore].
  destruct (resolve root (p ++ [c])) as [[|es']| |] eqn:Hchild; try done.
  - exists root'. split; [done|]. by apply resolve_store with root.
  - exists root'. split; [done|]. by apply resolve_store with root.
  - rewrite resolve_app, Hparent in Hchild. simpl in Hchild.
    destruct (alist_find c es); done.
Qed.

(** A file can be written where the parent is a directory and no directory
    stands. *)
Lemma write_file_possible root p x :
  is_dir root (parent p) = true -> is_dir root p = false ->
  exists root', write_file root p x = Ok root'
                /\ resolve root' p = Found (File x).
Proof.
  intros Hparent Hp. destruct p as [|c p _] using rev_ind.
  - unfold parent in Hparent. simpl in Hparent. congruence.
  - unfold parent in Hparent. rewrite removelast_last in Hparent.
    unfold is_dir in Hparent.
    destruct (resolve root p) as [[|es]| |] eqn:Hes; try done.
    by apply write_file_child with es.
Qed.

(** Creating an empty directory adds no file. *)
Lemma mkdir_adds_no_file root p root' q c :
  resolve root p = NoEntry -> store root p (Dir []) = Ok root' ->
  resolve root' q = Found (File c) -> resolve root q = Found (File c).
Proof.
  revert root root' q. induction p as [|k p IH]; intros root root' q; simpl; [done|].
  destruct root as [|es]; [done|].
  destruct (alist_find k es) as [child|] eqn:Hfind.
  - intros Hp. destruct (store child p (Dir [])) as [child'|] eqn:Hchild; [|done].
    intros [= <-]. destruct q as [|k2 q]; simpl; [done|].
    destruct (decide (k = k2)) as [<-|Hne].
    + rewrite Hfind, alist_find_set_eq. by apply IH.
    + by rewrite alist_find_set_ne.
  - intros _. destruct p; [|done]. intros [= <-].
    destruct q as [|k2 q]; simpl; [done|].
    destruct (decide (k = k2)) as [<-|Hne].
    + rewrite alist_find_set_eq. by destruct q.
    + by rewrite alist_find_set_ne.
Qed.

Lemma mkdir_exist_ok_no_file root p root' q :
  mkdir_exist_ok root p = Ok root' -> is_file root q = false -> is_file root' q = false.
Proof.
  unfold mkdir_exist_ok, is_file. intros Hmk Hq.
  destruct (resolve root p) as [[|es]| |] eqn:Hp; try done.
  - by injection Hmk as <-.
  - destruct (resolve root' q) as [[c|]| |] eqn:Hq'; try done.
    by rewrite (mkdir_adds_no_file _ _ _ _ _ Hp Hmk Hq') in Hq.
Qed.

Lemma resolve_directory_root root p es :
  resolve root p = Found (Dir es) -> exists es0, root = Dir es0.
Proof. destruct p, root; simpl; try done; eauto. Qed.

Lemma read_after_write root p x root' :
  write_file root p x = Ok root' -> read_file root' p = Ok x.
Proof.
  unfold write_file, read_file. intros H.
  assert (store root p (File x) = Ok root') as Hstore.
  { destruct (resolve root p) as [[|]| |]; done. }
  by rewrite (resolve_store _ _ _ _ Hstore).
Qed.

End FileSystemFacts.

(** ** utils.py *)

Section UtilsFacts.
Context {L : Libraries}.

(** The dict literal has exactly the two keys. *)
Lemma blob_keys (es : list encoding) (ns : list string) :
  dom (Utils.blob es ns) = ({["encodings"; "names"]} : gset string)
  /\ Utils.blob es ns !! "encodings" = Some (PyEncodings es)
  /\ Utils.blob es ns !! "names" = Some (PyNames ns).
Proof.
  unfold Utils.blob. split; [|split].
  - rewrite !dom_insert_L, dom_empty_L. set_solver.
  - apply lookup_insert_eq.
  - rewrite lookup_insert_ne by done. apply lookup_insert_eq.
Qed.

(** What [save_encodings] does to the world. *)
Lemma save_encodings_run es ns filename w :
  Utils.save_encodings es ns filename w
  = match write_file (fs w) filename (pickle_dump (Utils.blob es ns)) with
    | Ok root' => (Ok tt, {| fs := root'; console := console w |})
    | Raise t => (Raise (FromLibrary t), w)
    end.
Proof. reflexivity. Qed.

(** C6: loading a file after [save_encodings] wrote it returns the dict
    [{'encodings': encodings, 'names': names}]: a dict whose keys are
    'encodings' and 'names' and no other, with the list of encodings that was
    passed under the first and the list of names that was passed under the
    second.  This holds for every pair of lists and every file name under
    which the save completes; and the save completes whenever the file name
    lies in an existing directory and does not name a directory.  The load
    leaves the world as it is.  The round trip of pickle itself is the
    library's. *)
Theorem load_encodings_after_save (es : list encoding) (ns : list string)
    (filename : path) (w : world) :
  PickleRoundTrip L ->
  (forall w', Utils.save_encodings es ns filename w = (Ok tt, w') ->
              exists data,
                Utils.load_encodings filename w' = (Ok data, w')
                /\ dom data = ({["encodings"; "names"]} : gset string)
                /\ data !! "encodings" = Some (PyEncodings es)
                /\ data !! "names" = Some (PyNames ns))
  /\ (forall parent c entries,
        filename = parent ++ [c] ->
        resolve (fs w) parent = Found (Dir entries) ->
        is_dir (fs w) filename = false ->
        exists w', Utils.save_encodings es ns filename w = (Ok tt, w')).
Proof.
  intros Hpickle. split.
  - intros w'. rewrite save_encodings_run.
    destruct (write_file _ _ _) as [root'|t] eqn:Hwrite; [|done].
    intros [= <-]. exists (Utils.blob es ns). split; [|apply blob_keys].
    unfold Utils.load_encodings, bind, world_read, lift_result.
    simpl. rewrite (read_after_write _ _ _ _ Hwrite). simpl.
    by rewrite Hpickle.
  - intros parent c entries -> Hparent Hfile. rewrite save_encodings_run.
    destruct (write_file_child _ _ _ c (pickle_dump (Utils.blob es ns)) Hparent Hfile)
      as (root' & -> & _).
    eauto.
Qed.

(** *** The mosaic grid *)

Lemma mosaic_cols_pos n : (1 <= n -> 1 <= Utils.mosaic_cols n)%Z.
Proof. intros Hn. unfold Utils.mosaic_cols. pose proof (Z.sqrt_up_pos n). lia. Qed.

Lemma mosaic_rows_eq n :
  (1 <= n -> Utils.mosaic_rows n = (n - 1) / Utils.mosaic_cols n + 1)%Z.
Proof.
  intros Hn. pose proof (mosaic_cols_pos n Hn). unfold Utils.mosaic_rows. simpl.
  replace (n + Utils.mosaic_cols n - 1)%Z
    with (n - 1 + 1 * Utils.mosaic_cols n)%Z by lia.
  rewrite Z.div_add by lia. done.
Qed.

Lemma mosaic_grid_covers n :
  (1 <= n -> n <= Utils.mosaic_rows n * Utils.mosaic_cols n)%Z.
Proof.
  intros Hn. pose proof (mosaic_cols_pos n Hn) as Hc. rewrite mosaic_rows_eq by done.
  pose proof (Z.div_mod (n - 1) (Utils.mosaic_cols n)).
  pose proof (Z.mod_pos_bound (n - 1) (Utils.mosaic_cols n)). nia.
Qed.

Lemma mosaic_block_in_grid n idx :
  (1 <= n -> 0 <= idx < n ->
   0 <= idx / Utils.mosaic_cols n < Utils.mosaic_rows n
   /\ 0 <= idx mod Utils.mosaic_cols n < Utils.mosaic_cols n)%Z.
Proof.
  intros Hn Hidx. pose proof (mosaic_cols_pos n Hn) as Hc.
  rewrite mosaic_rows_eq by done. split.
  - split; [apply Z.div_pos; lia|].
    pose proof (Z.div_le_mono idx (n - 1) (Utils.mosaic_cols n)). lia.
  - apply Z.mod_pos_bound. lia.
Qed.

Lemma block_injective cols (i j : nat) :
  (0 < cols)%Z ->
  (Z.of_nat i / cols, Z.of_nat i mod cols)%Z = (Z.of_nat j / cols, Z.of_nat j mod cols)%Z ->
  i = j.
Proof.
  intros Hc [= Hd Hm].
  pose proof (Z.div_mod (Z.of_nat i) cols). pose proof (Z.div_mod (Z.of_nat j) cols).
  nia.
Qed.

Lemma assign_block_in_grid m rows cols row col img :
  Utils.height m = (rows * 200)%Z -> Utils.width m = (cols * 200)%Z ->
  (0 <= row < rows)%Z -> (0 <= col < cols)%Z ->
  Utils.assign_block m row col img
  = Ok {| Utils.height := Utils.height m; Utils.width := Utils.width m;
          Utils.blocks := <[(row, col) := img]> (Utils.blocks m) |}.
Proof.
  intros Hh Hw Hrow Hcol. unfold Utils.assign_block, Utils.slice_length.
  rewrite Hh, Hw.
  assert ((Z.max 0 (Z.min ((row + 1) * 200) (rows * 200)
                    - Z.min (row * 200) (rows * 200)) =? 200)%Z = true) as ->
    by (apply Z.eqb_eq; lia).
  assert ((Z.max 0 (Z.min ((col + 1) * 200) (cols * 200)
                    - Z.min (col * 200) (cols * 200)) =? 200)%Z = true) as ->
    by (apply Z.eqb_eq; lia).
  done.
Qed.

(** The loop over [enumerate(images)], started on any mosaic of the right
    shape: every write succeeds and lands in its own block. *)
Lemma place_all rows cols (items : list (nat * image)) m :
  (0 < cols)%Z ->
  Utils.height m = (rows * 200)%Z -> Utils.width m = (cols * 200)%Z ->
  NoDup items.*1 ->
  (forall i img, (i, img) ∈ items -> (0 <= Z.of_nat i / cols < rows)%Z) ->
  exists m',
    for_each items (Utils.place cols) m = (Ok tt, m')
    /\ Utils.height m' = Utils.height m /\ Utils.width m' = Utils.width m
    /\ (forall i img, (i, img) ∈ items ->
          Utils.blocks m' !! (Z.of_nat i / cols, Z.of_nat i mod cols)%Z = Some img)
    /\ (forall i, i ∉ items.*1 ->
          Utils.blocks m' !! (Z.of_nat i / cols, Z.of_nat i mod cols)%Z
          = Utils.blocks m !! (Z.of_nat i / cols, Z.of_nat i mod cols)%Z).
Proof.
  intros Hc. revert m. induction items as [|[i img] items IH]; intros m Hh Hw Hnd Hin.
  - exists m. simpl. repeat split; try done. intros i img Hi. by apply elem_of_nil in Hi.
  - apply NoDup_cons in Hnd as [Hi Hnd].
    set (m1 := {| Utils.height := Utils.height m; Utils.width := Utils.width m;
                  Utils.blocks := <[(Z.of_nat i / cols, Z.of_nat i mod cols)%Z := img]>
                                    (Utils.blocks m) |}).
    assert (Utils.place cols (i, img) m = (Ok tt, m1)) as Hplace.
    { unfold Utils.place.
      assert (0 <= Z.of_nat i / cols < rows)%Z by (apply (Hin i img); left).
      assert (0 <= Z.of_nat i mod cols < cols)%Z by (apply Z.mod_pos_bound; lia).
      by rewrite (assign_block_in_grid m rows cols). }
    destruct (IH m1) as (m' & Hrun & Hh' & Hw' & Hput & Hkeep); try done.
    { intros j img' Hj. apply (Hin j img'). by right. }
    exists m'. rewrite for_each_cons, (bind_ok _ _ _ _ _ Hplace).
    split; [done|]. split; [done|]. split; [done|]. split.
    + intros j img' Hj. apply elem_of_cons in Hj as [[= -> ->]|Hj]; [|by apply Hput].
      rewrite Hkeep by done. apply lookup_insert_eq.
    + intros j Hj. simpl in Hj. apply not_elem_of_cons in Hj as [Hne Hj].
      rewrite Hkeep by done. simpl. apply lookup_insert_ne.
      intros Heq. apply Hne. symmetry. by apply block_injective with cols.
Qed.

Lemma enumerate_fst {A} (l : list A) : (Utils.enumerate l).*1 = seq 0 (length l).
Proof. unfold Utils.enumerate. apply fst_zip. by rewrite length_seq. Qed.

Lemma elem_of_enumerate {A} (l : list A) i x :
  (i, x) ∈ Utils.enumerate l <-> l !! i = Some x.
Proof.
  unfold Utils.enumerate. rewrite list_elem_of_lookup. split.
  - intros [k Hk]. apply lookup_zip_with_Some in Hk as (j & y & [= -> ->] & Hj & Hy).
    apply lookup_seq in Hj as [-> _]. done.
  - intros Hx. exists i. apply lookup_zip_with_Some. exists i, x.
    split; [done|]. split; [|done]. apply lookup_seq. split; [done|].
    by apply lookup_lt_Some with x.
Qed.

(** C9: for a non-empty list of [n] images, with [cols] the ceiling of the
    square root of [n] and [rows] the ceiling of [n / cols], the grid has at
    least [n] cells, every index below [n] maps to a block inside the grid,
    the block's pixel range lies inside the allocated array, and so the
    loop of block writes runs to its end with every image in its block. *)
Theorem mosaic_blocks_within_grid (images : list image) :
  images <> [] ->
  let n := Z.of_nat (length images) in
  let cols := Utils.mosaic_cols n in
  let rows := Utils.mosaic_rows n in
  (n <= rows * cols)%Z
  /\ (forall idx, (0 <= idx < n)%Z ->
        (0 <= idx / cols < rows)%Z /\ (0 <= idx mod cols < cols)%Z
        /\ ((idx / cols + 1) * 200 <= rows * 200)%Z
        /\ ((idx mod cols + 1) * 200 <= cols * 200)%Z)
  /\ exists m,
       Utils.build_mosaic images = Some (Ok tt, m)
       /\ Utils.height m = (rows * 200)%Z /\ Utils.width m = (cols * 200)%Z
       /\ forall idx img, images !! idx = Some img ->
            Utils.blocks m !! (Z.of_nat idx / cols, Z.of_nat idx mod cols)%Z = Some img.
Proof.
  intros Hne n cols rows.
  assert (1 <= n)%Z as Hn by (destruct images; [done | subst n; simpl; lia]).
  split; [by apply mosaic_grid_covers|]. split.
  - intros idx Hidx. destruct (mosaic_block_in_grid n idx Hn Hidx) as [Hrow Hcol].
    fold cols rows in Hrow, Hcol. lia.
  - destruct (place_all rows cols (Utils.enumerate images) (Utils.zeros rows cols))
      as (m & Hrun & Hh & Hw & Hput & _); try done.
    + pose proof (mosaic_cols_pos n Hn). subst cols. lia.
    + rewrite enumerate_fst. apply NoDup_seq.
    + intros i img Hi. apply elem_of_enumerate in Hi. apply lookup_lt_Some in Hi.
      apply (mosaic_block_in_grid n (Z.of_nat i) Hn). subst n. lia.
    + exists m. split; [|split; [done|split; [done|]]].
      * unfold Utils.build_mosaic. destruct images; [done|]. by rewrite <- Hrun.
      * intros idx img Hidx. apply Hput. by apply elem_of_enumerate.
Qed.

End UtilsFacts.

(** ** register_face.py *)

Section RegistrationFacts.
Context {L : Libraries}.

Lemma shutil_copy_file root src dst c :
  is_dir root dst = false -> src <> dst -> resolve root src = Found (File c) ->
  shutil_copy root src dst = write_file root dst c.
Proof.
  intros Hdst Hne Hsrc. unfold shutil_copy, read_file, path_eqb.
  rewrite Hdst, Hsrc. rewrite bool_decide_eq_false_2 by done.
  by rewrite andb_false_r.
Qed.


End RegistrationFacts.

(** ** face_recognition_system.py: building the registry *)

Section EncodingFacts.
Context {L : Libraries}.
Import Recognition.

Lemma grown_nil s : grown [] [] s = s.
Proof. destruct s as [[] []]. unfold grown. simpl. by rewrite !app_nil_r. Qed.

Lemma grown_grown p1 e1 p2 e2 s :
  grown p2 e2 (grown p1 e1 s) = grown (p1 ++ p2) (e1 ++ e2) s.
Proof. unfold grown. simpl. by rewrite !fmap_app, !app_assoc. Qed.

(** One pass of the inner loop body: it always returns, whatever the
    libraries do. *)
Lemma encode_image_run person_name entry s :
  encode_image person_name entry s
  = (Ok tt, grown (image_contribution person_name entry) (image_events entry) s).
Proof.
  destruct entry as [file target].
  unfold encode_image, image_contribution, image_events, has_image_suffix. simpl.
  destruct (bool_decide _); [|by rewrite grown_nil].
  destruct s as [[dir tol es ns file'] [root out]].
  unfold try_except, bind, lift_result, faces_in.
  destruct target as [c|entries]; simpl.
  - destruct (fr_load_image_file c) as [img|t]; simpl.
    + destruct (fr_face_encodings img) as [[|first rest]|t]; simpl; unfold grown; simpl;
        by rewrite ?app_nil_r.
    + unfold grown. simpl. by rewrite !app_nil_r.
  - unfold grown. simpl. by rewrite !app_nil_r.
Qed.

Lemma encode_images_run person_name images s :
  for_each images (encode_image person_name) s
  = (Ok tt, grown (flat_map (image_contribution person_name) images)
                  (flat_map image_events images) s).
Proof.
  revert s. induction images as [|entry images IH]; intros s; simpl.
  - by rewrite grown_nil.
  - rewrite (bind_ok _ _ _ _ _ (encode_image_run person_name entry s)).
    by rewrite IH, grown_grown.
Qed.

Lemma encode_person_run entry s :
  encode_person entry s
  = (Ok tt, grown (person_contribution entry) (person_events entry) s).
Proof.
  destruct entry as [person_name [c|images]];
    unfold encode_person, person_contribution, person_events; simpl.
  - by rewrite grown_nil.
  - unfold bind, say, modify. rewrite encode_images_run.
    f_equal. destruct s as [[] []]. unfold grown. simpl.
    by rewrite <- app_assoc.
Qed.

Lemma encode_persons_run persons s :
  for_each persons encode_person s
  = (Ok tt, grown (registry_of persons) (flat_map person_events persons) s).
Proof.
  revert s. unfold registry_of. induction persons as [|entry persons IH]; intros s; simpl.
  - by rewrite grown_nil.
  - rewrite (bind_ok _ _ _ _ _ (encode_person_run entry s)).
    by rewrite IH, grown_grown.
Qed.

End EncodingFacts.

Section RegistryFacts.
Context {L : Libraries}.
Import Recognition.

(** Every way [encode_known_faces] can run. *)
Lemma encode_known_faces_run s :
  let sys := self s in
  let root := fs (env s) in
  encode_known_faces s
  = match resolve root (known_faces_dir sys) with
    | Found (Dir persons) =>
        let s1 := grown (registry_of persons) (flat_map person_events persons) s in
        let encodings := known_face_encodings (self s1) in
        let names := known_face_names (self s1) in
        match encodings with
        | [] => (Ok tt, grown [] [NothingEncoded] s1)
        | _ :: _ =>
            match write_file root (encodings_file sys)
                    (pickle_dump (Utils.blob encodings names)) with
            | Ok root' =>
                (Ok tt,
                 {| self := self s1;
                    env := {| fs := root';
                              console := console (env s1)
                                         ++ [EncodingsSaved (length encodings)] |} |})
            | Raise t => (Raise (FromLibrary t), s1)
            end
        end
    | Found (File _) => (Raise (FromLibrary NotADirectoryError), s)
    | NoEntry | NotDirectory =>
        match mkdir_exist_ok root (known_faces_dir sys) with
        | Ok root' =>
            (Ok tt,
             {| self := sys;
                env := {| fs := root';
                          console := console (env s)
                                     ++ [DirectoryMissing (known_faces_dir sys);
                                         DirectoryCreated] |} |})
        | Raise t =>
            (Raise (FromLibrary t), grown [] [DirectoryMissing (known_faces_dir sys)] s)
        end
    end.
Proof.
  destruct s as [[dir tol es ns file] [root out]]. simpl.
  unfold encode_known_faces, bind, gets, path_exists. simpl.
  destruct (resolve root dir) as [[c|persons]| |] eqn:Hdir; simpl.
  - unfold in_world, world_read, iterdir. simpl. by rewrite Hdir.
  - unfold in_world, world_read, iterdir. simpl. rewrite Hdir. simpl.
    rewrite encode_persons_run. simpl.
    destruct (es ++ (registry_of persons).*1) as [|e es'] eqn:Hes.
    + unfold grown, say, modify. simpl. by rewrite !app_nil_r.
    + unfold world_update. simpl.
      destruct (write_file root file _) as [root'|t];
        unfold say, modify, grown; simpl; by rewrite ?Hes.
  - unfold in_world, world_update, say, modify. simpl.
    destruct (mkdir_exist_ok root dir) as [root'|t]; simpl.
    + unfold world_print. simpl. by rewrite <- app_assoc.
    + unfold grown. simpl. by rewrite !app_nil_r.
  - unfold in_world, world_update, say, modify. simpl.
    destruct (mkdir_exist_ok root dir) as [root'|t]; simpl.
    + unfold world_print. simpl. by rewrite <- app_assoc.
    + unfold grown. simpl. by rewrite !app_nil_r.
Qed.

Lemma self_grown_nil evs s : self (grown [] evs s) = self s.
Proof. destruct s as [[] []]. unfold grown. simpl. by rewrite !app_nil_r. Qed.

(** Whatever happens to the write at the end, the scan has grown the
    registry by the contributions of the directory. *)
Lemma encode_known_faces_self s persons :
  resolve (fs (env s)) (known_faces_dir (self s)) = Found (Dir persons) ->
  self (encode_known_faces s).2
  = self (grown (registry_of persons) (flat_map person_events persons) s).
Proof.
  intros Hdir. rewrite encode_known_faces_run, Hdir. cbv zeta.
  set (s1 := grown _ _ s).
  destruct (known_face_encodings (self s1)); [apply self_grown_nil|].
  by destruct (write_file _ _ _).
Qed.

(** C5: when the known-faces directory is a directory, [encode_known_faces]
    appends to the two lists exactly the contributions of the immediate
    subdirectories, in iteration order: within each subdirectory, of the
    entries whose lowercased suffix is .jpg, .jpeg, .png or .bmp, one
    encoding per image (the first face the external encoder finds) under
    the subdirectory's name, and nothing for an image without a face. *)
Theorem encode_known_faces_scans_subdirectories s persons :
  resolve (fs (env s)) (known_faces_dir (self s)) = Found (Dir persons) ->
  let s' := (encode_known_faces s).2 in
  known_face_encodings (self s')
    = known_face_encodings (self s) ++ (registry_of persons).*1
  /\ known_face_names (self s')
    = known_face_names (self s) ++ (registry_of persons).*2.
Proof.
  intros Hdir. simpl. by rewrite (encode_known_faces_self s persons Hdir).
Qed.

End RegistryFacts.

(** ** Exceptions built by the repository *)

Section LibraryOnly.
Context {L : Libraries}.

Lemma library_only_ret {S A} (a : A) : library_only (ret a : prog S A).
Proof. by intros s t msg. Qed.

Lemma library_only_gets {S A} (f : S -> A) : library_only (gets f).
Proof. by intros s t msg. Qed.

Lemma library_only_modify {S} (f : S -> S) : library_only (modify f).
Proof. by intros s t msg. Qed.

Lemma library_only_lift {S A} (r : result exc_type A) :
  library_only (lift_result r : prog S A).
Proof. intros s t msg. by destruct r. Qed.

Lemma library_only_bind {S A B} (m : prog S A) (k : A -> prog S B) :
  library_only m -> (forall a, library_only (k a)) -> library_only (bind m k).
Proof.
  intros Hm Hk s t msg. unfold bind. specialize (Hm s t msg).
  destruct (m s) as [[a|e] s']; [apply Hk|].
  simpl in *. intros [= ->]. by apply Hm.
Qed.

Lemma library_only_try {S A} (m : prog S A) (h : exn -> prog S A) :
  (forall e, library_only (h e)) -> library_only (try_except m h).
Proof.
  intros Hh s t msg. unfold try_except.
  destruct (m s) as [[a|e] s']; [done | apply Hh].
Qed.

Lemma library_only_for_each {S A} (l : list A) (body : A -> prog S unit) :
  (forall x, library_only (body x)) -> library_only (for_each l body).
Proof.
  intros Hbody. induction l as [|x l IH]; simpl.
  - apply library_only_ret.
  - apply library_only_bind; [apply Hbody | done].
Qed.

Lemma library_only_world_update op : library_only (world_update op).
Proof. intros w t msg. unfold world_update. by destruct (op (fs w)). Qed.

Lemma library_only_world_read {A} (op : node -> result exc_type A) :
  library_only (world_read op).
Proof. intros w t msg. unfold world_read. simpl. by destruct (op (fs w)). Qed.

Lemma library_only_in_world {A} (m : prog world A) :
  library_only m -> library_only (Recognition.in_world m).
Proof.
  intros Hm s t msg. unfold Recognition.in_world. specialize (Hm (Recognition.env s) t msg).
  by destruct (m (Recognition.env s)).
Qed.

Lemma library_only_say ev : library_only (Recognition.say ev).
Proof. apply library_only_modify. Qed.

End LibraryOnly.

Create HintDb library_only.
#[export] Hint Resolve library_only_ret library_only_gets library_only_modify
  library_only_lift library_only_world_update library_only_world_read
  library_only_in_world library_only_say : library_only.

(** Walk through the binds and branches of a program. *)
Ltac library_only :=
  repeat first
    [ solve [auto with library_only]
    | apply library_only_bind; [|intros ?]
    | apply library_only_try; intros ?
    | apply library_only_for_each; intros ?
    | match goal with
      | |- library_only (if ?b then _ else _) => destruct b
      | |- library_only (match ?x with _ => _ end) => destruct x
      | |- library_only (let '(_, _) := ?x in _) => destruct x
      end ].

Section RepositoryRaises.
Context {L : Libraries}.

Lemma library_only_encode_image person_name entry :
  library_only (Recognition.encode_image person_name entry).
Proof. unfold Recognition.encode_image. library_only. Qed.
#[local] Hint Resolve library_only_encode_image : library_only.

Lemma library_only_encode_person entry :
  library_only (Recognition.encode_person entry).
Proof. unfold Recognition.encode_person. library_only. Qed.
#[local] Hint Resolve library_only_encode_person : library_only.

Lemma library_only_encode_known_faces : library_only Recognition.encode_known_faces.
Proof. unfold Recognition.encode_known_faces. library_only. Qed.
#[local] Hint Resolve library_only_encode_known_faces : library_only.

Lemma library_only_load_known_faces : library_only Recognition.load_known_faces.
Proof. unfold Recognition.load_known_faces. library_only. Qed.

Lemma library_only_save_encodings es ns filename :
  library_only (Utils.save_encodings es ns filename).
Proof. unfold Utils.save_encodings. library_only. Qed.

Lemma library_only_load_encodings filename :
  library_only (Utils.load_encodings filename).
Proof. unfold Utils.load_encodings. library_only. Qed.

Lemma library_only_add_from_file reg person_name image_path :
  library_only (Registration.add_from_file reg person_name image_path).
Proof. unfold Registration.add_from_file, Registration.say. library_only. Qed.

Lemma library_only_name_face sys e : library_only (Recognition.name_face sys e).
Proof. unfold Recognition.name_face. library_only. Qed.

End RepositoryRaises.

(** ** No exception of the repository's own *)

Section LibraryOnlyMore.
Context {L : Libraries} {B : Boxes L} {C : Camera L} {V : Vision L}
  {I : Interpreter L}.

Lemma library_only_from_library {A} (r : result exc_type A) :
  library_only_result (from_library r).
Proof. intros t msg. by destruct r. Qed.

Lemma library_only_result_prog {S A} (r : result exn A) :
  library_only_result r -> library_only (fun s : S => (r, s)).
Proof. intros Hr s t msg. apply Hr. Qed.

Lemma library_only_try_finally {S A} (m : prog S A) (f : prog S unit) :
  library_only m -> library_only f -> library_only (try_finally m f).
Proof.
  intros Hm Hf s t msg. unfold try_finally. specialize (Hm s t msg).
  destruct (m s) as [r s']. specialize (Hf s' t msg).
  cbn beta iota delta [fst] in Hm |- *.
  destruct (f s') as [[u|e] s'']; cbn beta iota delta [fst] in Hf |- *; [assumption|].
  intros [= ->]. by apply Hf.
Qed.

Lemma library_only_try_of {S A} (t : exc_type) (m h : prog S A) :
  library_only m -> library_only h -> library_only (try_except_of t m h).
Proof.
  intros Hm Hh s t' msg. unfold try_except_of. specialize (Hm s t' msg).
  destruct (m s) as [[a|e] s']; [done|].
  destruct (bool_decide (class_of e = t)); [apply Hh | done].
Qed.

(** *** The camera programs *)

Lemma library_only_emit o : library_only (Studio.emit o).
Proof. apply library_only_modify. Qed.

Lemma library_only_studio_print text : library_only (Studio.print text).
Proof. apply library_only_modify. Qed.

Lemma library_only_update op : library_only (Studio.update op).
Proof. intros st t msg. unfold Studio.update. by destruct (op (Studio.disk st)). Qed.

Lemma library_only_imwrite p frame shapes : library_only (Studio.imwrite p frame shapes).
Proof. apply library_only_modify. Qed.

End LibraryOnlyMore.

#[export] Hint Resolve library_only_emit library_only_studio_print library_only_update
  library_only_imwrite : library_only.

Ltac library_only_more :=
  repeat first
    [ solve [auto with library_only]
    | apply library_only_bind; [|intros ?]
    | apply library_only_try_of
    | apply library_only_try_finally
    | apply library_only_try; intros ?
    | apply library_only_for_each; intros ?
    | match goal with
      | |- library_only (if ?b then _ else _) => destruct b
      | |- library_only (match ?x with _ => _ end) => destruct x
      | |- library_only (let '(_, _) := ?x in _) => destruct x
      end ].

Section RepositoryRaisesMore.
Context {L : Libraries} {B : Boxes L} {C : Camera L} {V : Vision L}
  {I : Interpreter L}.
Import Recognition.

Lemma library_only_capture_loop person_dir person_name num_photos feed :
  forall photo_count last,
    library_only (Studio.capture_loop person_dir person_name num_photos feed
                    photo_count last).
Proof.
  induction feed as [|t feed IH]; intros photo_count last; simpl;
    library_only_more.
Qed.

Lemma library_only_capture_faces_from_webcam reg person_name num_photos opened feed :
  library_only (Studio.capture_faces_from_webcam reg person_name num_photos opened feed).
Proof.
  unfold Studio.capture_faces_from_webcam.
  pose proof library_only_capture_loop. library_only_more.
Qed.

Lemma library_only_single_loop person_dir person_name photo_name feed :
  library_only (Studio.single_loop person_dir person_name photo_name feed).
Proof. induction feed as [|t feed IH]; simpl; library_only_more. Qed.

Lemma library_only_capture_single_photo reg person_name photo_name opened feed :
  library_only (Studio.capture_single_photo reg person_name photo_name opened feed).
Proof.
  unfold Studio.capture_single_photo.
  pose proof library_only_single_loop. library_only_more.
Qed.

Lemma library_only_drawing sys frame :
  library_only_result (Drawing.recognize_faces_in_frame sys frame).
Proof.
  intros t msg. unfold Drawing.recognize_faces_in_frame.
  pose proof (library_only_for_each
                (fr_face_encodings_at (cv2_resize_quarter (cv2_cvtColor_BGR2RGB frame))
                   (fr_face_locations (cv2_resize_quarter (cv2_cvtColor_BGR2RGB frame))))
                (name_face sys) (library_only_name_face sys) [] t msg) as H.
  destruct (for_each _ _ _) as [[u|e] names]; [done|].
  simpl in H. congruence.
Qed.

Lemma library_only_video_loop sys feed :
  forall frame_count detected_names,
    library_only (Studio.video_loop sys feed frame_count detected_names).
Proof.
  induction feed as [|t feed IH]; intros frame_count detected_names; simpl.
  - library_only_more.
  - apply library_only_bind.
    + destruct (frame_count mod 2 =? 0)%Z; [|library_only_more].
      apply library_only_result_prog, library_only_drawing.
    + intros [shapes names]. library_only_more.
Qed.

Lemma library_only_start_video_recognition sys opened feed :
  library_only (Studio.start_video_recognition sys opened feed).
Proof.
  unfold Studio.start_video_recognition.
  pose proof library_only_video_loop. library_only_more.
Qed.

Lemma library_only_recognize_in_image sys image_path :
  library_only (Studio.recognize_in_image sys image_path).
Proof.
  unfold Studio.recognize_in_image.
  apply library_only_bind; [library_only_more|]. intros _.
  apply library_only_bind; [library_only_more|]. intros [frame|]; [|library_only_more].
  apply library_only_bind; [apply library_only_result_prog, library_only_drawing|].
  intros [shapes names]. library_only_more.
Qed.

Lemma library_only_init dir tol w t msg :
  (init dir tol w).1 <> Raise (FromRepository t msg).
Proof. unfold init. apply library_only_load_known_faces. Qed.

Lemma library_only_reencode : library_only Main.reencode.
Proof.
  unfold Main.reencode. pose proof library_only_encode_known_faces.
  library_only_more.
Qed.

Lemma library_only_registration_init dir : library_only (Registration.init dir).
Proof. unfold Registration.init. library_only_more. Qed.

Lemma library_only_get_face_encoding image_path :
  library_only (UtilsMore.get_face_encoding image_path).
Proof. unfold UtilsMore.get_face_encoding. library_only_more. Qed.

(** *** The rest of utils.py *)

Lemma library_only_get_image_quality image_path :
  library_only (UtilsRest.get_image_quality image_path).
Proof. unfold UtilsRest.get_image_quality. library_only_more. Qed.

Lemma library_only_build_mosaic images filled mosaic :
  Utils.build_mosaic images = Some (filled, mosaic) -> library_only_result filled.
Proof.
  unfold Utils.build_mosaic. destruct images as [|img images]; [done|].
  intros Hrun t msg.
  assert (forall cols item, library_only (Utils.place cols item)) as Hplace.
  { intros cols [idx x] m t' msg'. unfold Utils.place.
    by destruct (Utils.assign_block _ _ _ _). }
  match type of Hrun with
  | Some ?run = _ =>
      pose proof (library_only_for_each _ _ (Hplace _) _ t msg : run.1 <> _) as H;
      assert (run = (filled, mosaic)) as Heq by congruence
  end.
  by rewrite Heq in H.
Qed.

Lemma library_only_create_face_mosaic image_dir output_path :
  library_only (UtilsRest.create_face_mosaic image_dir output_path).
Proof.
  unfold UtilsRest.create_face_mosaic.
  apply library_only_bind; [library_only_more|]. intros root.
  apply library_only_bind; [library_only_more|]. intros images.
  destruct (Utils.build_mosaic images) as [[filled mosaic]|] eqn:Hbuild;
    [|library_only_more].
  apply library_only_bind.
  - apply library_only_result_prog. by apply library_only_build_mosaic with images mosaic.
  - intros _. library_only_more.
Qed.

(** *** The scripts *)

Lemma library_only_print text : library_only (Scripts.print text).
Proof. apply library_only_modify. Qed.

Lemma library_only_input prompt : library_only (Scripts.input prompt).
Proof. intros tm t msg. unfold Scripts.input. by destruct (Scripts.keyboard tm). Qed.

Lemma library_only_in_the_world {A} (m : prog world A) :
  library_only m -> library_only (Scripts.in_the_world m).
Proof.
  intros Hm tm t msg. unfold Scripts.in_the_world.
  specialize (Hm {| fs := Scripts.files tm; console := [] |} t msg).
  by destruct (m _).
Qed.

Lemma library_only_in_the_studio {A} (m : prog Studio.studio A) :
  library_only m -> library_only (Scripts.in_the_studio m).
Proof.
  intros Hm tm t msg. unfold Scripts.in_the_studio.
  specialize (Hm {| Studio.disk := Scripts.files tm; Studio.screen := [] |} t msg).
  by destruct (m _).
Qed.

Lemma library_only_method {A} system (m : prog session A) :
  library_only m -> library_only (Scripts.method system m).
Proof.
  intros Hm tm t msg. unfold Scripts.method.
  specialize (Hm {| self := system;
                    env := {| fs := Scripts.files tm; console := [] |} |} t msg).
  by destruct (m _).
Qed.

Lemma library_only_new_FaceRecognitionSystem dir :
  library_only (Scripts.new_FaceRecognitionSystem dir).
Proof.
  intros tm t msg. unfold Scripts.new_FaceRecognitionSystem.
  pose proof (library_only_init dir tolerance_0_6
                {| fs := Scripts.files tm; console := [] |} t msg) as H.
  destruct (init _ _ _) as [[u|e] s']; simpl in *; [done|]. congruence.
Qed.

End RepositoryRaisesMore.

#[export] Hint Resolve library_only_print library_only_input library_only_in_the_world
  library_only_in_the_studio library_only_method library_only_new_FaceRecognitionSystem
  library_only_capture_faces_from_webcam library_only_capture_single_photo
  library_only_start_video_recognition library_only_recognize_in_image
  library_only_reencode library_only_registration_init library_only_get_image_quality
  : library_only.

Section ScriptsRaise.
Context {L : Libraries} {B : Boxes L} {C : Camera L} {V : Vision L}
  {I : Interpreter L}.
Import Recognition.

Lemma library_only_exemple_analyse_qualite : library_only Scripts.exemple_analyse_qualite.
Proof. unfold Scripts.exemple_analyse_qualite. library_only_more. Qed.

Lemma library_only_analyse_images system images :
  forall results, library_only (Scripts.analyse_images system images results).
Proof.
  induction images as [|image_path images IH]; intros results; simpl;
    library_only_more.
Qed.

Lemma library_only_exemple_reconnaissance_batch :
  library_only Scripts.exemple_reconnaissance_batch.
Proof.
  unfold Scripts.exemple_reconnaissance_batch.
  pose proof library_only_analyse_images. library_only_more.
Qed.

Lemma library_only_exemple_statistiques : library_only Scripts.exemple_statistiques.
Proof. unfold Scripts.exemple_statistiques. library_only_more. Qed.

Lemma library_only_menu_principal : library_only Scripts.menu_principal.
Proof.
  unfold Scripts.menu_principal.
  pose proof library_only_exemple_analyse_qualite.
  pose proof library_only_exemple_reconnaissance_batch.
  pose proof library_only_exemple_statistiques.
  library_only_more.
Qed.

Lemma library_only_recognition_main opened feed :
  library_only (Scripts.recognition_main opened feed).
Proof. unfold Scripts.recognition_main. library_only_more. Qed.

Lemma library_only_registration_main opened feed :
  library_only (Scripts.registration_main opened feed).
Proof.
  unfold Scripts.registration_main.
  pose proof library_only_add_from_file. library_only_more.
Qed.

End ScriptsRaise.

(** ** Errors during the scan *)

Section ErrorFacts.
Context {L : Libraries}.
Import Recognition.

Lemma library_only_recognize sys frame t msg :
  recognize_faces_in_frame sys frame <> Raise (FromRepository t msg).
Proof.
  unfold recognize_faces_in_frame.
  pose proof (library_only_for_each
                (fr_face_encodings_at (cv2_resize_quarter (cv2_cvtColor_BGR2RGB frame))
                   (fr_face_locations (cv2_resize_quarter (cv2_cvtColor_BGR2RGB frame))))
                (name_face sys) (library_only_name_face sys) [] t msg) as H.
  destruct (for_each _ _ _) as [[u|e] names]; [done|].
  simpl in H. congruence.
Qed.

Lemma load_image_run image_path w :
  Utils.load_image image_path w
  = (match Utils.imread (fs w) image_path with
     | Some img => Ok img
     | None => Raise (FromRepository ValueError
                        ("Impossible de charger l'image: " +:+ path_str image_path))
     end, w).
Proof.
  unfold Utils.load_image, bind, gets. by destruct (Utils.imread _ _).
Qed.

(** C4 (amended): in [encode_known_faces] an exception raised while loading
    or encoding an image is caught and printed, the scan goes on with the
    remaining images, and what was appended before stays.  Apart from
    [load_image], no function of the repository raises an exception it
    constructs itself, whatever the files, the libraries, the camera and the
    keyboard do: not the seven functions of face_recognition_system.py, not
    the five of register_face.py, not the other ten of utils.py, not the four
    of examples.py.  [load_image] does: it raises its own ValueError exactly
    when cv2 cannot read the image; and no other function calls it. *)
Theorem scan_errors_are_caught_and_printed :
  (forall person_name file target t rest s,
      has_image_suffix file = true -> faces_in target = Raise t ->
      exists s1,
        encode_image person_name (file, target) s = (Ok tt, s1)
        /\ self s1 = self s
        /\ fs (env s1) = fs (env s)
        /\ console (env s1) = console (env s) ++ [ErrorWith file (FromLibrary t)]
        /\ for_each ((file, target) :: rest) (encode_image person_name) s
           = for_each rest (encode_image person_name) s1)
  /\ (forall person_name images s,
        exists s',
          for_each images (encode_image person_name) s = (Ok tt, s')
          /\ known_face_encodings (self s) `prefix_of` known_face_encodings (self s')
          /\ known_face_names (self s) `prefix_of` known_face_names (self s'))
  (* face_recognition_system.py *)
  /\ ((forall known_faces_dir tolerance w,
         library_only_result (init known_faces_dir tolerance w).1)
      /\ library_only load_known_faces
      /\ library_only encode_known_faces
      /\ (forall sys frame, library_only_result (recognize_faces_in_frame sys frame))
      /\ (forall (B : Boxes L) sys frame,
            library_only_result (Drawing.recognize_faces_in_frame sys frame))
      /\ (forall (B : Boxes L) (C : Camera L) sys opened feed,
            library_only (Studio.start_video_recognition sys opened feed))
      /\ (forall (B : Boxes L) (C : Camera L) sys image_path,
            library_only (Studio.recognize_in_image sys image_path))
      /\ (forall (B : Boxes L) (C : Camera L) (V : Vision L) (I : Interpreter L)
                 opened feed,
            library_only (Scripts.recognition_main opened feed)))
  (* register_face.py *)
  /\ ((forall known_faces_dir, library_only (Registration.init known_faces_dir))
      /\ (forall (B : Boxes L) (C : Camera L) reg person_name num_photos opened feed,
            library_only
              (Studio.capture_faces_from_webcam reg person_name num_photos opened feed))
      /\ (forall (B : Boxes L) (C : Camera L) reg person_name photo_name opened feed,
            library_only
              (Studio.capture_single_photo reg person_name photo_name opened feed))
      /\ (forall reg person_name image_path,
            library_only (Registration.add_from_file reg person_name image_path))
      /\ (forall (B : Boxes L) (C : Camera L) (V : Vision L) (I : Interpreter L)
                 opened feed,
            library_only (Scripts.registration_main opened feed)))
  (* utils.py *)
  /\ ((forall (V : Vision L) img, library_only_result (UtilsRest.detect_faces_opencv img))
      /\ (forall image_path, library_only (UtilsMore.get_face_encoding image_path))
      /\ (forall known_encodings face_encoding tolerance,
            library_only_result
              (Ok (Utils.compare_faces known_encodings face_encoding tolerance)))
      /\ (forall (V : Vision L) img location name color,
            library_only_result (UtilsRest.draw_face_box img location name color))
      /\ (forall es ns filename, library_only (Utils.save_encodings es ns filename))
      /\ (forall filename, library_only (Utils.load_encodings filename))
      /\ (forall (D : Double) shape max_width max_height,
            library_only_result
              (from_library (Utils.resize_image shape max_width max_height)))
      /\ (forall (V : Vision L) img location blur_amount,
            library_only_result (UtilsRest.blur_face img location blur_amount))
      /\ (forall (C : Camera L) (V : Vision L) image_dir output_path,
            library_only (UtilsRest.create_face_mosaic image_dir output_path))
      /\ (forall (V : Vision L) image_path,
            library_only (UtilsRest.get_image_quality image_path)))
  (* examples.py *)
  /\ (forall (B : Boxes L) (C : Camera L) (V : Vision L) (I : Interpreter L),
        library_only Scripts.exemple_analyse_qualite
        /\ library_only Scripts.exemple_reconnaissance_batch
        /\ library_only Scripts.exemple_statistiques
        /\ library_only Scripts.menu_principal)
  (* utils.load_image *)
  /\ (forall image_path w,
        Utils.imread (fs w) image_path = None <->
        exists msg, (Utils.load_image image_path w).1
                    = Raise (FromRepository ValueError msg)).
Proof.
  split; [|split].
  - intros person_name file target t rest s Hsuffix Hfaces.
    pose proof (encode_image_run person_name (file, target) s) as Hrun.
    unfold image_contribution, image_events in Hrun. simpl in Hrun.
    rewrite Hsuffix, Hfaces in Hrun.
    exists (grown [] [ErrorWith file (FromLibrary t)] s).
    split; [done|]. split; [apply self_grown_nil|]. split; [done|]. split; [done|].
    by rewrite for_each_cons, (bind_ok _ _ _ _ _ Hrun).
  - intros person_name images s. eexists. split; [apply encode_images_run|].
    simpl. split; by eexists.
  - split; [|split; [|split; [|split]]].
    + split; [intros dir tol w t msg; apply library_only_init|].
      split; [apply library_only_load_known_faces|].
      split; [apply library_only_encode_known_faces|].
      split; [intros sys frame t msg; apply library_only_recognize|].
      split; [intros B' sys frame; apply library_only_drawing|].
      split; [intros B' C' sys opened feed; apply library_only_start_video_recognition|].
      split; [intros B' C' sys image_path; apply library_only_recognize_in_image|].
      intros B' C' V' I' opened feed. apply library_only_recognition_main.
    + split; [apply library_only_registration_init|].
      split; [intros B' C'; apply library_only_capture_faces_from_webcam|].
      split; [intros B' C'; apply library_only_capture_single_photo|].
      split; [apply library_only_add_from_file|].
      intros B' C' V' I' opened feed. apply library_only_registration_main.
    + split; [intros V' img; apply library_only_from_library|].
      split; [apply library_only_get_face_encoding|].
      split; [by intros known e tol t msg|].
      split; [intros V' img [[[top right_] bottom] left_] name color;
              apply library_only_from_library|].
      split; [apply library_only_save_encodings|].
      split; [apply library_only_load_encodings|].
      split; [intros D' shape max_width max_height; apply library_only_from_library|].
      split; [intros V' img [[[top right_] bottom] left_] blur_amount;
              apply library_only_from_library|].
      split; [intros C' V'; apply library_only_create_face_mosaic|].
      intros V'. apply library_only_get_image_quality.
    + intros B' C' V' I'.
      split; [apply library_only_exemple_analyse_qualite|].
      split; [apply library_only_exemple_reconnaissance_batch|].
      split; [apply library_only_exemple_statistiques|].
      apply library_only_menu_principal.
    + intros image_path w. rewrite load_image_run. simpl.
      destruct (Utils.imread _ _); split.
      * done.
      * by intros [msg ?].
      * eauto.
      * done.
Qed.

End ErrorFacts.

(** ** face_recognition_system.py: the registry and its cache *)

Section CacheFacts.
Context {L : Libraries}.
Import Recognition.

Lemma load_known_faces_absent s :
  path_exists (fs (env s)) (encodings_file (self s)) = false ->
  load_known_faces s
  = encode_known_faces {| self := self s; env := world_print CreatingEncodings (env s) |}.
Proof.
  intros Habsent. unfold load_known_faces, bind, gets. simpl. by rewrite Habsent.
Qed.

(** Loading a well-formed blob from the file. *)
Lemma load_known_faces_present s c data es ns :
  resolve (fs (env s)) (encodings_file (self s)) = Found (File c) ->
  pickle_load c = Ok data ->
  data !! "encodings" = Some (PyEncodings es) ->
  data !! "names" = Some (PyNames ns) ->
  exists s',
    load_known_faces s = (Ok tt, s')
    /\ known_face_encodings (self s') = es
    /\ known_face_names (self s') = ns
    /\ fs (env s') = fs (env s).
Proof.
  intros Hfile Hload Hes Hns. eexists.
  unfold load_known_faces, bind, gets, path_exists, in_world, world_read, read_file,
    lift_result, subscript.
  simpl. rewrite Hfile. simpl. rewrite Hfile. simpl. rewrite Hload. simpl.
  rewrite Hes. simpl. rewrite Hns. simpl. done.
Qed.

(** Loading from the file neither writes nor looks anywhere else. *)
Lemma load_known_faces_reads_only s :
  path_exists (fs (env s)) (encodings_file (self s)) = true ->
  fs (env (load_known_faces s).2) = fs (env s).
Proof.
  destruct s as [[dir tol es ns file] [root out]]. simpl. intros Hpresent.
  unfold load_known_faces, bind, gets, in_world, world_read, read_file,
    lift_result, subscript.
  simpl. rewrite Hpresent. simpl.
  destruct (resolve root file) as [[c|entries]| |] eqn:Hfile; simpl; rewrite ?Hfile;
    simpl; try done.
  destruct (pickle_load c) as [data|]; simpl; [|done].
  destruct (data !! "encodings") as [[]|]; simpl; try done.
  destruct (data !! "names") as [[]|]; simpl; done.
Qed.

Lemma load_known_faces_depends_on_file s1 s2 :
  resolve (fs (env s2)) (encodings_file (self s2))
  = resolve (fs (env s1)) (encodings_file (self s1)) ->
  path_exists (fs (env s1)) (encodings_file (self s1)) = true ->
  known_face_encodings (self s2) = known_face_encodings (self s1) ->
  known_face_names (self s2) = known_face_names (self s1) ->
  (load_known_faces s2).1 = (load_known_faces s1).1
  /\ known_face_encodings (self (load_known_faces s2).2)
     = known_face_encodings (self (load_known_faces s1).2)
  /\ known_face_names (self (load_known_faces s2).2)
     = known_face_names (self (load_known_faces s1).2).
Proof.
  destruct s1 as [[dir1 tol1 es1 ns1 file1] [root1 out1]].
  destruct s2 as [[dir2 tol2 es2 ns2 file2] [root2 out2]]. simpl.
  intros Hsame Hpresent -> ->.
  unfold load_known_faces, bind, gets, path_exists, in_world, world_read, read_file,
    lift_result, subscript.
  simpl. unfold path_exists in Hpresent.
  destruct (resolve root1 file1) as [[c|entries]| |] eqn:Hfile;
    rewrite ?Hsame; simpl; rewrite ?Hsame, ?Hfile; simpl; try done.
  destruct (pickle_load c) as [data|]; simpl; [|done].
  destruct (data !! "encodings") as [[]|]; simpl; try done.
  destruct (data !! "names") as [[]|]; simpl; done.
Qed.

Lemma encode_known_faces_lengths s :
  length (known_face_encodings (self s)) = length (known_face_names (self s)) ->
  length (known_face_encodings (self (encode_known_faces s).2))
  = length (known_face_names (self (encode_known_faces s).2)).
Proof.
  intros Hlen. destruct (resolve (fs (env s)) (known_faces_dir (self s)))
    as [[c|persons]| |] eqn:Hdir.
  - by rewrite encode_known_faces_run, Hdir.
  - rewrite (encode_known_faces_self s persons Hdir). simpl.
    rewrite !length_app, !length_fmap. lia.
  - rewrite encode_known_faces_run, Hdir. cbv zeta.
    destruct (mkdir_exist_ok _ _); simpl; [done|]. by rewrite !app_nil_r.
  - rewrite encode_known_faces_run, Hdir. cbv zeta.
    destruct (mkdir_exist_ok _ _); simpl; [done|]. by rewrite !app_nil_r.
Qed.

(** What [encode_known_faces] leaves on disk: nothing new, the directory it
    created, or the pickled dict of the two lists it holds at the end. *)
Lemma encode_known_faces_writes s :
  let s' := (encode_known_faces s).2 in
  let root := fs (env s) in
  fs (env s') = root
  \/ mkdir_exist_ok root (known_faces_dir (self s)) = Ok (fs (env s'))
  \/ write_file root (encodings_file (self s))
       (pickle_dump (Utils.blob (known_face_encodings (self s'))
                                (known_face_names (self s'))))
     = Ok (fs (env s')).
Proof.
  simpl. rewrite encode_known_faces_run. cbv zeta.
  destruct (resolve (fs (env s)) (known_faces_dir (self s))) as [[c|persons]| |] eqn:Hdir.
  - by left.
  - set (s1 := grown _ _ s).
    destruct (known_face_encodings (self s1)) as [|e es] eqn:Hes; [by left|].
    destruct (write_file _ _ _) as [root'|t] eqn:Hwrite; [|by left].
    right. right. cbn [snd self env fs]. by rewrite Hes.
  - destruct (mkdir_exist_ok _ _) as [root'|t]; [right; by left | by left].
  - destruct (mkdir_exist_ok _ _) as [root'|t]; [right; by left | by left].
Qed.

End CacheFacts.

Section CacheTheorems.
Context {L : Libraries}.
Import Recognition.

(** C2 (amended): [encode_known_faces] keeps the two lists of equal length
    when they were so before, as they are after the assignments of
    [__init__], and the only file it writes is the pickled dict of these two
    lists; initialisation without an encodings file ends with lists of equal
    length; [load_known_faces] on an existing file sets the two lists to the
    ones stored under 'encodings' and 'names', whatever their lengths;
    [save_encodings] writes the dict of its two arguments, whose lengths it
    does not compare; and that dict has exactly the keys 'encodings' and
    'names'. *)
Theorem registry_lists_and_blobs :
  (forall s,
      length (known_face_encodings (self s)) = length (known_face_names (self s)) ->
      let s' := (encode_known_faces s).2 in
      length (known_face_encodings (self s')) = length (known_face_names (self s'))
      /\ (fs (env s') = fs (env s)
          \/ mkdir_exist_ok (fs (env s)) (known_faces_dir (self s)) = Ok (fs (env s'))
          \/ write_file (fs (env s)) (encodings_file (self s))
               (pickle_dump (Utils.blob (known_face_encodings (self s'))
                                        (known_face_names (self s'))))
             = Ok (fs (env s'))))
  /\ (forall dir tol w,
        path_exists (fs w) ["face_encodings.pkl"] = false ->
        let s' := (init dir tol w).2 in
        length (known_face_encodings (self s')) = length (known_face_names (self s')))
  /\ (forall s c data es ns,
        resolve (fs (env s)) (encodings_file (self s)) = Found (File c) ->
        pickle_load c = Ok data ->
        data !! "encodings" = Some (PyEncodings es) ->
        data !! "names" = Some (PyNames ns) ->
        let s' := (load_known_faces s).2 in
        known_face_encodings (self s') = es /\ known_face_names (self s') = ns)
  /\ (forall es ns filename w,
        let w' := (Utils.save_encodings es ns filename w).2 in
        fs w' = fs w
        \/ write_file (fs w) filename (pickle_dump (Utils.blob es ns)) = Ok (fs w'))
  /\ (forall (es : list encoding) (ns : list string),
        dom (Utils.blob es ns) = ({["encodings"; "names"]} : gset string)
        /\ Utils.blob es ns !! "encodings" = Some (PyEncodings es)
        /\ Utils.blob es ns !! "names" = Some (PyNames ns)).
Proof.
  split; [|split; [|split; [|split]]].
  - intros s Hlen. split; [by apply encode_known_faces_lengths|].
    apply encode_known_faces_writes.
  - intros dir tol w Habsent. unfold init. rewrite load_known_faces_absent by done.
    by apply encode_known_faces_lengths.
  - intros s c data es ns Hfile Hload Hes Hns.
    destruct (load_known_faces_present s c data es ns) as (s' & -> & ? & ? & _); done.
  - intros es ns filename w. rewrite save_encodings_run.
    destruct (write_file _ _ _); [by right | by left].
  - apply blob_keys.
Qed.

(** C3: [load_known_faces], run on the fresh object of [__init__], treats the
    encodings file as a cache.  If the file exists, nothing is written, the
    result and the registry depend on the file only, not on the known-faces
    directory, and a well-formed blob gives the registry its two lists.  If it
    is absent, the registry is what the scan of the directory computes, and
    the file is written, with the pickled registry, exactly when at least one
    encoding was produced. *)
Theorem load_known_faces_uses_the_file_as_cache dir tol w :
  let file := ["face_encodings.pkl"] in
  let run := load_known_faces {| self := new_system dir tol; env := w |} in
  let encodings := known_face_encodings (self run.2) in
  let names := known_face_names (self run.2) in
  (path_exists (fs w) file = true ->
   fs (env run.2) = fs w
   /\ (forall dir2 w2,
         resolve (fs w2) file = resolve (fs w) file ->
         let run2 := load_known_faces {| self := new_system dir2 tol; env := w2 |} in
         run2.1 = run.1
         /\ known_face_encodings (self run2.2) = encodings
         /\ known_face_names (self run2.2) = names)
   /\ (forall c data es ns,
         resolve (fs w) file = Found (File c) ->
         pickle_load c = Ok data ->
         data !! "encodings" = Some (PyEncodings es) ->
         data !! "names" = Some (PyNames ns) ->
         run.1 = Ok tt /\ encodings = es /\ names = ns))
  /\ (path_exists (fs w) file = false ->
      (forall persons,
          resolve (fs w) dir = Found (Dir persons) ->
          encodings = (registry_of persons).*1 /\ names = (registry_of persons).*2)
      /\ (encodings <> [] ->
          resolve (fs (env run.2)) file
          = Found (File (pickle_dump (Utils.blob encodings names))))
      /\ (encodings = [] -> is_file (fs (env run.2)) file = false)).
Proof.
  intros file run encodings names. split.
  - intros Hpresent. split; [|split].
    + subst run. by apply load_known_faces_reads_only.
    + intros dir2 w2 Hsame. subst encodings names run. cbv zeta.
      by apply load_known_faces_depends_on_file.
    + intros c data es ns Hfile Hload Hes Hns. subst encodings names run.
      destruct (load_known_faces_present
                  {| self := new_system dir tol; env := w |} c data es ns)
        as (s' & -> & ? & ? & _); done.
  - intros Habsent.
    assert (run = encode_known_faces
                    {| self := new_system dir tol;
                       env := world_print CreatingEncodings w |}) as Hrun
      by (by apply load_known_faces_absent).
    set (start := {| self := new_system dir tol;
                     env := world_print CreatingEncodings w |}) in Hrun.
    split; [|split].
    + intros persons Hdir. subst encodings names. rewrite Hrun.
      by rewrite (encode_known_faces_self start persons Hdir).
    + subst encodings names. rewrite Hrun, encode_known_faces_run. cbv zeta.
      change (fs (env start)) with (fs w).
      change (known_faces_dir (self start)) with dir.
      destruct (resolve (fs w) dir) as [[c|persons]| |] eqn:Hdir.
      * done.
      * set (s1 := grown _ _ start).
        destruct (known_face_encodings (self s1)) as [|e es] eqn:Hes.
        { cbn [snd]. by rewrite self_grown_nil, Hes. }
        intros _. destruct (resolve_directory_root _ _ _ Hdir) as [es0 Hroot].
        destruct (write_file_child (fs w) [] es0 "face_encodings.pkl"
                    (pickle_dump (Utils.blob (e :: es) (known_face_names (self s1)))))
          as (root' & Hwrite & Hread).
        { by rewrite Hroot. }
        { change ([] ++ ["face_encodings.pkl"]) with file.
          unfold is_dir. unfold path_exists in Habsent.
          by destruct (resolve (fs w) file) as [[|]| |]. }
        change ([] ++ ["face_encodings.pkl"]) with file in Hwrite, Hread.
        change (encodings_file (self start)) with file.
        rewrite Hwrite. cbn [snd self env fs]. by rewrite Hes.
      * destruct (mkdir_exist_ok _ _); cbn [snd]; [done | by rewrite self_grown_nil].
      * destruct (mkdir_exist_ok _ _); cbn [snd]; [done | by rewrite self_grown_nil].
    + assert (is_file (fs w) file = false) as Hnofile.
      { unfold is_file. unfold path_exists in Habsent.
        by destruct (resolve (fs w) file) as [[|]| |]. }
      subst encodings names. rewrite Hrun, encode_known_faces_run. cbv zeta.
      change (fs (env start)) with (fs w).
      change (known_faces_dir (self start)) with dir.
      destruct (resolve (fs w) dir) as [[c|persons]| |] eqn:Hdir.
      * done.
      * set (s1 := grown _ _ start).
        destruct (known_face_encodings (self s1)) as [|e es] eqn:Hes; [done|].
        destruct (write_file _ _ _); cbn [snd self env fs]; by rewrite Hes.
      * destruct (mkdir_exist_ok _ _) as [root'|] eqn:Hmk; [|done].
        intros _. by apply mkdir_exist_ok_no_file with (fs w) dir.
      * destruct (mkdir_exist_ok _ _) as [root'|] eqn:Hmk; [|done].
        intros _. by apply mkdir_exist_ok_no_file with (fs w) dir.
Qed.

End CacheTheorems.

(** ** face_recognition_system.py: recognition *)

Section RecognitionFacts.
Context {L : Libraries}.
Import Recognition.

Lemma round_half_even_near n d :
  (0 < d)%Z ->
  let t := round_half_even n d in
  (- d <= 2 * (t * d - n) <= d)%Z
  /\ ((2 * (t * d - n) = d \/ 2 * (t * d - n) = - d)%Z -> Z.even t = true).
Proof.
  intros Hd. unfold round_half_even.
  pose proof (Z.div_mod n d ltac:(lia)) as Hdiv.
  pose proof (Z.mod_pos_bound n d Hd) as Hmod.
  set (q := (n / d)%Z) in *. set (r := (n mod d)%Z) in *.
  destruct (2 * r <? d)%Z eqn:Hlow; [apply Z.ltb_lt in Hlow | apply Z.ltb_ge in Hlow].
  - cbv zeta. split; [nia|]. intros [H|H]; nia.
  - destruct (d <? 2 * r)%Z eqn:Hhigh; [apply Z.ltb_lt in Hhigh | apply Z.ltb_ge in Hhigh].
    + cbv zeta. split; [nia|]. intros [H|H]; nia.
    + destruct (Z.even q) eqn:Heven; cbv zeta.
      * split; [nia|]. done.
      * split; [nia|]. intros _. rewrite Z.even_add, Heven. done.
Qed.

Lemma nearest_even_quotient n d :
  (0 < d)%Z ->
  nearest_even (round_half_even n d) (inject_Z n / inject_Z d)%Q.
Proof.
  intros Hd. destruct (round_half_even_near n d Hd) as [Hnear Htie].
  set (t := round_half_even n d) in *.
  assert (0 < inject_Z d)%Q as HD by (rewrite Zlt_Qlt in Hd; exact Hd).
  assert (inject_Z n / inject_Z d * inject_Z d == inject_Z n)%Q as Hq.
  { field. intros H0. rewrite H0 in HD. by apply Qlt_irrefl in HD. }
  set (Y := (inject_Z n / inject_Z d)%Q) in *.
  assert (- inject_Z d <= 2 * (inject_Z t * inject_Z d - inject_Z n)
          /\ 2 * (inject_Z t * inject_Z d - inject_Z n) <= inject_Z d)%Q as [Hlo Hhi].
  { split.
    - rewrite <- inject_Z_mult, <- inject_Z_opp.
      unfold Qminus. rewrite <- inject_Z_opp, <- inject_Z_plus.
      change 2%Q with (inject_Z 2). rewrite <- inject_Z_mult, <- Zle_Qle. lia.
    - rewrite <- inject_Z_mult.
      unfold Qminus. rewrite <- inject_Z_opp, <- inject_Z_plus.
      change 2%Q with (inject_Z 2). rewrite <- inject_Z_mult, <- Zle_Qle. lia. }
  split.
  - apply Qabs_Qle_condition. split; nra.
  - intros Heq. apply Htie.
    assert ((inject_Z t - Y == 1 # 2) \/ (inject_Z t - Y == - (1 # 2)))%Q as [H|H].
    { destruct (Qlt_le_dec (inject_Z t - Y) 0) as [Hneg|Hpos].
      - right. rewrite Qabs_neg in Heq by lra. lra.
      - left. rewrite Qabs_pos in Heq by done. done. }
    + left. apply inject_Z_injective.
      replace (t * d - n)%Z with (t * d + - n)%Z by lia.
      rewrite inject_Z_mult, inject_Z_plus, inject_Z_mult, inject_Z_opp.
      change (inject_Z 2) with 2%Q. nra.
    + right. apply inject_Z_injective.
      replace (t * d - n)%Z with (t * d + - n)%Z by lia.
      rewrite inject_Z_mult, inject_Z_plus, inject_Z_mult, !inject_Z_opp.
      change (inject_Z 2) with 2%Q. nra.
Qed.

Lemma nearest_even_exact t q : (inject_Z t == q)%Q -> nearest_even t q.
Proof.
  intros Heq. unfold nearest_even. rewrite <- Heq.
  assert (inject_Z t - inject_Z t == 0)%Q as -> by ring. split; [done|].
  intros H. by vm_compute in H.
Qed.

Lemma nearest_even_ext t q q' : (q == q')%Q -> nearest_even t q -> nearest_even t q'.
Proof. intros Heq [H1 H2]. unfold nearest_even. by rewrite <- Heq. Qed.

(** What [format_1f] prints is its argument with one decimal. *)
Lemma format_1f_shows x : shows_one_decimal x (format_1f x).
Proof.
  unfold shows_one_decimal, format_1f.
  destruct (FloatOps.Prim2SF x) as [s|s| |s m e]; try done.
  destruct (0 <=? e)%Z eqn:He; [apply Z.leb_le in He | apply Z.leb_gt in He].
  - exists (10 * Z.pos m * 2 ^ e)%Z. split; [|done].
    apply nearest_even_exact.
    rewrite !inject_Z_mult, Zpower_Qpower by done.
    change (inject_Z 10) with 10%Q. change (inject_Z 2) with 2%Q. ring.
  - exists (round_half_even (10 * Z.pos m) (2 ^ (- e))). split; [|done].
    assert (0 < 2 ^ (- e))%Z as Hd by (apply Z.pow_pos_nonneg; lia).
    apply (nearest_even_ext _ (inject_Z (10 * Z.pos m) / inject_Z (2 ^ (- e)))%Q);
      [|by apply nearest_even_quotient].
    rewrite inject_Z_mult, Zpower_Qpower by lia.
    change (inject_Z 10) with 10%Q. change (inject_Z 2) with 2%Q.
    rewrite Qpower_opp. field.
    apply Qpower_not_0. done.
Qed.

(** What the label is, case by case. *)
Lemma expected_label_cases sys e :
  LibraryLaws L ->
  length (known_face_names sys) = length (known_face_encodings sys) ->
  let known := known_face_encodings sys in
  (known = [] -> expected_label sys e = "Inconnu")
  /\ (known <> [] ->
      exists i d name (matched : bool),
        np_argmin (fr_face_distance known e) = Ok i
        /\ fr_face_distance known e !! i = Some d
        /\ fr_compare_faces known e (tolerance sys) !! i = Some matched
        /\ known_face_names sys !! i = Some name
        /\ expected_label sys e
           = if matched then name +:+ " (" +:+ format_1f (confidence d) +:+ "%)"
             else "Inconnu").
Proof.
  intros laws Hlen known. subst known. unfold expected_label. split.
  - by intros ->.
  - intros Hne.
    destruct (np_argmin_in_range L laws (fr_face_distance (known_face_encodings sys) e))
      as (i & Hi & Hlt).
    { intros Hnil. apply (f_equal length) in Hnil.
      rewrite (face_distance_length L laws) in Hnil. by destruct (known_face_encodings sys). }
    rewrite (face_distance_length L laws) in Hlt.
    destruct (lookup_lt_is_Some_2 (fr_face_distance (known_face_encodings sys) e) i)
      as [d Hd]; [by rewrite (face_distance_length L laws)|].
    destruct (lookup_lt_is_Some_2
                (fr_compare_faces (known_face_encodings sys) e (tolerance sys)) i)
      as [matched Hm]; [by rewrite (compare_faces_length L laws)|].
    destruct (lookup_lt_is_Some_2 (known_face_names sys) i) as [name Hn]; [by rewrite Hlen|].
    exists i, d, name, matched. rewrite Hi, Hd, Hm, Hn.
    destruct (known_face_encodings sys); [done|]. by destruct matched.
Qed.

(** One pass of the loop body appends the expected label. *)
Lemma name_face_run sys e face_names :
  LibraryLaws L ->
  length (known_face_names sys) = length (known_face_encodings sys) ->
  name_face sys e face_names = (Ok tt, face_names ++ [expected_label sys e]).
Proof.
  intros laws Hlen. destruct (expected_label_cases sys e laws Hlen) as [Hnil Hcons].
  unfold name_face. destruct (known_face_encodings sys) as [|k ks] eqn:Hknown.
  - by rewrite Hnil.
  - destruct Hcons as (i & d & name & matched & Hi & Hd & Hm & Hn & ->); [done|].
    unfold bind, lift_result, modify. rewrite Hi. simpl. rewrite Hm. simpl.
    destruct matched; [|done]. by rewrite Hn, Hd.
Qed.

Lemma name_faces_run sys encodings face_names :
  LibraryLaws L ->
  length (known_face_names sys) = length (known_face_encodings sys) ->
  for_each encodings (name_face sys) face_names
  = (Ok tt, face_names ++ (expected_label sys <$> encodings)).
Proof.
  intros laws Hlen. revert face_names.
  induction encodings as [|e encodings IH]; intros face_names; simpl.
  - by rewrite app_nil_r.
  - rewrite (bind_ok _ _ _ _ _ (name_face_run sys e face_names laws Hlen)).
    by rewrite IH, <- app_assoc.
Qed.

(** C1 (amended): with a registry whose two lists have equal length, every
    detected face encoding gets exactly one label, decided by the results of
    the external library alone: when the registry is non-empty and
    compare_faces, at the configured tolerance, marks the index of minimal
    face_distance as a match, the label is the known name at that index
    followed by the confidence [" (c%)"], where c is [(1 - distance) * 100],
    computed in double precision, printed with one decimal: the nearest
    tenth, the even one on a tie, with its sign; otherwise the label is
    ["Inconnu"]. *)
Theorem recognize_faces_in_frame_labels sys frame :
  LibraryLaws L ->
  length (known_face_names sys) = length (known_face_encodings sys) ->
  let small_frame := cv2_resize_quarter (cv2_cvtColor_BGR2RGB frame) in
  let detected := fr_face_encodings_at small_frame (fr_face_locations small_frame) in
  let known := known_face_encodings sys in
  exists face_names,
    recognize_faces_in_frame sys frame = Ok face_names
    /\ length face_names = length detected
    /\ forall k e, detected !! k = Some e ->
         exists label,
           face_names !! k = Some label
           /\ (known = [] -> label = "Inconnu")
           /\ (known <> [] ->
               exists i d name (matched : bool),
                 np_argmin (fr_face_distance known e) = Ok i
                 /\ fr_face_distance known e !! i = Some d
                 /\ fr_compare_faces known e (tolerance sys) !! i = Some matched
                 /\ known_face_names sys !! i = Some name
                 /\ if matched
                    then exists c,
                           label = name +:+ " (" +:+ c +:+ "%)"
                           /\ shows_one_decimal
                                (PrimFloat.mul
                                   (PrimFloat.sub (Binary64.of_Z 1) (float64 d))
                                   (Binary64.of_Z 100))
                                c
                    else label = "Inconnu").
Proof.
  intros laws Hlen small_frame detected known.
  exists (expected_label sys <$> detected). split; [|split].
  - unfold recognize_faces_in_frame. fold small_frame. fold detected.
    by rewrite name_faces_run.
  - apply length_fmap.
  - intros k e He. exists (expected_label sys e). split.
    + by rewrite list_lookup_fmap, He.
    + destruct (expected_label_cases sys e laws Hlen) as [Hnil Hcons].
      split; [exact Hnil|]. intros Hne.
      destruct (Hcons Hne) as (i & d & name & matched & Hi & Hd & Hm & Hn & Hlabel).
      exists i, d, name, matched. repeat (split; [done|]).
      destruct matched; [|done].
      exists (format_1f (confidence d)). split; [done|]. apply format_1f_shows.
Qed.

End RecognitionFacts.

(** ** utils.py: resize_image *)

Section ResizeFacts.
Local Open Scope Q_scope.

Lemma floor_below (p : Q) (F : Z) : p < inject_Z (F + 1) -> (Qfloor p <= F)%Z.
Proof.
  intros Hp. pose proof (Qfloor_le p) as Hfl.
  assert (inject_Z (Qfloor p) < inject_Z (F + 1)) as Hlt by lra.
  rewrite <- Zlt_Qlt in Hlt. lia.
Qed.

Lemma floor_above (p : Q) (F : Z) : inject_Z F <= p -> (F <= Qfloor p)%Z.
Proof.
  intros Hp. rewrite <- (Qfloor_Z F). by apply Qfloor_resp_le.
Qed.

(** The floor of a product rounded twice. *)
Lemma rounded_product_floor (p x r : Q) (d o N : Z) :
  (0 < d)%Z -> (0 < o < 2 ^ 24)%Z ->
  inject_Z d * r * inject_Z o == inject_Z N ->
  0 <= r -> inject_Z d * r <= 16777216 ->
  r * (1 - unit_roundoff) <= x -> x <= r * (1 + unit_roundoff) ->
  inject_Z d * x * (1 - unit_roundoff) <= p ->
  p <= inject_Z d * x * (1 + unit_roundoff) ->
  (Qfloor (inject_Z d * r) - 1 <= Qfloor p <= Qfloor (inject_Z d * r))%Z.
Proof.
  intros Hd Ho HN Hr HT Hxl Hxu Hpl Hpu. unfold unit_roundoff in *.
  set (T := inject_Z d * r) in *. set (F := Qfloor T).
  assert (0 < inject_Z d) as HD by (change 0 with (inject_Z 0); rewrite <- Zlt_Qlt; lia).
  assert (0 < inject_Z o) as HO by (change 0 with (inject_Z 0); rewrite <- Zlt_Qlt; lia).
  assert (inject_Z o < 16777216) as HO2
    by (change 16777216 with (inject_Z (2 ^ 24)); rewrite <- Zlt_Qlt; lia).
  pose proof (Qfloor_le T) as HF1. pose proof (Qlt_floor T) as HF2. fold F in HF1, HF2.
  assert (inject_Z d * x <= T * (1 + (1 # 9007199254740992))) as HDXu.
  { subst T. nra. }
  assert (T * (1 - (1 # 9007199254740992)) <= inject_Z d * x) as HDXl.
  { subst T. nra. }
  assert (0 <= T) as HT0 by (subst T; nra).
  split.
  - apply floor_above. fold F. unfold Z.sub. rewrite inject_Z_plus.
    change (inject_Z (- (1))) with (- (1)). lra.
  - apply floor_below.
    (* T * o = N is an integer below (F + 1) * o *)
    assert (N < (F + 1) * o)%Z as HNlt.
    { rewrite Zlt_Qlt, inject_Z_mult, <- HN. nra. }
    assert (T * inject_Z o <= inject_Z (F + 1) * inject_Z o - 1) as Hgap.
    { rewrite HN, <- inject_Z_mult.
      assert (inject_Z N <= inject_Z ((F + 1) * o + -1)) as Hle
        by (rewrite <- Zle_Qle; lia).
      rewrite inject_Z_plus in Hle. change (inject_Z (-1)) with (- (1)) in Hle. lra. }
    assert (p * inject_Z o < inject_Z (F + 1) * inject_Z o) as Hmul.
    { nra. }
    nra.
Qed.

Lemma inject_Z_pos z : (0 < z)%Z -> 0 < inject_Z z.
Proof. intros Hz. change 0 with (inject_Z 0). by rewrite <- Zlt_Qlt. Qed.

Lemma inject_Z_below z : (z < 2 ^ 24)%Z -> inject_Z z < 16777216.
Proof. intros Hz. change 16777216 with (inject_Z (2 ^ 24)). by rewrite <- Zlt_Qlt. Qed.

Context {D : Double}.

Lemma min_float_cases (a b : float) :
  (to_Q a <= to_Q b /\ Utils.min_float a b = a)
  \/ (to_Q b < to_Q a /\ Utils.min_float a b = b).
Proof.
  unfold Utils.min_float. destruct (Qle_bool (to_Q a) (to_Q b)) eqn:Hle.
  - left. split; [by apply Qle_bool_iff | done].
  - right. split; [|done]. apply Qnot_le_lt. intros H. apply Qle_bool_iff in H. congruence.
Qed.

(** The rounded ratio is within one rounding of the exact one. *)
Lemma min_float_accurate (a b : float) (A B : Q) :
  0 <= A -> 0 <= B ->
  A * (1 - unit_roundoff) <= to_Q a -> to_Q a <= A * (1 + unit_roundoff) ->
  B * (1 - unit_roundoff) <= to_Q b -> to_Q b <= B * (1 + unit_roundoff) ->
  Qmin A B * (1 - unit_roundoff) <= to_Q (Utils.min_float a b)
  /\ to_Q (Utils.min_float a b) <= Qmin A B * (1 + unit_roundoff).
Proof.
  unfold unit_roundoff. intros HA HB Hal Hau Hbl Hbu.
  destruct (min_float_cases a b) as [[Hab ->]|[Hab ->]];
    destruct (Q.min_spec A B) as [[HAB Hmin]|[HAB Hmin]]; split; lra.
Qed.

Lemma int_of_float_floor (x : float) : 0 <= to_Q x -> Utils.int_of_float x = Qfloor (to_Q x).
Proof.
  intros Hx. unfold Utils.int_of_float.
  by rewrite (proj2 (Qle_bool_iff 0 (to_Q x)) Hx).
Qed.

(** One side of the resized image. *)
Lemma within_spec (exact x : Q) :
  within exact x = true
  <-> exact * (1 - unit_roundoff) <= x /\ x <= exact * (1 + unit_roundoff).
Proof. unfold within. by rewrite andb_true_iff, !Qle_bool_iff. Qed.

Lemma resized_side (d o md N : Z) (ratio : float) (r : Q) :
  within (inject_Z d * to_Q ratio) (to_Q (mul_int d ratio)) = true ->
  (0 < d < 2 ^ 24)%Z -> (0 < o < 2 ^ 24)%Z -> (md < 2 ^ 24)%Z ->
  0 <= r -> inject_Z d * r <= inject_Z md ->
  inject_Z d * r * inject_Z o == inject_Z N ->
  r * (1 - unit_roundoff) <= to_Q ratio -> to_Q ratio <= r * (1 + unit_roundoff) ->
  tiny <= to_Q ratio -> to_Q ratio <= 1 ->
  let side := Utils.int_of_float (mul_int d ratio) in
  (Qfloor (inject_Z d * r) - 1 <= side <= Qfloor (inject_Z d * r))%Z
  /\ (side <= md)%Z.
Proof.
  intros Hrounded Hd Ho Hmd Hr HT HN Hxl Hxu Hx1 Hx2 side.
  apply within_spec in Hrounded as [Hpl Hpu].
  pose proof (inject_Z_pos d ltac:(lia)) as HD.
  pose proof (inject_Z_below md Hmd) as HMD.
  assert (0 <= to_Q (mul_int d ratio)) as Hp0.
  { unfold unit_roundoff, tiny in *.
    assert (0 <= inject_Z d * to_Q ratio).
    { apply Qmult_le_0_compat; lra. }
    lra. }
  subst side. rewrite int_of_float_floor by done.
  assert (Qfloor (inject_Z d * r) - 1 <= Qfloor (to_Q (mul_int d ratio))
          <= Qfloor (inject_Z d * r))%Z as Hfloor.
  { apply (rounded_product_floor _ (to_Q ratio) r d o N); first [done | lia | lra]. }
  split; [done|].
  assert (Qfloor (inject_Z d * r) <= md)%Z.
  { rewrite <- (Qfloor_Z md). by apply Qfloor_resp_le. }
  lia.
Qed.

(** An arithmetic under the standard model rounds to nearest on all sizes
    below 2^24. *)
Lemma laws_round_to_nearest (height width max_width max_height : Z) :
  DoubleLaws D ->
  (0 < width < 2 ^ 24)%Z -> (0 < height < 2 ^ 24)%Z ->
  (0 < max_width < 2 ^ 24)%Z -> (0 < max_height < 2 ^ 24)%Z ->
  rounded_to_nearest height width max_width max_height = true.
Proof.
  intros laws Hw Hh Hmw Hmh. unfold rounded_to_nearest.
  set (a := truediv max_width width). set (b := truediv max_height height).
  destruct (truediv_accurate D laws max_width width) as [Hal Hau]; [lia | lia |].
  destruct (truediv_accurate D laws max_height height) as [Hbl Hbu]; [lia | lia |].
  fold a in Hal, Hau. fold b in Hbl, Hbu.
  pose proof (inject_Z_pos width ltac:(lia)) as HW.
  pose proof (inject_Z_pos height ltac:(lia)) as HH.
  pose proof (inject_Z_below width ltac:(lia)) as HW2.
  pose proof (inject_Z_below height ltac:(lia)) as HH2.
  assert (1 <= inject_Z max_width) as HMW1
    by (change 1 with (inject_Z 1); rewrite <- Zle_Qle; lia).
  assert (1 <= inject_Z max_height) as HMH1
    by (change 1 with (inject_Z 1); rewrite <- Zle_Qle; lia).
  set (A := inject_Z max_width / inject_Z width) in *.
  set (B := inject_Z max_height / inject_Z height) in *.
  assert (A * inject_Z width == inject_Z max_width) as HA
    by (subst A; field; lra).
  assert (B * inject_Z height == inject_Z max_height) as HB
    by (subst B; field; lra).
  assert (1 # 16777216 <= A) as HA0 by nra.
  assert (1 # 16777216 <= B) as HB0 by nra.
  assert (Bool.eqb (Qle_bool 1 (to_Q a)) (width <=? max_width)%Z = true) as Hone_a.
  { destruct (width <=? max_width)%Z eqn:Hfit.
    - apply Z.leb_le in Hfit.
      pose proof (truediv_at_least_one D laws max_width width ltac:(lia) ltac:(lia)) as H1.
      fold a in H1. apply Qle_bool_iff in H1. by rewrite H1.
    - apply Z.leb_gt in Hfit.
      pose proof (truediv_below_one D laws max_width width ltac:(lia) ltac:(lia)) as H1.
      fold a in H1. destruct (Qle_bool 1 (to_Q a)) eqn:Hle; [|done].
      apply Qle_bool_iff in Hle. lra. }
  assert (Bool.eqb (Qle_bool 1 (to_Q b)) (height <=? max_height)%Z = true) as Hone_b.
  { destruct (height <=? max_height)%Z eqn:Hfit.
    - apply Z.leb_le in Hfit.
      pose proof (truediv_at_least_one D laws max_height height ltac:(lia) ltac:(lia))
        as H1.
      fold b in H1. apply Qle_bool_iff in H1. by rewrite H1.
    - apply Z.leb_gt in Hfit.
      pose proof (truediv_below_one D laws max_height height ltac:(lia) ltac:(lia))
        as H1.
      fold b in H1. destruct (Qle_bool 1 (to_Q b)) eqn:Hle; [|done].
      apply Qle_bool_iff in Hle. lra. }
  rewrite Hone_a, Hone_b, !andb_true_r.
  rewrite (proj2 (within_spec A (to_Q a)) (conj Hal Hau)).
  rewrite (proj2 (within_spec B (to_Q b)) (conj Hbl Hbu)).
  cbn [andb].
  destruct (Qle_bool 1 (to_Q (Utils.min_float a b))) eqn:Hratio; [done|].
  assert (to_Q (Utils.min_float a b) < 1) as Hlt.
  { apply Qnot_le_lt. intros Hle. apply Qle_bool_iff in Hle. congruence. }
  destruct (min_float_accurate a b A B) as [Hxl Hxu]; try done; try lra.
  assert (1 # 16777216 <= Qmin A B) as Hr0
    by (destruct (Q.min_spec A B) as [[_ Hmin]|[_ Hmin]]; lra).
  assert (tiny <= to_Q (Utils.min_float a b)) as Hx1.
  { unfold unit_roundoff in Hxl. unfold tiny. lra. }
  cbn [orb]. apply andb_true_intro. split; apply within_spec.
  - apply (mul_int_accurate D laws); [lia | done | lra].
  - apply (mul_int_accurate D laws); [lia | done | lra].
Qed.

(** C8 (amended): for an image and limits with positive sizes below 2^24,
    in an arithmetic whose quotients and products round to nearest on these
    sizes, as double precision does: when the width is at most max_width and
    the height at most max_height the image is returned unchanged; for every
    larger image cv2.resize is asked for new_width by new_height, where
    new_width is the floor of width*r or one less, and new_height the floor
    of height*r or one less, r being the exact
    min(max_width/width, max_height/height); so new_width is at most
    max_width and new_height at most max_height.  The result is that of
    cv2.resize when both are positive; when one of them is 0, as for an image
    much longer than wide, cv2.resize raises and so does [resize_image]. *)
Theorem resize_image_dimensions (height width max_width max_height : Z) :
  (0 < width < 2 ^ 24)%Z -> (0 < height < 2 ^ 24)%Z ->
  (0 < max_width < 2 ^ 24)%Z -> (0 < max_height < 2 ^ 24)%Z ->
  rounded_to_nearest height width max_width max_height = true ->
  let r := exact_ratio (height, width) max_width max_height in
  ((width <= max_width)%Z -> (height <= max_height)%Z ->
   Utils.resize_image (height, width) max_width max_height = Ok Utils.Unchanged)
  /\ ((max_width < width)%Z \/ (max_height < height)%Z ->
      exists new_width new_height,
        Utils.resize_image (height, width) max_width max_height
        = (if ((0 <? new_width) && (0 <? new_height))%Z
           then Ok (Utils.Resized new_width new_height)
           else Raise LibraryError)
        /\ (Qfloor (inject_Z width * r) - 1 <= new_width <= Qfloor (inject_Z width * r))%Z
        /\ (Qfloor (inject_Z height * r) - 1 <= new_height
            <= Qfloor (inject_Z height * r))%Z
        /\ (new_width <= max_width)%Z /\ (new_height <= max_height)%Z).
Proof.
  intros Hw Hh Hmw Hmh Hrounded r.
  unfold Utils.resize_image.
  assert ((width =? 0)%Z = false) as -> by lia.
  assert ((height =? 0)%Z = false) as -> by lia.
  unfold rounded_to_nearest in Hrounded.
  set (a := truediv max_width width) in *. set (b := truediv max_height height) in *.
  apply andb_prop in Hrounded as [Hrounded Hproducts].
  apply andb_prop in Hrounded as [Hrounded Hone_b].
  apply andb_prop in Hrounded as [Hrounded Hone_a].
  apply andb_prop in Hrounded as [Ha Hb].
  apply within_spec in Ha as [Hal Hau]. apply within_spec in Hb as [Hbl Hbu].
  apply Bool.eqb_prop in Hone_a, Hone_b.
  set (A := inject_Z max_width / inject_Z width) in *.
  set (B := inject_Z max_height / inject_Z height) in *.
  pose proof (inject_Z_pos width ltac:(lia)) as HW.
  pose proof (inject_Z_pos height ltac:(lia)) as HH.
  pose proof (inject_Z_pos max_width ltac:(lia)) as HMW.
  pose proof (inject_Z_pos max_height ltac:(lia)) as HMH.
  pose proof (inject_Z_below width ltac:(lia)) as HW2.
  pose proof (inject_Z_below height ltac:(lia)) as HH2.
  assert (A * inject_Z width == inject_Z max_width) as HA
    by (subst A; field; lra).
  assert (B * inject_Z height == inject_Z max_height) as HB
    by (subst B; field; lra).
  assert (1 <= inject_Z max_width) as HMW1
    by (change 1 with (inject_Z 1); rewrite <- Zle_Qle; lia).
  assert (1 <= inject_Z max_height) as HMH1
    by (change 1 with (inject_Z 1); rewrite <- Zle_Qle; lia).
  assert (1 # 16777216 <= A) as HA0 by nra.
  assert (1 # 16777216 <= B) as HB0 by nra.
  split.
  - intros Hfitw Hfith.
    assert (1 <= to_Q a) as Ha1.
    { apply Qle_bool_iff. rewrite Hone_a. by apply Z.leb_le. }
    assert (1 <= to_Q b) as Hb1.
    { apply Qle_bool_iff. rewrite Hone_b. by apply Z.leb_le. }
    assert (1 <= to_Q (Utils.min_float a b)) as Hratio
      by (destruct (min_float_cases a b) as [[_ ->]|[_ ->]]; done).
    apply Qle_bool_iff in Hratio. by rewrite Hratio.
  - intros Hlarge.
    assert (to_Q (Utils.min_float a b) < 1) as Hratio.
    { destruct Hlarge as [Hlw|Hlh].
      + assert (to_Q a < 1) as Ha1.
        { apply Qnot_le_lt. intros Hle. apply Qle_bool_iff in Hle.
          rewrite Hone_a in Hle. apply Z.leb_le in Hle. lia. }
        destruct (min_float_cases a b) as [[? ->]|[? ->]]; lra.
      + assert (to_Q b < 1) as Hb1.
        { apply Qnot_le_lt. intros Hle. apply Qle_bool_iff in Hle.
          rewrite Hone_b in Hle. apply Z.leb_le in Hle. lia. }
        destruct (min_float_cases a b) as [[? ->]|[? ->]]; lra. }
    assert (Qle_bool 1 (to_Q (Utils.min_float a b)) = false) as Hbelow.
    { destruct (Qle_bool 1 (to_Q (Utils.min_float a b))) eqn:Hle; [|done].
      apply Qle_bool_iff in Hle. lra. }
    rewrite Hbelow in Hproducts |- *. cbn [orb] in Hproducts.
    apply andb_prop in Hproducts as [Hpw Hph].
    simpl negb. cbv iota.
    destruct (min_float_accurate a b A B) as [Hxl Hxu]; try done; try lra.
    set (ratio := Utils.min_float a b) in *.
    change (exact_ratio (height, width) max_width max_height) with (Qmin A B) in r.
    assert (1 # 16777216 <= r) as Hr0
      by (subst r; destruct (Q.min_spec A B) as [[_ Hmin]|[_ Hmin]]; lra).
    assert (tiny <= to_Q ratio) as Hx1.
    { unfold unit_roundoff in Hxl. unfold tiny. fold r in Hxl. lra. }
    assert (inject_Z width * r <= inject_Z max_width) as HTw.
    { assert (r <= A) by (subst r; destruct (Q.min_spec A B) as [[? Hmin]|[? Hmin]]; lra).
      nra. }
    assert (inject_Z height * r <= inject_Z max_height) as HTh.
    { assert (r <= B) by (subst r; destruct (Q.min_spec A B) as [[? Hmin]|[? Hmin]]; lra).
      nra. }
    assert (exists N, inject_Z width * r * inject_Z height == inject_Z N) as [N HN].
    { subst r. destruct (Q.min_spec A B) as [[_ Hmin]|[_ Hmin]].
      - exists (max_width * height)%Z. rewrite inject_Z_mult, Hmin. nra.
      - exists (width * max_height)%Z. rewrite inject_Z_mult, Hmin. nra. }
    assert (inject_Z height * r * inject_Z width == inject_Z N) as HN' by lra.
    destruct (resized_side width height max_width N ratio r) as [Hnw Hnw2];
      try done; try lra; try lia.
    destruct (resized_side height width max_height N ratio r) as [Hnh Hnh2];
      try done; try lra; try lia.
    eexists _, _. split; [reflexivity|]. done.
Qed.

End ResizeFacts.

Section ArithmeticFacts.
Local Open Scope Q_scope.

Lemma exact_laws : DoubleLaws Exact.double.
Proof.
  split; simpl; unfold unit_roundoff.
  - intros a b Ha Hb.
    pose proof (inject_Z_pos b ltac:(lia)) as HB.
    assert (0 <= inject_Z a) as HA by (change 0 with (inject_Z 0); rewrite <- Zle_Qle; lia).
    assert (0 <= inject_Z a / inject_Z b) by (apply Qle_shift_div_l; lra).
    split; lra.
  - intros a b Hb Ha. pose proof (inject_Z_pos b ltac:(lia)) as HB.
    apply Qle_shift_div_l; [done|]. rewrite Qmult_1_l, <- Zle_Qle. lia.
  - intros a b Ha Hb. pose proof (inject_Z_pos b ltac:(lia)) as HB.
    apply Qlt_shift_div_r; [done|]. rewrite Qmult_1_l, <- Zlt_Qlt. lia.
  - intros w x Hw Hx1 Hx2. unfold tiny in Hx1.
    pose proof (inject_Z_pos w ltac:(lia)) as HW.
    assert (0 <= inject_Z w * x) by (apply Qmult_le_0_compat; lra).
    split; lra.
Qed.

End ArithmeticFacts.

(** ** Runs on the small instance *)

Section ToyFacts.
Import Recognition.

Lemma argmin_from_bound ds best_index best i :
  best_index < i -> Toy.argmin_from best_index best i ds < i + length ds.
Proof.
  revert best_index best i. induction ds as [|d ds IH]; intros best_index best i Hlt; simpl.
  - lia.
  - destruct (d <? best)%Z.
    + specialize (IH i d (S i)). lia.
    + specialize (IH best_index best (S i)). lia.
Qed.

Lemma toy_laws : LibraryLaws Toy.libraries.
Proof.
  split.
  - intros known e tol. simpl. apply length_map.
  - intros known e. simpl. apply length_map.
  - intros [|d ds] Hne; [done|]. exists (Toy.argmin_from 0 d 1 ds). split; [done|].
    pose proof (argmin_from_bound ds 0 d 1). simpl. lia.
Qed.

Lemma toy_pickle : PickleRoundTrip Toy.libraries.
Proof. by intros b. Qed.

End ToyFacts.

#[local] Existing Instance Toy.libraries.

(** The labels of the three faces of the frame: the first is 20 thousandths
    from Jean, the second is far from everyone, the third is 20 thousandths
    from Marie. *)
Example toy_recognition :
  Recognition.recognize_faces_in_frame Toy.system Toy.frame
  = Ok ["Jean (98.0%)"; "Inconnu"; "Marie (98.0%)"].
Proof. reflexivity. Qed.

(** C1, as stated, fails: compare_faces marks the index of minimal distance
    as a match and the known name there is Jean, yet the label is not that
    name but the name followed by the confidence. *)
Lemma label_carries_the_confidence :
  np_argmin (fr_face_distance [100%Z; 500%Z] 120%Z) = Ok 0
  /\ fr_compare_faces [100%Z; 500%Z] 120%Z 600%Z !! 0 = Some true
  /\ Recognition.known_face_names Toy.system !! 0 = Some "Jean"
  /\ Recognition.recognize_faces_in_frame Toy.system [120%Z] = Ok ["Jean (98.0%)"]
  /\ Recognition.recognize_faces_in_frame Toy.system [120%Z] <> Ok ["Jean"].
Proof. repeat split; try reflexivity. discriminate. Qed.

Lemma recognize_faces_in_frame_labels_witness :
  LibraryLaws Toy.libraries
  /\ length (Recognition.known_face_names Toy.system)
     = length (Recognition.known_face_encodings Toy.system)
  /\ exists face_names,
       Recognition.recognize_faces_in_frame Toy.system Toy.frame = Ok face_names
       /\ length face_names = 3.
Proof.
  split; [exact toy_laws|]. split; [reflexivity|].
  destruct (recognize_faces_in_frame_labels (L := Toy.libraries) Toy.system Toy.frame toy_laws eq_refl)
    as (face_names & Hrun & Hlen & _).
  exists face_names. split; [exact Hrun | exact Hlen].
Defined.

(** The confidence of a face at distance 0.02 is the double just above 98,
    which prints as 98.0; one at distance 0.975 is the double just above 2.5,
    which prints as 2.5; the double 0.25 is half way between two tenths and
    prints as the even one; and a distance above 1 gives a negative
    confidence. *)
Example confidences_with_one_decimal :
  shows_one_decimal (Recognition.confidence (L := Toy.libraries) 20%Z) "98.0"
  /\ format_1f (Recognition.confidence (L := Toy.libraries) 20%Z) = "98.0"
  /\ format_1f (Recognition.confidence (L := Toy.libraries) 975%Z) = "2.5"
  /\ format_1f (PrimFloat.div (Binary64.of_Z 1) (Binary64.of_Z 4)) = "0.2"
  /\ format_1f (PrimFloat.div (Binary64.of_Z 3) (Binary64.of_Z 4)) = "0.8"
  /\ format_1f (Recognition.confidence (L := Toy.libraries) 1005%Z) = "-0.5"
  /\ format_1f (Recognition.confidence (L := Toy.libraries) 1000%Z) = "0.0".
Proof.
  split; [|repeat apply conj; vm_compute; reflexivity].
  exists 980%Z. split; [|reflexivity]. split.
  - vm_compute. discriminate.
  - intros H. reflexivity.
Qed.

(** C2, as stated, fails: [save_encodings] writes lists of unequal length
    under the name the system reads at start-up, and initialisation then
    ends with one encoding and no name. *)
Lemma unequal_lists_after_initialisation :
  let saved := Utils.save_encodings [100%Z] [] ["face_encodings.pkl"] Toy.start in
  let loaded := Recognition.init ["known_faces"] 600%Z saved.2 in
  saved.1 = Ok tt
  /\ loaded.1 = Ok tt
  /\ Recognition.known_face_encodings (Recognition.self loaded.2) = [100%Z]
  /\ Recognition.known_face_names (Recognition.self loaded.2) = [].
Proof. vm_compute. repeat split; reflexivity. Qed.

Lemma registry_lists_and_blobs_witness :
  length (Recognition.known_face_encodings (Recognition.self Toy.session))
  = length (Recognition.known_face_names (Recognition.self Toy.session))
  /\ length (Recognition.known_face_encodings
               (Recognition.self (Recognition.encode_known_faces Toy.session).2))
     = length (Recognition.known_face_names
                 (Recognition.self (Recognition.encode_known_faces Toy.session).2)).
Proof.
  split; [reflexivity|].
  destruct (registry_lists_and_blobs (L := Toy.libraries)) as [Hscan _].
  destruct (Hscan Toy.session eq_refl) as [Hlen _]. exact Hlen.
Defined.

Lemma load_known_faces_uses_the_file_as_cache_witness :
  path_exists (fs Toy.start) ["face_encodings.pkl"] = false
  /\ resolve (fs Toy.start) ["known_faces"] = Found Toy.known_faces
  /\ Recognition.known_face_encodings
       (Recognition.self (Recognition.load_known_faces Toy.session).2)
     = [100%Z; 500%Z]
  /\ Recognition.known_face_names
       (Recognition.self (Recognition.load_known_faces Toy.session).2)
     = ["Jean"; "Marie"].
Proof.
  split; [reflexivity|]. split; [reflexivity|].
  destruct (load_known_faces_uses_the_file_as_cache (L := Toy.libraries) ["known_faces"] 600%Z Toy.start)
    as [_ Habsent].
  destruct (Habsent eq_refl) as [Hscan _].
  exact (Hscan _ eq_refl).
Defined.

(** C4, as stated, fails: [load_image] raises a ValueError it builds itself
    when cv2 cannot read the file. *)
Lemma load_image_raises_its_own_error :
  Utils.imread (fs Toy.start) ["missing.jpg"] = None
  /\ (Utils.load_image ["missing.jpg"] Toy.start).1
     = Raise (FromRepository ValueError "Impossible de charger l'image: missing.jpg").
Proof. split; reflexivity. Qed.

Lemma scan_errors_are_caught_and_printed_witness :
  has_image_suffix "broken.PNG" = true
  /\ faces_in (File Toy.Junk) = Raise LibraryError
  /\ exists s1,
       Recognition.encode_image "Jean" ("broken.PNG", File Toy.Junk) Toy.session
       = (Ok tt, s1)
       /\ Recognition.self s1 = Recognition.self Toy.session
       /\ fs (Recognition.env s1) = fs (Recognition.env Toy.session)
       /\ console (Recognition.env s1)
          = console (Recognition.env Toy.session)
            ++ [ErrorWith "broken.PNG" (FromLibrary LibraryError)].
Proof.
  split; [reflexivity|]. split; [reflexivity|].
  destruct (scan_errors_are_caught_and_printed (L := Toy.libraries)) as [Hcaught _].
  destruct (Hcaught "Jean" "broken.PNG" (@File Toy.libraries Toy.Junk) LibraryError []
              Toy.session
              eq_refl eq_refl) as (s1 & Hrun & Hself & Hfs & Hout & _).
  exists s1. repeat split; assumption.
Defined.

Lemma encode_known_faces_scans_subdirectories_witness :
  resolve (fs (Recognition.env Toy.session))
    (Recognition.known_faces_dir (Recognition.self Toy.session))
  = Found Toy.known_faces
  /\ Recognition.known_face_encodings
       (Recognition.self (Recognition.encode_known_faces Toy.session).2)
     = [100%Z; 500%Z]
  /\ Recognition.known_face_names
       (Recognition.self (Recognition.encode_known_faces Toy.session).2)
     = ["Jean"; "Marie"].
Proof.
  split; [reflexivity|].
  exact (encode_known_faces_scans_subdirectories (L := Toy.libraries) Toy.session _ eq_refl).
Defined.

Lemma load_encodings_after_save_witness :
  PickleRoundTrip Toy.libraries
  /\ let saved := Utils.save_encodings [100%Z; 500%Z] ["Jean"; "Marie"]
                    ["face_encodings.pkl"] Toy.start in
     saved.1 = Ok tt
     /\ exists data,
          Utils.load_encodings ["face_encodings.pkl"] saved.2 = (Ok data, saved.2)
          /\ dom data = ({["encodings"; "names"]} : gset string)
          /\ data !! "encodings" = Some (PyEncodings [100%Z; 500%Z])
          /\ data !! "names" = Some (PyNames ["Jean"; "Marie"]).
Proof.
  split; [exact toy_pickle|]. split; [reflexivity|].
  destruct (load_encodings_after_save (L := Toy.libraries) [100%Z; 500%Z]
              ["Jean"; "Marie"] ["face_encodings.pkl"] Toy.start toy_pickle)
    as [Hround _].
  apply Hround. reflexivity.
Defined.



(** A name of two parts whose first is not there: the person's directory
    cannot be made, and the call raises before it copies. *)
Example add_from_file_below_a_missing_directory :
  let run := Registration.add_from_file Toy.registration "Paul/2024"
               ["known_faces"; "Jean"; "photo1.jpg"] Toy.start in
  run.1 = Raise (FromLibrary FileNotFoundError) /\ fs run.2 = fs Toy.start.
Proof. split; reflexivity. Qed.

(** An empty name: the photo goes into the known-faces directory itself. *)
Example add_from_file_with_an_empty_name :
  let run := Registration.add_from_file Toy.registration ""
               ["known_faces"; "Jean"; "photo1.jpg"] Toy.start in
  run.1 = Ok true
  /\ resolve (fs run.2) ["known_faces"; "photo1.jpg"]
     = Found (File (Toy.Picture [100%Z; 900%Z])).
Proof. split; reflexivity. Qed.

Lemma mosaic_blocks_within_grid_witness :
  let images : list (list Z) := [[1%Z]; [2%Z]; [3%Z]; [4%Z]; [5%Z]] in
  images <> []
  /\ (5 <= Utils.mosaic_rows 5 * Utils.mosaic_cols 5)%Z
  /\ exists m, Utils.build_mosaic (L := Toy.libraries) images = Some (Ok tt, m)
               /\ Utils.height m = 400%Z /\ Utils.width m = 600%Z.
Proof.
  split; [discriminate|].
  destruct (mosaic_blocks_within_grid (L := Toy.libraries)
              [[1%Z]; [2%Z]; [3%Z]; [4%Z]; [5%Z]]) as (Hcover & _ & m & Hrun & Hh & Hw & _);
    [discriminate|].
  split; [exact Hcover|]. exists m. split; [exact Hrun|]. split; [exact Hh | exact Hw].
Defined.

(** A zero width or height stops [resize_image] at the division. *)
Lemma resize_image_empty {D : Double} height max_width max_height :
  Utils.resize_image (height, 0%Z) max_width max_height = Raise ZeroDivisionError.
Proof. reflexivity. Qed.

(** C8, as stated, fails: for a 1078 by 600 image and the default limits the
    exact ratio is 800/1078 and the floor of width*r is 800, but the code,
    in double precision, asks for a width of 799. *)
Lemma resize_image_rounds_below_the_floor :
  Utils.resize_image (D := Binary64.double) (600, 1078)%Z 800 600
  = Ok (Utils.Resized 799 445)
  /\ Qfloor (inject_Z 1078 * exact_ratio (600, 1078)%Z 800 600) = 800%Z
  /\ Qfloor (inject_Z 600 * exact_ratio (600, 1078)%Z 800 600) = 445%Z.
Proof. vm_compute. repeat split; reflexivity. Qed.

(** On the interpreter's doubles, for the image of the counterexample: the
    operations round to nearest there, and the width that is asked for is one
    less than the floor of the exact product. *)
Lemma resize_image_dimensions_witness :
  (0 < 1078 < 2 ^ 24)%Z /\ (0 < 600 < 2 ^ 24)%Z /\ (0 < 800 < 2 ^ 24)%Z
  /\ rounded_to_nearest (D := Binary64.double) 600 1078 800 600 = true
  /\ (800 < 1078)%Z
  /\ exists new_width new_height,
       Utils.resize_image (D := Binary64.double) (600, 1078)%Z 800 600
       = Ok (Utils.Resized new_width new_height)
       /\ new_width
          = (Qfloor (inject_Z 1078 * exact_ratio (600, 1078)%Z 800 600) - 1)%Z
       /\ new_height = Qfloor (inject_Z 600 * exact_ratio (600, 1078)%Z 800 600)
       /\ (new_width <= 800)%Z /\ (new_height <= 600)%Z.
Proof.
  assert (rounded_to_nearest (D := Binary64.double) 600 1078 800 600 = true) as Hrounded
    by (vm_compute; reflexivity).
  split; [lia|]. split; [lia|]. split; [lia|]. split; [exact Hrounded|].
  split; [lia|].
  destruct (resize_image_dimensions (D := Binary64.double) 600 1078 800 600)
    as [_ Hlarge]; [lia | lia | lia | lia | exact Hrounded |].
  destruct Hlarge as (new_width & new_height & Hrun & _ & _ & Hw & Hh); [lia|].
  assert (Utils.resize_image (D := Binary64.double) (600, 1078)%Z 800 600
          = Ok (Utils.Resized 799 445)) as Hvalue by (vm_compute; reflexivity).
  rewrite Hvalue in Hrun.
  destruct ((0 <? new_width) && (0 <? new_height))%Z; [|discriminate Hrun].
  injection Hrun as <- <-.
  exists 799%Z, 445%Z. split; [exact Hvalue|].
  split; [vm_compute; reflexivity|]. split; [vm_compute; reflexivity|].
  split; [exact Hw | exact Hh].
Defined.

(** An image of 5000 rows and one column: the width asked for is 0, and
    cv2.resize raises. *)
Example resize_image_of_a_thin_image :
  Utils.resize_image (D := Binary64.double) (5000, 1)%Z 800 600 = Raise LibraryError
  /\ rounded_to_nearest (D := Binary64.double) 5000 1 800 600 = true
  /\ Qfloor (inject_Z 1 * exact_ratio (5000, 1)%Z 800 600) = 0%Z.
Proof. repeat apply conj; vm_compute; reflexivity. Qed.

(** The grid of [create_face_mosaic] as the interpreter computes it, in
    double precision, is the integer grid of the model for every list of up
    to 4096 images. *)
Lemma mosaic_grid_as_computed :
  forallb (fun n => (Binary64.mosaic_cols n =? Utils.mosaic_cols n)%Z
                    && (Binary64.mosaic_rows n =? Utils.mosaic_rows n)%Z)
    (seqZ 1 4096) = true.
Proof. vm_compute. reflexivity. Qed.

(** The primitive doubles behave as the specification allows on every
    width up to 4096 at height 600, and on every height up to 4096 at width
    800, with the default limits. *)
Lemma resize_image_on_doubles :
  forallb (fun width => resized_as_specified 600 width 800 600) (seqZ 1 4096)
  && forallb (fun height => resized_as_specified height 800 800 600) (seqZ 1 4096)
  = true.
Proof. vm_compute. reflexivity. Qed.

(** * Part III: more of the code *)

(** ** The file system, continued *)

Section FileSystemMoreFacts.
Context {L : Libraries}.

Lemma alist_find_elem k n es : alist_find k es = Some n -> (k, n) ∈ es.
Proof.
  induction es as [|[k' n'] es IH]; simpl; [done|].
  destruct (String.eqb k k') eqn:E.
  - apply String.eqb_eq in E. intros [= ->]. subst. left.
  - intros H. right. by apply IH.
Qed.

(** What is found below a directory is one of its entries. *)
Lemma resolve_child_elem root p c n :
  resolve root (p ++ [c]) = Found n ->
  exists es, resolve root p = Found (Dir es) /\ (c, n) ∈ es.
Proof.
  rewrite resolve_app. destruct (resolve root p) as [[|es]| |]; simpl; try done.
  destruct (alist_find c es) as [n'|] eqn:Hfind; [|done].
  intros [= ->]. exists es. split; [done|]. by apply alist_find_elem.
Qed.

(** Writing a file leaves every other file as it was. *)
Lemma store_file_keeps_others root p x root' q c :
  store root p (File x) = Ok root' ->
  (forall es, resolve root p <> Found (Dir es)) ->
  q <> p ->
  resolve root q = Found (File c) -> resolve root' q = Found (File c).
Proof.
  revert root root' q. induction p as [|k p IH]; intros root root' q; simpl.
  - intros [= <-] Hnd Hne. destruct root as [c0|es]; [|by destruct (Hnd es)].
    destruct q; [done|]. done.
  - destruct root as [|es]; [done|].
    destruct (alist_find k es) as [child|] eqn:Hfind.
    + destruct (store child p (File x)) as [child'|] eqn:Hchild; [|done].
      intros [= <-] Hnd Hne. destruct q as [|k2 q]; simpl; [done|].
      destruct (decide (k = k2)) as [<-|Hk].
      * rewrite Hfind, alist_find_set_eq. apply IH; [done|done|congruence].
      * by rewrite alist_find_set_ne.
    + destruct p; [|done]. intros [= <-] _ Hne.
      destruct q as [|k2 q]; simpl; [done|].
      destruct (decide (k = k2)) as [<-|Hk].
      * by rewrite Hfind.
      * by rewrite alist_find_set_ne.
Qed.

Lemma write_file_keeps_others root p x root' q c :
  write_file root p x = Ok root' -> q <> p ->
  resolve root q = Found (File c) -> resolve root' q = Found (File c).
Proof.
  unfold write_file. intros Hwrite Hne Hq.
  destruct (resolve root p) as [[c0|es]| |] eqn:Hp; try done.
  - apply (store_file_keeps_others root p x); try done. by rewrite Hp.
  - apply (store_file_keeps_others root p x); try done. by rewrite Hp.
Qed.

Lemma resolve_after_write root p x root' :
  write_file root p x = Ok root' -> resolve root' p = Found (File x).
Proof.
  unfold write_file. intros H. apply resolve_store with root.
  by destruct (resolve root p) as [[|]| |].
Qed.

(** Writing a file adds no other file. *)
Lemma store_file_adds_only root p x root' q c :
  store root p (File x) = Ok root' ->
  (forall es, resolve root p <> Found (Dir es)) ->
  q <> p ->
  resolve root' q = Found (File c) -> resolve root q = Found (File c).
Proof.
  revert root root' q. induction p as [|k p IH]; intros root root' q; simpl.
  - intros [= <-] Hnd Hne. destruct root as [c0|es]; [|by destruct (Hnd es)].
    destruct q; [done|]. done.
  - destruct root as [|es]; [done|].
    destruct (alist_find k es) as [child|] eqn:Hfind.
    + destruct (store child p (File x)) as [child'|] eqn:Hchild; [|done].
      intros [= <-] Hnd Hne. destruct q as [|k2 q]; simpl; [done|].
      destruct (decide (k = k2)) as [<-|Hk].
      * rewrite Hfind, alist_find_set_eq. apply IH; [done|done|congruence].
      * by rewrite alist_find_set_ne.
    + destruct p; [|done]. intros [= <-] _ Hne.
      destruct q as [|k2 q]; simpl; [done|].
      destruct (decide (k = k2)) as [<-|Hk].
      * rewrite alist_find_set_eq. destruct q; [by destruct Hne|done].
      * by rewrite alist_find_set_ne.
Qed.

Lemma write_file_adds_only root p x root' q c :
  write_file root p x = Ok root' -> q <> p ->
  resolve root' q = Found (File c) -> resolve root q = Found (File c).
Proof.
  unfold write_file. intros Hwrite Hne Hq.
  destruct (resolve root p) as [[c0|es]| |] eqn:Hp; try done.
  - apply (store_file_adds_only root p x root'); try done. by rewrite Hp.
  - apply (store_file_adds_only root p x root'); try done. by rewrite Hp.
Qed.

(** Storing where no directory stands keeps every directory. *)
Lemma store_keeps_dirs root p new root' q :
  store root p new = Ok root' ->
  (forall es, resolve root p <> Found (Dir es)) ->
  is_dir root q = true -> is_dir root' q = true.
Proof.
  unfold is_dir. revert root root' q. induction p as [|k p IH]; intros root root' q; simpl.
  - intros [= <-] Hnd. destruct root as [c0|es]; [|by destruct (Hnd es)].
    by destruct q.
  - destruct root as [|es]; [done|].
    destruct (alist_find k es) as [child|] eqn:Hfind.
    + destruct (store child p new) as [child'|] eqn:Hchild; [|done].
      intros [= <-] Hnd. destruct q as [|k2 q]; simpl; [done|].
      destruct (decide (k = k2)) as [<-|Hk].
      * rewrite Hfind, alist_find_set_eq. by apply IH.
      * by rewrite alist_find_set_ne.
    + destruct p; [|done]. intros [= <-] _.
      destruct q as [|k2 q]; simpl; [done|].
      destruct (decide (k = k2)) as [<-|Hk].
      * by rewrite Hfind.
      * by rewrite alist_find_set_ne.
Qed.

(** Nothing is stored below what is not a directory. *)
Lemma store_parent_dir root p c new root' :
  store root (p ++ [c]) new = Ok root' -> is_dir root p = true.
Proof.
  unfold is_dir. revert root root'. induction p as [|k p IH]; intros root root'; simpl.
  - by destruct root.
  - destruct root as [|es]; [done|].
    destruct (alist_find k es) as [child|] eqn:Hfind.
    + destruct (store child (p ++ [c]) new) as [child'|] eqn:Hchild; [|done].
      intros _. by apply IH with child'.
    + by destruct p.
Qed.

(** Writing to a file what it holds changes nothing. *)
Lemma alist_set_same k n es : alist_find k es = Some n -> alist_set k n es = es.
Proof.
  induction es as [|[k' n'] es IH]; simpl; [done|].
  destruct (String.eqb k k') eqn:E.
  - apply String.eqb_eq in E. by intros [= ->]; subst.
  - intros H. by rewrite IH.
Qed.

Lemma store_same root p n : resolve root p = Found n -> store root p n = Ok root.
Proof.
  revert root. induction p as [|k p IH]; intros root; simpl.
  - by intros [= ->].
  - destruct root as [|es]; [done|].
    destruct (alist_find k es) as [child|] eqn:Hfind; [|done].
    intros Hchild. rewrite (IH _ Hchild). by rewrite alist_set_same.
Qed.

End FileSystemMoreFacts.

(** ** register_face.py, continued *)

Section RegistrationMore.
Context {L : Libraries}.

(** Every way the constructor can run. *)
Lemma registration_init_run dir w :
  Registration.init dir w
  = match mkdir_exist_ok (fs w) dir with
    | Ok root' =>
        (Ok {| Registration.known_faces_dir := dir |},
         {| fs := root'; console := console w |})
    | Raise t => (Raise (FromLibrary t), w)
    end.
Proof.
  unfold Registration.init, bind, world_update. by destruct (mkdir_exist_ok _ _).
Qed.

(** X1: the constructor of [FaceRegistration] returns exactly when the
    known-faces directory is a directory already or can be created in an
    existing parent directory.  When it returns, the directory is there,
    nothing was printed, every regular file is where it was with its content
    and no file was added; an existing directory leaves the tree as it was.  A
    regular file under that name raises FileExistsError, a parent that is not
    a directory raises too, and a raise leaves the world untouched. *)
Theorem registration_init_creates_the_directory dir w :
  (forall reg w',
      Registration.init dir w = (Ok reg, w') ->
      Registration.known_faces_dir reg = dir
      /\ is_dir (fs w') dir = true
      /\ console w' = console w
      /\ (forall q c, resolve (fs w') q = Found (File c) <-> resolve (fs w) q = Found (File c))
      /\ (is_dir (fs w) dir = true -> fs w' = fs w))
  /\ (forall parent c,
        dir = parent ++ [c] -> is_dir (fs w) parent = true ->
        is_file (fs w) dir = false ->
        exists reg w', Registration.init dir w = (Ok reg, w'))
  /\ (is_file (fs w) dir = true ->
      Registration.init dir w = (Raise (FromLibrary FileExistsError), w))
  /\ (forall parent c,
        dir = parent ++ [c] -> is_dir (fs w) parent = false ->
        exists t, Registration.init dir w = (Raise (FromLibrary t), w)).
Proof.
  split; [|split; [|split]].
  - intros reg w'. rewrite registration_init_run.
    destruct (mkdir_exist_ok (fs w) dir) as [root'|t] eqn:Hmk; [|done].
    intros [= <- <-]. simpl. unfold mkdir_exist_ok in Hmk.
    destruct (resolve (fs w) dir) as [[c|es]| |] eqn:Hdir; try done.
    + injection Hmk as <-. unfold is_dir. rewrite Hdir. done.
    + repeat split; try done.
      * unfold is_dir. by rewrite (resolve_store _ _ _ _ Hmk).
      * by apply mkdir_adds_no_file with dir.
      * by apply store_keeps_files with dir (Dir []).
      * unfold is_dir. by rewrite Hdir.
  - intros parent c -> Hparent Hfile. rewrite registration_init_run.
    destruct (mkdir_exist_ok_child (fs w) parent c Hparent Hfile) as (root' & -> & _).
    eauto.
  - intros Hfile. rewrite registration_init_run. unfold mkdir_exist_ok.
    unfold is_file in Hfile. by destruct (resolve (fs w) dir) as [[c|es]| |].
  - intros parent c -> Hparent. rewrite registration_init_run. unfold mkdir_exist_ok.
    destruct (resolve (fs w) (parent ++ [c])) as [[c0|es]| |] eqn:Hdir; eauto.
    + destruct (resolve_parent _ _ _ _ Hdir) as [es' Hes'].
      unfold is_dir in Hparent. by rewrite Hes' in Hparent.
    + destruct (store (fs w) (parent ++ [c]) (Dir [])) as [root'|t] eqn:Hstore; eauto.
      by rewrite (store_parent_dir _ _ _ _ _ Hstore) in Hparent.
Qed.

(** The run of [add_from_file] that copies. *)
Lemma add_from_file_run reg person_name image_path c w :
  let person_dir := joinpath (Registration.known_faces_dir reg) person_name in
  let destination := joinpath person_dir (name image_path) in
  resolve (fs w) image_path = Found (File c) ->
  is_component (name image_path) = true ->
  is_dir (fs w) person_dir = true
  \/ (path_exists (fs w) person_dir = false
      /\ is_dir (fs w) (parent person_dir) = true) ->
  is_dir (fs w) destination = false ->
  image_path <> destination ->
  exists root1 root2,
    mkdir_exist_ok (fs w) person_dir = Ok root1
    /\ write_file root1 destination c = Ok root2
    /\ Registration.add_from_file reg person_name image_path w
       = (Ok true, {| fs := root2; console := console w ++ [ImageAdded destination] |}).
Proof.
  intros person_dir destination Hsrc Hname Hperson Hdest Hne.
  destruct (mkdir_exist_ok_possible (fs w) person_dir Hperson)
    as (root1 & Hmkdir & Hfiles & Hcase).
  assert (destination = person_dir ++ [name image_path]) as Hjoin
    by (by apply joinpath_component).
  assert (exists es, resolve root1 person_dir = Found (Dir es)) as [es Hes].
  { destruct Hcase as [[-> Hold]|Hnew]; eauto. }
  assert (is_dir root1 destination = false) as Hdest1.
  { destruct Hcase as [[-> _]|Hnew]; [done|].
    unfold is_dir. by rewrite Hjoin, resolve_app, Hnew. }
  rewrite Hjoin in Hdest1.
  destruct (write_file_child root1 person_dir es (name image_path) c Hes Hdest1)
    as (root2 & Hwrite & Hcopied).
  rewrite <- Hjoin in Hwrite, Hcopied, Hdest1.
  exists root1, root2. split; [done|]. split; [done|].
  unfold Registration.add_from_file, bind, gets, world_update. simpl.
  unfold path_exists. rewrite Hsrc. simpl. fold person_dir. rewrite Hmkdir.
  simpl. fold destination.
  rewrite (shutil_copy_file root1 image_path destination c) by auto.
  by rewrite Hwrite.
Qed.

Lemma mkdir_exist_ok_files root p root' q c :
  mkdir_exist_ok root p = Ok root' ->
  resolve root' q = Found (File c) <-> resolve root q = Found (File c).
Proof.
  unfold mkdir_exist_ok. intros Hmk.
  destruct (resolve root p) as [[c0|es]| |] eqn:Hp; try done.
  - by injection Hmk as <-.
  - split; [by apply mkdir_adds_no_file with p | by apply store_keeps_files with p (Dir [])].
Qed.

(** X2: a copying [add_from_file] changes one file only.  The source is a
    regular file with a proper last component, [person_name] a relative name
    without a [..] part, the person's directory
    [known_faces_dir / person_name] is a directory or is absent with a
    directory as its parent, and the destination is neither a directory nor
    the source.  After the call the destination holds the content of the
    source, the source is still there with its content, and any other path is
    a regular file with some content exactly when it was before: nothing else
    is overwritten, removed or added.  One line is printed. *)
Theorem add_from_file_touches_only_the_destination
    (reg : Registration.FaceRegistration) (person_name : string)
    (image_path : path) (c : content) (w : world) :
  let person_dir := joinpath (Registration.known_faces_dir reg) person_name in
  let destination := joinpath person_dir (name image_path) in
  resolve (fs w) image_path = Found (File c) ->
  is_component (name image_path) = true ->
  below person_name = true ->
  is_dir (fs w) person_dir = true
  \/ (path_exists (fs w) person_dir = false
      /\ is_dir (fs w) (parent person_dir) = true) ->
  is_dir (fs w) destination = false ->
  image_path <> destination ->
  exists w',
    Registration.add_from_file reg person_name image_path w = (Ok true, w')
    /\ resolve (fs w') destination = Found (File c)
    /\ resolve (fs w') image_path = Found (File c)
    /\ (forall q x, q <> destination ->
          resolve (fs w') q = Found (File x) <-> resolve (fs w) q = Found (File x))
    /\ console w' = console w ++ [ImageAdded destination].
Proof.
  intros person_dir destination Hsrc Hname _ Hperson Hdest Hne.
  destruct (add_from_file_run reg person_name image_path c w)
    as (root1 & root2 & Hmkdir & Hwrite & Hrun); try done.
  fold person_dir in Hmkdir. fold destination in Hwrite, Hrun.
  assert (forall q x, q <> destination ->
            resolve root2 q = Found (File x) <-> resolve (fs w) q = Found (File x))
    as Hothers.
  { intros q x Hq. rewrite <- (mkdir_exist_ok_files _ _ _ q x Hmkdir). split.
    - by apply write_file_adds_only with destination c.
    - by apply write_file_keeps_others with destination c. }
  eexists. split; [exact Hrun|]. simpl. split; [|split; [|split]].
  - by apply resolve_after_write with root1.
  - by apply Hothers.
  - done.
  - done.
Qed.

End RegistrationMore.

(** ** From a registered photo to the registry *)

Section RegisterThenScan.
Context {L : Libraries}.
Import Recognition.

(** Putting a leaf where no directory stands changes the existence of no
    other path. *)
Lemma store_path_exists root p new root' q :
  store root p new = Ok root' -> leaf new ->
  (forall es, resolve root p <> Found (Dir es)) ->
  q <> p ->
  path_exists root' q = path_exists root q.
Proof.
  unfold path_exists. intros Hstore Hleaf.
  assert (forall k q', resolve new (k :: q') = NotDirectory \/ resolve new (k :: q') = NoEntry)
    as Hbelow.
  { intros k q'. destruct new as [|es]; simpl; [by left|].
    simpl in Hleaf. subst es. by right. }
  clear Hleaf. revert root root' q Hstore.
  induction p as [|k p IH]; intros root root' q; simpl.
  - intros [= <-] Hnd Hne. destruct root as [c0|es]; [|by destruct (Hnd es)].
    destruct q as [|k2 q]; [done|]. by destruct (Hbelow k2 q) as [-> | ->].
  - destruct root as [|es]; [done|].
    destruct (alist_find k es) as [child|] eqn:Hfind.
    + destruct (store child p new) as [child'|] eqn:Hchild; [|done].
      intros [= <-] Hnd Hne. destruct q as [|k2 q]; simpl; [done|].
      destruct (decide (k = k2)) as [<-|Hk].
      * rewrite Hfind, alist_find_set_eq. apply IH; [done|done|congruence].
      * by rewrite alist_find_set_ne.
    + destruct p; [|done]. intros [= <-] _ Hne.
      destruct q as [|k2 q]; simpl; [done|].
      destruct (decide (k = k2)) as [<-|Hk].
      * rewrite Hfind, alist_find_set_eq. destruct q as [|k3 q]; [done|].
        by destruct (Hbelow k3 q) as [-> | ->].
      * by rewrite alist_find_set_ne.
Qed.

Lemma mkdir_exist_ok_path_exists root p root' q :
  mkdir_exist_ok root p = Ok root' -> q <> p ->
  path_exists root' q = path_exists root q.
Proof.
  unfold mkdir_exist_ok. intros Hmk Hne.
  destruct (resolve root p) as [[c0|es]| |] eqn:Hp; try done.
  - by injection Hmk as <-.
  - apply (store_path_exists root p (Dir [])); try done. by rewrite Hp.
Qed.

Lemma write_file_path_exists root p x root' q :
  write_file root p x = Ok root' -> q <> p ->
  path_exists root' q = path_exists root q.
Proof.
  unfold write_file. intros Hwrite Hne.
  destruct (resolve root p) as [[c0|es]| |] eqn:Hp; try done.
  - apply (store_path_exists root p (File x)); try done. by rewrite Hp.
  - apply (store_path_exists root p (File x)); try done. by rewrite Hp.
Qed.

Lemma mkdir_exist_ok_keeps_dirs root p root' q :
  mkdir_exist_ok root p = Ok root' -> is_dir root q = true -> is_dir root' q = true.
Proof.
  unfold mkdir_exist_ok. intros Hmk.
  destruct (resolve root p) as [[c0|es]| |] eqn:Hp; try done.
  - by injection Hmk as <-.
  - apply (store_keeps_dirs root p (Dir [])); try done. by rewrite Hp.
Qed.

Lemma write_file_keeps_dirs root p x root' q :
  write_file root p x = Ok root' -> is_dir root q = true -> is_dir root' q = true.
Proof.
  unfold write_file. intros Hwrite.
  destruct (resolve root p) as [[c0|es]| |] eqn:Hp; try done.
  - apply (store_keeps_dirs root p (File x)); try done. by rewrite Hp.
  - apply (store_keeps_dirs root p (File x)); try done. by rewrite Hp.
Qed.

(** What the scan of a list of entries registers. *)
Lemma elem_of_registry_of persons e person :
  (e, person) ∈ registry_of persons <->
  exists images file target rest,
    (person, Dir images) ∈ persons /\ (file, target) ∈ images
    /\ has_image_suffix file = true /\ faces_in target = Ok (e :: rest).
Proof.
  unfold registry_of. rewrite list_elem_of_In, in_flat_map. split.
  - intros ([person' [c|images]] & Hperson & Hin); unfold person_contribution in Hin;
      simpl in Hin; [done|].
    apply in_flat_map in Hin as ([file target] & Himage & Hin).
    unfold image_contribution in Hin. simpl in Hin.
    destruct (has_image_suffix file) eqn:Hsuffix; [|done].
    destruct (faces_in target) as [[|first rest]|] eqn:Hfaces; try done.
    destruct Hin as [[= -> ->]|[]].
    exists images, file, target, rest. by rewrite !list_elem_of_In.
  - intros (images & file & target & rest & Hperson & Himage & Hsuffix & Hfaces).
    exists (person, Dir images). split; [by apply list_elem_of_In|].
    unfold person_contribution. simpl. apply in_flat_map.
    exists (file, target). split; [by apply list_elem_of_In|].
    unfold image_contribution. simpl. rewrite Hsuffix, Hfaces. by left.
Qed.

(** A labelled encoding of a list of pairs sits at one index of both
    projections. *)
Lemma elem_of_pairs {A B} (l : list (A * B)) a b :
  (a, b) ∈ l <-> exists i, l.*1 !! i = Some a /\ l.*2 !! i = Some b /\ l !! i = Some (a, b).
Proof.
  split.
  - intros Hin. apply list_elem_of_lookup in Hin as [i Hi]. exists i.
    rewrite !list_lookup_fmap, Hi. done.
  - intros (i & _ & _ & Hi). by apply list_elem_of_lookup_2 with i.
Qed.

Lemma get_face_encoding_run image_path w :
  UtilsMore.get_face_encoding image_path w
  = (from_library
       match read_file (fs w) image_path with
       | Ok c => faces_in (File c)
       | Raise t => Raise t
       end, w).
Proof.
  unfold UtilsMore.get_face_encoding, bind, world_read, lift_result, faces_in. simpl.
  destruct (read_file (fs w) image_path) as [c|t]; simpl; [|done].
  by destruct (fr_load_image_file c).
Qed.

(** The first start on a tree without encodings file, with the known-faces
    directory in place. *)
Lemma init_scans dir tol w persons :
  path_exists (fs w) ["face_encodings.pkl"] = false ->
  resolve (fs w) dir = Found (Dir persons) ->
  exists s',
    init dir tol w = (Ok tt, s')
    /\ known_face_encodings (self s') = (registry_of persons).*1
    /\ known_face_names (self s') = (registry_of persons).*2
    /\ known_faces_dir (self s') = dir
    /\ encodings_file (self s') = ["face_encodings.pkl"]
    /\ tolerance (self s') = tol
    /\ match registry_of persons with
       | [] => fs (env s') = fs w
       | _ :: _ =>
           write_file (fs w) ["face_encodings.pkl"]
             (pickle_dump (Utils.blob (registry_of persons).*1 (registry_of persons).*2))
           = Ok (fs (env s'))
       end.
Proof.
  intros Habsent Hdir. unfold init. rewrite load_known_faces_absent by done.
  rewrite encode_known_faces_run. cbn [self env fs world_print known_faces_dir new_system].
  rewrite Hdir. cbv zeta.
  destruct (registry_of persons) as [|[e person] pairs] eqn:Hpairs.
  - eexists. split; [reflexivity|]. done.
  - destruct (resolve_directory_root _ _ _ Hdir) as [es0 Hroot].
    assert (forall x, exists root', write_file (fs w) ["face_encodings.pkl"] x = Ok root')
      as Hcan.
    { intros x. destruct (write_file_child (fs w) [] es0 "face_encodings.pkl" x)
        as (root' & Hwrite & _); eauto.
      - by rewrite Hroot.
      - unfold is_dir. unfold path_exists in Habsent. simpl app.
        by destruct (resolve (fs w) ["face_encodings.pkl"]) as [[|]| |]. }
    simpl.
    match goal with
    | |- context [write_file ?a ?b ?x] =>
        destruct (write_file a b x) as [root'|t] eqn:Hwrite;
          [|destruct (Hcan x) as [root' Hroot']; congruence]
    end.
    eexists. split; [reflexivity|]. done.
Qed.

(** X3: a photo added with [add_from_file] is in the registry at the next
    start of the recognition system, when the name given for the person
    leads to a directory directly inside the known-faces directory: it is a
    relative name of one component [person] ("Paul", and also "Paul/" or
    "./Paul").  If [get_face_encoding] finds at least one face in the photo,
    the photo's name carries an accepted extension and no encodings file is
    cached, then [add_from_file] returns True and a new
    [FaceRecognitionSystem] on the same known-faces directory returns with the
    first encoding of the photo and [person] at a common index of its two
    lists.  (An empty name, or one of several components, puts the photo
    where the scan does not look.) *)
Theorem added_photo_is_registered_at_next_start
    (reg : Registration.FaceRegistration) (person_name person : string)
    (image_path : path) (e : encoding) (rest : list encoding)
    (tol : distance) (w : world) :
  let dir := Registration.known_faces_dir reg in
  let destination := dir ++ [person] ++ [name image_path] in
  UtilsMore.get_face_encoding image_path w = (Ok (e :: rest), w) ->
  has_image_suffix (name image_path) = true ->
  is_component (name image_path) = true ->
  below person_name = true ->
  components person_name = [person] ->
  path_exists (fs w) ["face_encodings.pkl"] = false ->
  dir <> [] ->
  is_dir (fs w) dir = true ->
  is_file (fs w) (dir ++ [person]) = false ->
  is_dir (fs w) destination = false ->
  image_path <> destination ->
  exists w' s',
    Registration.add_from_file reg person_name image_path w = (Ok true, w')
    /\ init dir tol w' = (Ok tt, s')
    /\ exists i,
         known_face_encodings (self s') !! i = Some e
         /\ known_face_names (self s') !! i = Some person.
Proof.
  intros dir destination Hfaces Hsuffix Hname _ Hperson_name Habsent Hdir0 Hdir
    Hperson Hdest Hne.
  rewrite get_face_encoding_run in Hfaces. unfold read_file in Hfaces.
  destruct (resolve (fs w) image_path) as [[c|]| |] eqn:Hsrc; try done.
  assert (faces_in (File c) = Ok (e :: rest)) as Hfound.
  { destruct (faces_in (File c)); simpl in Hfaces; congruence. }
  clear Hfaces.
  subst destination. rewrite app_assoc in Hdest, Hne.
  assert (joinpath (Registration.known_faces_dir reg) person_name = dir ++ [person])
    as Hjoin1 by (unfold joinpath; by rewrite Hperson_name).
  assert (joinpath (dir ++ [person]) (name image_path)
          = (dir ++ [person]) ++ [name image_path]) as Hjoin2
    by (by apply joinpath_component).
  destruct (add_from_file_run reg person_name image_path c w)
    as (root1 & root2 & Hmkdir & Hwrite & Hrun);
    rewrite ?Hjoin1, ?Hjoin2; try done.
  { unfold is_dir, is_file, path_exists, parent in *.
    rewrite removelast_last.
    destruct (resolve (fs w) (dir ++ [person])) as [[|]| |]; try done; auto. }
  rewrite Hjoin1, Hjoin2 in *.
  assert (length dir <> 0) as Hlen by (by destruct dir).
  assert (path_exists root2 ["face_encodings.pkl"] = false) as Habsent2.
  { rewrite (write_file_path_exists _ _ _ _ _ Hwrite),
      (mkdir_exist_ok_path_exists _ _ _ _ Hmkdir); [done| |].
    - intros Heq. apply (f_equal length) in Heq. rewrite length_app in Heq.
      simpl in Heq. lia.
    - intros Heq. apply (f_equal length) in Heq. rewrite !length_app in Heq.
      simpl in Heq. lia. }
  pose proof (resolve_after_write _ _ _ _ Hwrite) as Hcopied.
  apply resolve_child_elem in Hcopied as (images & Himages & Himage).
  apply resolve_child_elem in Himages as (persons & Hpersons & Hentry).
  set (w' := {| fs := root2;
                console := console w ++ [ImageAdded ((dir ++ [person]) ++ [name image_path])] |}).
  destruct (init_scans dir tol w' persons Habsent2 Hpersons)
    as (s' & Hinit & Hes & Hns & _).
  exists w', s'. split; [exact Hrun|]. split; [exact Hinit|].
  assert ((e, person) ∈ registry_of persons) as Hin.
  { apply elem_of_registry_of. by exists images, (name image_path), (File c), rest. }
  apply elem_of_pairs in Hin as (i & Hi1 & Hi2 & _).
  exists i. by rewrite Hes, Hns.
Qed.

End RegisterThenScan.

(** ** The cache across starts, and re-encoding from the menu *)

Section CacheMore.
Context {L : Libraries}.
Import Recognition.

(** A start on a cached blob: the two lists come from the file. *)
Lemma init_from_cache dir tol w es ns :
  PickleRoundTrip L ->
  resolve (fs w) ["face_encodings.pkl"] = Found (File (pickle_dump (Utils.blob es ns))) ->
  exists s',
    init dir tol w = (Ok tt, s')
    /\ known_face_encodings (self s') = es
    /\ known_face_names (self s') = ns
    /\ fs (env s') = fs w.
Proof.
  intros Hpickle Hfile. destruct (blob_keys es ns) as (_ & Hes & Hns).
  by apply (load_known_faces_present
              {| self := new_system dir tol; env := w |}
              (pickle_dump (Utils.blob es ns)) (Utils.blob es ns) es ns).
Qed.

(** X4: the file [save_encodings] writes under its default name is the
    cache of the recognition system.  After a completed save of any two
    lists, of equal lengths or not, a new [FaceRecognitionSystem] returns with
    exactly these two lists as its registry, whatever the known-faces
    directory holds, and writes nothing. *)
Theorem saved_encodings_are_the_registry_at_next_start
    (es : list encoding) (ns : list string) (dir : path) (tol : distance)
    (w w' : world) :
  PickleRoundTrip L ->
  Utils.save_encodings es ns ["face_encodings.pkl"] w = (Ok tt, w') ->
  exists s',
    init dir tol w' = (Ok tt, s')
    /\ known_face_encodings (self s') = es
    /\ known_face_names (self s') = ns
    /\ fs (env s') = fs w'.
Proof.
  intros Hpickle. rewrite save_encodings_run.
  destruct (write_file _ _ _) as [root'|t] eqn:Hwrite; [|done].
  intros [= <-]. apply init_from_cache; [done|].
  cbn [fs]. by apply resolve_after_write with (fs w).
Qed.

(** A first start without known-faces directory: the registry stays empty,
    and the directory is created when it can be. *)
Lemma init_without_directory dir tol w :
  path_exists (fs w) ["face_encodings.pkl"] = false ->
  (forall persons, resolve (fs w) dir <> Found (Dir persons)) ->
  let s' := (init dir tol w).2 in
  known_face_encodings (self s') = [] /\ known_face_names (self s') = []
  /\ (fs (env s') = fs w
      \/ (resolve (fs w) dir = NoEntry /\ store (fs w) dir (Dir []) = Ok (fs (env s')))).
Proof.
  intros Habsent Hdir. unfold init. rewrite load_known_faces_absent by done.
  rewrite encode_known_faces_run. cbn [self env fs world_print known_faces_dir new_system].
  unfold mkdir_exist_ok.
  destruct (resolve (fs w) dir) as [[c|persons]| |] eqn:Hres; cbv zeta.
  - simpl. auto.
  - by destruct (Hdir persons).
  - destruct (store (fs w) dir (Dir [])) as [root'|t] eqn:Hstore; simpl; auto.
  - simpl. auto.
Qed.

(** A load that finds a directory under the name of the encodings file. *)
Lemma load_known_faces_on_directory s es :
  resolve (fs (env s)) (encodings_file (self s)) = Found (Dir es) ->
  self (load_known_faces s).2 = self s.
Proof.
  destruct s as [[dir tol es0 ns0 file] [root out]]. simpl. intros Hfile.
  unfold load_known_faces, bind, gets, path_exists, in_world, world_read, read_file.
  simpl. rewrite Hfile. simpl. rewrite Hfile. simpl. done.
Qed.

Lemma init_on_directory dir tol w es :
  resolve (fs w) ["face_encodings.pkl"] = Found (Dir es) ->
  let s' := (init dir tol w).2 in
  known_face_encodings (self s') = [] /\ known_face_names (self s') = [].
Proof.
  intros Hfile. unfold init. simpl.
  by rewrite (load_known_faces_on_directory
                {| self := new_system dir tol; env := w |} es Hfile).
Qed.

(** X5: starting the system a second time gives the registry of the first
    start, as long as nothing else touched the files in between: the blob the
    first start wrote is read back as the two lists it had computed, and a
    first start that wrote nothing is repeated with the same outcome.  This
    holds from every state of the file system, for a pickle that reads back
    what it wrote. *)
Theorem restart_keeps_the_registry (dir : path) (tol : distance) (w : world) :
  PickleRoundTrip L ->
  let s1 := (init dir tol w).2 in
  let s2 := (init dir tol (env s1)).2 in
  known_face_encodings (self s2) = known_face_encodings (self s1)
  /\ known_face_names (self s2) = known_face_names (self s1).
Proof.
  intros Hpickle. cbv zeta.
  destruct (path_exists (fs w) ["face_encodings.pkl"]) eqn:Hpresent.
  - pose proof (load_known_faces_reads_only {| self := new_system dir tol; env := w |}
                  Hpresent) as Hfs.
    destruct (load_known_faces_depends_on_file
                {| self := new_system dir tol; env := w |}
                {| self := new_system dir tol;
                   env := env (init dir tol w).2 |}) as (_ & Hes & Hns); try done.
    simpl. unfold init. simpl in Hfs. by rewrite Hfs.
  - destruct (resolve (fs w) dir) as [[c|persons]| |] eqn:Hdir.
    + destruct (init_without_directory dir tol w Hpresent) as (Hes & Hns & Hfs);
        [by rewrite Hdir|].
      rewrite Hes, Hns. destruct Hfs as [Hfs|[Hno _]]; [|congruence].
      destruct (init_without_directory dir tol (env (init dir tol w).2)) as (-> & -> & _);
        rewrite ?Hfs, ?Hdir; done.
    + destruct (init_scans dir tol w persons Hpresent Hdir)
        as (s1 & -> & Hes & Hns & _ & _ & _ & Hfs).
      cbn [snd]. rewrite Hes, Hns.
      destruct (registry_of persons) as [|pair pairs] eqn:Hpairs.
      * destruct (init_scans dir tol (env s1) persons) as (s2 & -> & Hes2 & Hns2 & _);
          rewrite ?Hfs; try done.
        cbn [snd]. by rewrite Hes2, Hns2, Hpairs.
      * apply resolve_after_write in Hfs.
        destruct (init_from_cache dir tol (env s1) _ _ Hpickle Hfs)
          as (s2 & -> & Hes2 & Hns2 & _).
        cbn [snd]. by rewrite Hes2, Hns2.
    + destruct (init_without_directory dir tol w Hpresent) as (Hes & Hns & Hfs);
        [by rewrite Hdir|].
      rewrite Hes, Hns. destruct Hfs as [Hfs|[_ Hstore]].
      * destruct (init_without_directory dir tol (env (init dir tol w).2))
          as (-> & -> & _); rewrite ?Hfs, ?Hdir; done.
      * set (w1 := env (init dir tol w).2) in *.
        pose proof (resolve_store _ _ _ _ Hstore) as Hcreated.
        destruct (decide (dir = ["face_encodings.pkl"])) as [->|Hne].
        { by apply init_on_directory with []. }
        assert (path_exists (fs w1) ["face_encodings.pkl"] = false) as Habsent1.
        { rewrite (store_path_exists _ _ _ _ ["face_encodings.pkl"] Hstore);
            first [done | by rewrite Hdir | congruence]. }
        destruct (init_scans dir tol w1 [] Habsent1 Hcreated)
          as (s2 & -> & Hes2 & Hns2 & _).
        cbn [snd]. by rewrite Hes2, Hns2.
    + destruct (init_without_directory dir tol w Hpresent) as (Hes & Hns & Hfs);
        [by rewrite Hdir|].
      rewrite Hes, Hns. destruct Hfs as [Hfs|[Hno _]]; [|congruence].
      destruct (init_without_directory dir tol (env (init dir tol w).2)) as (-> & -> & _);
        rewrite ?Hfs, ?Hdir; done.
Qed.

(** *** [os.remove] in the working directory *)

Lemma alist_find_delete_eq k es : alist_find k (alist_delete k es) = None.
Proof.
  induction es as [|[k' n'] es IH]; simpl; [done|].
  destruct (String.eqb k k') eqn:E; simpl; by rewrite ?E.
Qed.

Lemma alist_find_delete_ne k k' es :
  k <> k' -> alist_find k' (alist_delete k es) = alist_find k' es.
Proof.
  intros Hne. induction es as [|[k0 n0] es IH]; simpl; [done|].
  destruct (String.eqb k k0) eqn:E; simpl.
  - apply String.eqb_eq in E. subst k0.
    assert (String.eqb k' k = false) as -> by (apply String.eqb_neq; congruence).
    done.
  - by rewrite IH.
Qed.

(** Removing an entry of the working directory, when it is there and is
    not a directory: afterwards it is absent and the other entries are as
    they were. *)
Lemma os_remove_entry root f :
  path_exists root [f] = true -> is_dir root [f] = false ->
  exists root',
    os_remove root [f] = Ok root'
    /\ resolve root' [f] = NoEntry
    /\ (forall k q, k <> f -> resolve root' (k :: q) = resolve root (k :: q))
    /\ exists es, root' = Dir es.
Proof.
  unfold path_exists, is_dir, os_remove. destruct root as [c|es]; simpl; [done|].
  destruct (alist_find f es) as [[c|es']|] eqn:Hfind; try done. intros _ _.
  exists (Dir (alist_delete f es)). simpl.
  rewrite alist_find_delete_eq. repeat split; eauto.
  intros k q Hne. by rewrite alist_find_delete_ne.
Qed.

Lemma reencode_absent s :
  path_exists (fs (env s)) (encodings_file (self s)) = false ->
  Main.reencode s
  = match encode_known_faces s with
    | (Ok _, s') => (Ok Main.ReencodingDone, s')
    | (Raise e, s') => (Raise e, s')
    end.
Proof.
  intros Habsent. unfold Main.reencode, bind, gets. simpl. rewrite Habsent. simpl.
  by destruct (encode_known_faces s) as [[[]|e] s'].
Qed.

Lemma reencode_present s root' :
  path_exists (fs (env s)) (encodings_file (self s)) = true ->
  os_remove (fs (env s)) (encodings_file (self s)) = Ok root' ->
  Main.reencode s
  = match encode_known_faces
            {| self := self s; env := {| fs := root'; console := console (env s) |} |} with
    | (Ok _, s') => (Ok Main.ReencodingDone, s')
    | (Raise e, s') => (Raise e, s')
    end.
Proof.
  intros Hpresent Hremove.
  unfold Main.reencode, bind, gets, in_world, world_update. simpl.
  rewrite Hpresent, Hremove. simpl.
  by destruct (encode_known_faces _) as [[[]|e] s'].
Qed.

(** The scan of a directory of the working directory that has no entry
    under the name of the encodings file: it returns, having appended to the
    registry and written the blob of the two lists when they are not empty. *)
Lemma encode_known_faces_fresh s f d rest persons :
  encodings_file (self s) = [f] -> known_faces_dir (self s) = d :: rest ->
  resolve (fs (env s)) [f] = NoEntry ->
  resolve (fs (env s)) (d :: rest) = Found (Dir persons) ->
  exists s',
    encode_known_faces s = (Ok tt, s')
    /\ known_face_encodings (self s')
       = known_face_encodings (self s) ++ (registry_of persons).*1
    /\ known_face_names (self s')
       = known_face_names (self s) ++ (registry_of persons).*2
    /\ (known_face_encodings (self s') <> [] ->
        resolve (fs (env s')) [f]
        = Found (File (pickle_dump (Utils.blob (known_face_encodings (self s'))
                                               (known_face_names (self s'))))))
    /\ (known_face_encodings (self s') = [] -> fs (env s') = fs (env s)).
Proof.
  intros Hfile Hdir Habsent Hpersons.
  rewrite encode_known_faces_run. cbv zeta. rewrite Hdir, Hpersons, Hfile.
  set (s1 := grown _ _ s).
  assert (known_face_encodings (self s1)
          = known_face_encodings (self s) ++ (registry_of persons).*1) as Hes by done.
  assert (known_face_names (self s1)
          = known_face_names (self s) ++ (registry_of persons).*2) as Hns by done.
  destruct (known_face_encodings (self s1)) as [|first more] eqn:Hfirst.
  - eexists. split; [reflexivity|]. rewrite self_grown_nil, Hfirst, Hns. done.
  - destruct (resolve_directory_root _ _ _ Hpersons) as [es0 Hroot].
    destruct (write_file_child (fs (env s)) [] es0 f
                (pickle_dump (Utils.blob (first :: more) (known_face_names (self s1)))))
      as (root' & Hwrite & Hread).
    { by rewrite Hroot. }
    { unfold is_dir. simpl app. by rewrite Habsent. }
    simpl app in Hwrite, Hread. rewrite Hwrite.
    eexists. split; [reflexivity|]. cbn [self env fs]. rewrite Hfirst, Hns.
    repeat split; done.
Qed.

(** X6: re-encoding from the menu of [main] appends the scan to the
    registry the system already holds; it does not rebuild it.  With the
    encodings file and the known-faces directory two different entries of the
    working directory, the file not a directory and the known-faces directory
    in place, the branch removes the file if it is there, returns after the
    closing line, leaves the old encodings and names in front of the scanned
    ones, and writes the blob of the lengthened lists when they are not
    empty. *)
Theorem reencode_appends_to_the_registry (s : session) (f d : string)
    (rest : path) (persons : list (string * node)) :
  encodings_file (self s) = [f] ->
  known_faces_dir (self s) = d :: rest ->
  d <> f ->
  is_dir (fs (env s)) [f] = false ->
  resolve (fs (env s)) (d :: rest) = Found (Dir persons) ->
  exists s',
    Main.reencode s = (Ok Main.ReencodingDone, s')
    /\ known_face_encodings (self s')
       = known_face_encodings (self s) ++ (registry_of persons).*1
    /\ known_face_names (self s')
       = known_face_names (self s) ++ (registry_of persons).*2
    /\ (known_face_encodings (self s') <> [] ->
        resolve (fs (env s')) [f]
        = Found (File (pickle_dump (Utils.blob (known_face_encodings (self s'))
                                               (known_face_names (self s'))))))
    /\ (known_face_encodings (self s') = [] -> path_exists (fs (env s')) [f] = false).
Proof.
  intros Hfile Hdir Hne Hnodir Hpersons.
  destruct (path_exists (fs (env s)) [f]) eqn:Hpresent.
  - destruct (os_remove_entry _ f Hpresent Hnodir)
      as (root' & Hremove & Hgone & Hothers & _).
    rewrite (reencode_present s root') by (by rewrite Hfile).
    destruct (encode_known_faces_fresh
                {| self := self s; env := {| fs := root'; console := console (env s) |} |}
                f d rest persons)
      as (s' & -> & Hes & Hns & Hwritten & Hempty); try done.
    { cbn [env fs]. by rewrite Hothers. }
    exists s'. repeat split; try done. intros Hnil.
    rewrite (Hempty Hnil). cbn [env fs]. unfold path_exists. by rewrite Hgone.
  - assert (resolve (fs (env s)) [f] = NoEntry) as Habsent.
    { destruct (resolve_directory_root _ _ _ Hpersons) as [es0 Hroot].
      unfold path_exists in Hpresent. rewrite Hroot in Hpresent |- *. simpl in *.
      by destruct (alist_find f es0). }
    rewrite reencode_absent by (by rewrite Hfile).
    destruct (encode_known_faces_fresh s f d rest persons)
      as (s' & -> & Hes & Hns & Hwritten & Hempty); try done.
    exists s'. repeat split; try done. intros Hnil. by rewrite (Hempty Hnil).
Qed.

(** X7: after a first start that scanned the known-faces directory,
    re-encoding from the menu leaves every labelled encoding twice in the
    registry, and the doubled lists are what the encodings file caches for the
    next starts. *)
Theorem reencode_after_a_scan_doubles_the_registry (d : string) (rest : path)
    (tol : distance) (w : world) (persons : list (string * node)) :
  d <> "face_encodings.pkl" ->
  path_exists (fs w) ["face_encodings.pkl"] = false ->
  resolve (fs w) (d :: rest) = Found (Dir persons) ->
  let scanned := registry_of persons in
  exists s1 s2,
    init (d :: rest) tol w = (Ok tt, s1)
    /\ known_face_encodings (self s1) = scanned.*1
    /\ known_face_names (self s1) = scanned.*2
    /\ Main.reencode s1 = (Ok Main.ReencodingDone, s2)
    /\ known_face_encodings (self s2) = scanned.*1 ++ scanned.*1
    /\ known_face_names (self s2) = scanned.*2 ++ scanned.*2
    /\ (scanned <> [] ->
        resolve (fs (env s2)) ["face_encodings.pkl"]
        = Found (File (pickle_dump (Utils.blob (scanned.*1 ++ scanned.*1)
                                               (scanned.*2 ++ scanned.*2))))).
Proof.
  intros Hne Habsent Hpersons scanned.
  destruct (init_scans (d :: rest) tol w persons Habsent Hpersons)
    as (s1 & Hinit & Hes & Hns & Hdir & Hfile & _ & Hfs).
  fold scanned in Hes, Hns, Hfs.
  assert (resolve (fs (env s1)) (d :: rest) = Found (Dir persons)
          /\ is_dir (fs (env s1)) ["face_encodings.pkl"] = false) as [Hpersons1 Hnodir].
  { destruct scanned as [|pair pairs].
    - rewrite Hfs. split; [done|]. unfold is_dir. unfold path_exists in Habsent.
      by destruct (resolve (fs w) ["face_encodings.pkl"]) as [[|]| |].
    - split.
      + rewrite <- Hpersons. unfold write_file in Hfs.
        assert (store (fs w) ["face_encodings.pkl"]
                  (File (pickle_dump (Utils.blob ((pair :: pairs).*1) ((pair :: pairs).*2))))
                = Ok (fs (env s1))) as Hstore.
        { by destruct (resolve (fs w) ["face_encodings.pkl"]) as [[|]| |]. }
        destruct (fs w) as [|es0]; [done|]. simpl in Hstore.
        destruct (alist_find "face_encodings.pkl" es0); injection Hstore as <-;
          simpl; by rewrite alist_find_set_ne.
      + unfold is_dir. by rewrite (resolve_after_write _ _ _ _ Hfs). }
  assert (exists s2,
            Main.reencode s1 = (Ok Main.ReencodingDone, s2)
            /\ known_face_encodings (self s2)
               = known_face_encodings (self s1) ++ (registry_of persons).*1
            /\ known_face_names (self s2)
               = known_face_names (self s1) ++ (registry_of persons).*2
            /\ (known_face_encodings (self s2) <> [] ->
                resolve (fs (env s2)) ["face_encodings.pkl"]
                = Found (File (pickle_dump (Utils.blob (known_face_encodings (self s2))
                                                       (known_face_names (self s2)))))))
    as (s2 & Hrun & Hes2 & Hns2 & Hwritten).
  { destruct (path_exists (fs (env s1)) ["face_encodings.pkl"]) eqn:Hpresent.
    - (* the first start wrote the file: it is removed before the scan *)
      destruct (os_remove_entry _ "face_encodings.pkl" Hpresent Hnodir)
        as (root' & Hremove & Hgone & Hothers & _).
      rewrite (reencode_present s1 root') by (by rewrite Hfile).
      destruct (encode_known_faces_fresh
                  {| self := self s1;
                     env := {| fs := root'; console := console (env s1) |} |}
                  "face_encodings.pkl" d rest persons)
        as (s2 & -> & Hes2 & Hns2 & Hwritten & _); try done.
      { cbn [env fs]. by rewrite Hothers. }
      by exists s2.
    - (* nothing was written: the scan runs on the same tree *)
      assert (resolve (fs (env s1)) ["face_encodings.pkl"] = NoEntry) as Hnone.
      { destruct (resolve_directory_root _ _ _ Hpersons1) as [es0 Hroot].
        unfold path_exists in Hpresent. rewrite Hroot in Hpresent |- *. simpl in *.
        by destruct (alist_find "face_encodings.pkl" es0). }
      rewrite reencode_absent by (by rewrite Hfile).
      destruct (encode_known_faces_fresh s1 "face_encodings.pkl" d rest persons)
        as (s2 & -> & Hes2 & Hns2 & Hwritten & _); try done.
      by exists s2. }
  fold scanned in Hes2, Hns2. rewrite Hes in Hes2. rewrite Hns in Hns2.
  exists s1, s2. repeat split; try done.
  intros Hscanned. rewrite <- Hes2, <- Hns2. apply Hwritten.
  rewrite Hes2. by destruct scanned.
Qed.

End CacheMore.

(** ** The mosaic, continued *)

Section MosaicMore.
Context {L : Libraries}.

(** X8: the grid of [create_face_mosaic] is the smallest nearly square
    one.  For at least one image, the number of columns is the least whose
    square holds the images; there are as many rows as columns or one less;
    and the images reach into the last row, so that the cells left black are
    fewer than one row. *)
Theorem mosaic_grid_is_nearly_square (n : Z) :
  (1 <= n)%Z ->
  let cols := Utils.mosaic_cols n in
  let rows := Utils.mosaic_rows n in
  ((cols - 1) * (cols - 1) < n <= cols * cols
   /\ cols - 1 <= rows <= cols
   /\ (rows - 1) * cols < n <= rows * cols)%Z.
Proof.
  intros Hn cols rows. pose proof (mosaic_cols_pos n Hn) as Hc. fold cols in Hc.
  assert ((cols - 1) * (cols - 1) < n <= cols * cols)%Z as Hsqrt.
  { pose proof (Z.sqrt_up_spec n ltac:(lia)) as H. unfold cols, Utils.mosaic_cols.
    rewrite <- !Z.pow_2_r, <- Z.sub_1_r in *. exact H. }
  assert (rows = (n - 1) / cols + 1)%Z as -> by (by apply mosaic_rows_eq).
  pose proof (Z.div_mod (n - 1) cols ltac:(lia)) as Hdm.
  pose proof (Z.mod_pos_bound (n - 1) cols ltac:(lia)) as Hmod.
  split; [done|]. split; [|nia].
  split.
  - assert (cols - 2 <= (n - 1) / cols)%Z; [|lia].
    apply Z.div_le_lower_bound; nia.
  - assert ((n - 1) / cols < cols)%Z; [|lia].
    apply Z.div_lt_upper_bound; nia.
Qed.

(** X9: the mosaic holds the images in reading order and nothing else.
    For a list that is not empty, the loop returns, and each cell of the grid,
    at row [r] and column [c], holds the image of index [r * cols + c], or
    stays black when there is no image of that index. *)
Theorem mosaic_cells_in_reading_order (images : list image) :
  images <> [] ->
  let n := Z.of_nat (length images) in
  let cols := Utils.mosaic_cols n in
  let rows := Utils.mosaic_rows n in
  exists m,
    Utils.build_mosaic images = Some (Ok tt, m)
    /\ Utils.height m = (rows * 200)%Z /\ Utils.width m = (cols * 200)%Z
    /\ forall r c, (0 <= r < rows)%Z -> (0 <= c < cols)%Z ->
         Utils.blocks m !! (r, c) = images !! Z.to_nat (r * cols + c).
Proof.
  intros Hne n cols rows.
  assert (1 <= n)%Z as Hn by (subst n; destruct images; [done | simpl; lia]).
  pose proof (mosaic_cols_pos n Hn) as Hc. fold cols in Hc.
  destruct (place_all rows cols (Utils.enumerate images) (Utils.zeros rows cols))
    as (m & Hrun & Hh & Hw & Hput & Hkeep); try done.
  - lia.
  - rewrite enumerate_fst. apply NoDup_seq.
  - intros i img Hi. apply elem_of_enumerate in Hi. apply lookup_lt_Some in Hi.
    apply (mosaic_block_in_grid n (Z.of_nat i) Hn). subst n. lia.
  - exists m. split; [|split; [done|split; [done|]]].
    + unfold Utils.build_mosaic. destruct images; [done|]. by rewrite <- Hrun.
    + intros r c Hr Hcol. set (i := Z.to_nat (r * cols + c)).
      assert (Z.of_nat i = r * cols + c)%Z as Hi by (subst i; nia).
      assert ((Z.of_nat i / cols, Z.of_nat i mod cols)%Z = (r, c)) as Hcell.
      { rewrite Hi. f_equal.
        - rewrite Z.div_add_l by lia. rewrite Z.div_small by lia. lia.
        - rewrite Z.add_comm, Z.mod_add by lia. apply Z.mod_small. lia. }
      destruct (images !! i) as [img|] eqn:Himg.
      * rewrite <- Hcell. apply Hput. by apply elem_of_enumerate.
      * rewrite <- Hcell, Hkeep; [done|].
        rewrite enumerate_fst, elem_of_seq. apply lookup_ge_None in Himg. lia.
Qed.

End MosaicMore.

(** ** The annotated frame *)

Section DrawingFacts.
Context {L : Libraries} {B : Boxes L}.
Import Drawing.

Lemma append_cons a s t : String a s +:+ t = String a (s +:+ t).
Proof. reflexivity. Qed.

Lemma append_nil_l s : "" +:+ s = s.
Proof. reflexivity. Qed.

Lemma prefix_app needle s :
  String.prefix needle s = true <-> exists b, s = needle +:+ b.
Proof.
  revert s. induction needle as [|a needle IH]; intros [|a' s]; simpl.
  - split; [intros _; by exists "" | done].
  - split; [intros _; by exists (String a' s) | done].
  - split; [done | by intros [b Hb]].
  - setoid_rewrite append_cons. destruct (Ascii.ascii_dec a a') as [->|Hne].
    + rewrite IH. split; intros [b Hb]; exists b; congruence.
    + split; [done|]. intros [b Hb]. congruence.
Qed.

Lemma contains_spec needle s :
  contains needle s = true <-> exists a b, s = a +:+ needle +:+ b.
Proof.
  induction s as [|c s IH].
  - change (contains needle "") with (String.prefix needle "" || false).
    rewrite orb_false_r, prefix_app. split.
    + intros [b Hb]. by exists "", b.
    + intros (a & b & Hab). destruct a; [by exists b|done].
  - change (contains needle (String c s))
      with (String.prefix needle (String c s) || contains needle s).
    rewrite orb_true_iff, prefix_app, IH. split.
    + intros [[b Hb]|(a & b & Hab)]; [by exists "", b|].
      exists (String c a), b. by rewrite append_cons, Hab.
    + intros (a & b & Hab). destruct a as [|c' a]; [left; by exists b|].
      right. exists a, b. rewrite append_cons in Hab. congruence.
Qed.

Lemma string_app_assoc (a b c : string) : (a +:+ b) +:+ c = a +:+ (b +:+ c).
Proof. induction a as [|x a IH]; [done|]. by rewrite !append_cons, IH. Qed.

Lemma draw_face_length item : length (draw_face item) = 3.
Proof.
  destruct item as [loc name]. unfold draw_face.
  by destruct (box loc) as [[[top right_] bottom] left_].
Qed.

(** The three calls for the pair of index [i] stand at [3 * i]. *)
Lemma flat_map_draw_face items i item :
  items !! i = Some item ->
  take 3 (drop (3 * i) (flat_map draw_face items)) = draw_face item.
Proof.
  revert i. induction items as [|first items IH]; intros i; [done|].
  pose proof (draw_face_length first) as Hfirst.
  change (flat_map draw_face (first :: items))
    with (draw_face first ++ flat_map draw_face items).
  destruct i as [|i].
  - intros [= ->]. change (3 * 0) with 0. rewrite drop_0.
    by rewrite take_app_length'.
  - intros Hitem. replace (3 * S i) with (length (draw_face first) + 3 * i) by lia.
    rewrite drop_app_add'; [|done]. by apply IH.
Qed.

Lemma flat_map_draw_face_length items :
  length (flat_map draw_face items) = 3 * length items.
Proof.
  induction items as [|first items IH]; simpl; [done|].
  rewrite length_app, draw_face_length, IH. lia.
Qed.

(** X10: the frame [recognize_faces_in_frame] returns carries, for the
    faces that have both a location and a name and in the order of
    detection, a box, a filled strip and the label.  The names are those of
    the recognition; the coordinates are the detected ones times four, the
    strip is the 35 rows above the bottom line, the text starts 6 to the right
    and 6 above the lower left corner, and box and strip are red when the
    label contains the word Inconnu and green when it does not.  Nothing else
    is drawn. *)
Theorem recognize_faces_in_frame_draws_the_labels
    (sys : Recognition.FaceRecognitionSystem) (frame : image)
    (shapes : list shape) (face_names : list string) :
  Drawing.recognize_faces_in_frame sys frame = Ok (shapes, face_names) ->
  let face_locations :=
    fr_face_locations (cv2_resize_quarter (cv2_cvtColor_BGR2RGB frame)) in
  Recognition.recognize_faces_in_frame sys frame = Ok face_names
  /\ length shapes = 3 * min (length face_locations) (length face_names)
  /\ forall i loc label top right_ bottom left_,
       face_locations !! i = Some loc -> face_names !! i = Some label ->
       box loc = (top, right_, bottom, left_) ->
       let colour := if contains "Inconnu" label then (0, 0, 255)%Z else (0, 255, 0)%Z in
       take 3 (drop (3 * i) shapes)
       = [Rectangle (4 * left_, 4 * top)%Z (4 * right_, 4 * bottom)%Z colour 2;
          Rectangle (4 * left_, 4 * bottom - 35)%Z (4 * right_, 4 * bottom)%Z colour (-1);
          PutText label (4 * left_ + 6, 4 * bottom - 6)%Z FONT_HERSHEY_DUPLEX (6 # 10)
            (255, 255, 255)%Z 1].
Proof.
  intros Hrun face_locations. revert Hrun.
  unfold Drawing.recognize_faces_in_frame, Recognition.recognize_faces_in_frame.
  fold face_locations.
  destruct (for_each _ _ _) as [[[]|e] names]; [|done].
  intros [= <- <-]. split; [done|]. split.
  - by rewrite flat_map_draw_face_length, length_zip.
  - intros i loc label top right_ bottom left_ Hloc Hlabel Hbox.
    rewrite (flat_map_draw_face _ i (loc, label)).
    + unfold draw_face, box_color. rewrite Hbox.
      rewrite !(Z.mul_comm _ 4). by destruct (contains "Inconnu" label).
    + apply lookup_zip_with_Some. by exists loc, label.
Qed.

(** X11: which faces get a red box.  A face that was not recognised is
    drawn in red.  So is a recognised one whose known name contains the word
    Inconnu, whatever confidence follows the name.  A label is drawn in green
    exactly when Inconnu occurs nowhere in it. *)
Theorem box_color_rule :
  box_color "Inconnu" = (0, 0, 255)%Z
  /\ (forall name confidence,
        contains "Inconnu" name = true ->
        box_color (name +:+ " (" +:+ confidence +:+ "%)") = (0, 0, 255)%Z)
  /\ (forall label,
        (box_color label = (0, 255, 0)%Z
         <-> forall a b, label <> a +:+ "Inconnu" +:+ b)
        /\ (box_color label = (0, 0, 255)%Z
            <-> exists a b, label = a +:+ "Inconnu" +:+ b)).
Proof.
  split; [done|]. split.
  - intros name confidence Hname. unfold box_color.
    apply contains_spec in Hname as (a & b & ->).
    assert (contains "Inconnu" ((a +:+ "Inconnu" +:+ b) +:+ " (" +:+ confidence +:+ "%)")
            = true) as ->; [|done].
    apply contains_spec. exists a, (b +:+ " (" +:+ confidence +:+ "%)").
    by rewrite !string_app_assoc.
  - intros label. unfold box_color.
    destruct (contains "Inconnu" label) eqn:Hin; simpl.
    + apply contains_spec in Hin. split; split; try done.
      intros Hnot. destruct Hin as (a & b & ->). by destruct (Hnot a b).
    + split; split; try done.
      * intros _ a b ->. assert (contains "Inconnu" (a +:+ "Inconnu" +:+ b) = true) as Hyes.
        { apply contains_spec. by exists a, b. }
        congruence.
      * intros Hex. apply contains_spec in Hex. congruence.
Qed.

End DrawingFacts.

(** ** The names of the captured photos *)

(** Find an element in a list that is written out. *)
Ltac listed := first [by left | right; listed].

Section NameFacts.
Context {L : Libraries} {B : Boxes L} {C : Camera L}.
Import Studio.

Lemma append_length (a b : string) :
  String.length (a +:+ b) = String.length a + String.length b.
Proof. induction a as [|x a IH]; [done|]. rewrite append_cons. simpl. by rewrite IH. Qed.

Lemma rindex_app c (a b : string) :
  rindex c (a +:+ b)
  = match rindex c b with
    | Some i => Some (String.length a + i)
    | None => rindex c a
    end.
Proof.
  induction a as [|x a IH].
  - change ("" +:+ b) with b. by destruct (rindex c b).
  - rewrite append_cons. simpl. rewrite IH. by destruct (rindex c b).
Qed.

Lemma substring_app_r (a b : string) n :
  String.substring (String.length a) n (a +:+ b) = String.substring 0 n b.
Proof. induction a as [|x a IH]; [done|]. by rewrite append_cons. Qed.

Lemma substring_all (s : string) : String.substring 0 (String.length s) s = s.
Proof. induction s as [|x s IH]; [done|]. simpl. by rewrite IH. Qed.

(** A string cut at [n]. *)
Lemma substring_split (s : string) n :
  n <= String.length s ->
  s = String.substring 0 n s +:+ String.substring n (String.length s - n) s.
Proof.
  revert n. induction s as [|x s IH]; intros [|n] Hn; simpl in *; try lia.
  - done.
  - change ("" +:+ String x (String.substring 0 (String.length s) s))
      with (String x (String.substring 0 (String.length s) s)).
    by rewrite substring_all.
  - rewrite append_cons. f_equal. apply IH. lia.
Qed.

Lemma endswith_spec s ending :
  endswith s ending = true <-> exists a, s = a +:+ ending.
Proof.
  unfold endswith. rewrite andb_true_iff, Nat.leb_le, String.eqb_eq. split.
  - intros [Hlen Hend].
    exists (String.substring 0 (String.length s - String.length ending) s).
    pose proof (substring_split s (String.length s - String.length ending) ltac:(lia))
      as Hsplit.
    replace (String.length s - (String.length s - String.length ending))
      with (String.length ending) in Hsplit by lia.
    by rewrite Hend in Hsplit.
  - intros [a ->]. rewrite append_length. split; [lia|].
    replace (String.length a + String.length ending - String.length ending)
      with (String.length a) by lia.
    by rewrite substring_app_r, substring_all.
Qed.

(** The suffix of a name that ends with an extension without further dot. *)
Lemma suffix_app (stem ext : string) :
  stem <> "" -> rindex "."%char ext = Some 0 -> 2 <= String.length ext ->
  suffix (stem +:+ ext) = ext.
Proof.
  intros Hstem Hdot Hlen. unfold suffix. rewrite rindex_app, Hdot, append_length.
  assert (0 < String.length stem) by (destruct stem; [done | simpl; lia]).
  replace (String.length stem + 0) with (String.length stem) by lia.
  assert (((0 <? String.length stem)%nat
           && (String.length stem <? String.length stem + String.length ext - 1)%nat)
          = true) as ->.
  { apply andb_true_iff. split; [apply Nat.ltb_lt | apply Nat.ltb_lt]; lia. }
  replace (String.length stem + String.length ext - String.length stem)
    with (String.length ext) by lia.
  by rewrite substring_app_r, substring_all.
Qed.

Lemma has_image_suffix_app (stem ext : string) :
  stem <> "" -> ext ∈ [".jpg"; ".jpeg"; ".png"] ->
  has_image_suffix (stem +:+ ext) = true.
Proof.
  intros Hstem Hext. unfold has_image_suffix.
  rewrite suffix_app; [|done| |].
  - apply bool_decide_eq_true.
    repeat (apply elem_of_cons in Hext as [->|Hext]; [listed|]).
    by apply elem_of_nil in Hext.
  - repeat (apply elem_of_cons in Hext as [->|Hext]; [done|]).
    by apply elem_of_nil in Hext.
  - repeat (apply elem_of_cons in Hext as [->|Hext]; [simpl; lia|]).
    by apply elem_of_nil in Hext.
Qed.

Lemma append_nonempty (a b : string) : b <> "" -> a +:+ b <> "".
Proof. intros Hb. destruct a; [done|]. by rewrite append_cons. Qed.

Lemma append_nil_r (a : string) : a +:+ "" = a.
Proof. induction a as [|x a IH]; [done|]. by rewrite append_cons, IH. Qed.

Lemma parts_single s part : parts s = [part] -> s = part.
Proof.
  revert part. induction s as [|x s IH]; intros part.
  - by intros [= <-].
  - rewrite parts_cons. pose proof (parts_nonempty s) as Hne.
    destruct (Ascii.eqb x "/").
    + intros [= <- Hnil]. done.
    + destruct (parts s) as [|p [|o others]]; [done| |done].
      intros [= <-]. by rewrite (IH p).
Qed.

(** A name ends with what stands after its last slash. *)
Lemma final_part_ends s : exists a, s = a +:+ final_part s.
Proof.
  induction s as [|x s [a IH]].
  - by exists "".
  - unfold final_part in *. rewrite parts_cons.
    pose proof (parts_nonempty s) as Hne.
    destruct (Ascii.eqb x "/").
    + exists (String x a). rewrite append_cons.
      destruct (parts s) as [|p others] eqn:Hparts; [done|].
      change (List.last ("" :: p :: others) "") with (List.last (p :: others) "").
      by rewrite <- IH.
    + destruct (parts s) as [|p [|o others]] eqn:Hparts; [done| |].
      * exists "". rewrite append_nil_l. by rewrite (parts_single s p).
      * exists (String x a). rewrite append_cons.
        change (List.last (String x p :: o :: others) "")
          with (List.last (p :: o :: others) "").
        by rewrite <- IH.
Qed.

Lemma occurs_zeros c n : c <> "0"%char -> occurs c (zeros n) = false.
Proof.
  intros Hc. induction n as [|n IH]; [done|]. cbn [zeros occurs].
  rewrite IH, orb_false_r. apply Ascii.eqb_neq. congruence.
Qed.

Lemma occurs_pad3 c k :
  (forall d, pretty_N_char d <> c) -> c <> "-"%char -> occurs c (pad3 k) = false.
Proof.
  intros Hc Hdash. unfold pad3. rewrite occurs_app, occurs_pretty_Z by done.
  rewrite occurs_zeros; [done|]. intros ->. by apply (Hc 0%N).
Qed.

(** The name of a numbered photo is one component when the person's name
    is. *)
Lemma numbered_photo_component person_name k :
  is_component person_name = true ->
  is_component (numbered_photo person_name k) = true.
Proof.
  unfold is_component. intros H.
  apply andb_prop in H as [H _]. apply andb_prop in H as [Hslash Hnul].
  apply negb_true_iff in Hslash, Hnul. unfold numbered_photo.
  rewrite !occurs_app, Hslash, Hnul.
  rewrite (occurs_pad3 "/") by (first [apply digit_not_slash | done]).
  rewrite (occurs_pad3 Ascii.zero) by (first [apply digit_not_nul | done]).
  apply andb_true_intro. split; [done|]. apply bool_decide_eq_true.
  intros Hin.
  assert (5 <= String.length (person_name +:+ "_" +:+ pad3 k +:+ ".jpg")) as Hlen.
  { rewrite !append_length. simpl. lia. }
  repeat (apply elem_of_cons in Hin as [Heq|Hin];
          [rewrite Heq in Hlen; simpl in Hlen; lia|]).
  by apply elem_of_nil in Hin.
Qed.

Lemma pretty_N_go_nonempty x s : s <> "" -> pretty_N_go x s <> "".
Proof.
  revert s. induction (N.lt_wf_0 x) as [x _ IH]; intros s Hs.
  assert (x = 0 \/ 0 < x)%N as [->|?] by lia.
  - by rewrite pretty_N_go_0.
  - rewrite pretty_N_go_step by done. apply IH; [by apply N.div_lt | done].
Qed.

Lemma pretty_Z_nonempty (z : Z) : pretty z <> "".
Proof.
  assert (forall p : positive, pretty p <> "") as Hpos.
  { intros p. unfold pretty, pretty_positive, pretty, pretty_N.
    destruct (decide (N.pos p = 0%N)); [done|].
    rewrite pretty_N_go_step by lia. by apply pretty_N_go_nonempty. }
  unfold pretty, pretty_Z. destruct z as [|p|p]; [done|apply Hpos|].
  by rewrite append_cons.
Qed.

Lemma has_image_suffix_iff (stem ext : string) :
  ext ∈ [".jpg"; ".jpeg"; ".png"] ->
  has_image_suffix (stem +:+ ext) = true <-> stem <> "".
Proof.
  intros Hext. split.
  - intros Hscanned ->. rewrite append_nil_l in Hscanned.
    repeat (apply elem_of_cons in Hext as [->|Hext]; [by vm_compute in Hscanned|]).
    by apply elem_of_nil in Hext.
  - intros Hstem. by apply has_image_suffix_app.
Qed.

(** The name a saved photo gets in its directory, from the name that was
    joined: what stands after its last slash. *)
Lemma saved_name (person_dir : path) (stem ext : string) :
  ext ∈ [".jpg"; ".jpeg"; ".png"] ->
  name (joinpath person_dir (stem +:+ ext)) = final_part stem +:+ ext.
Proof.
  intros Hext.
  assert (occurs "/" ext = false) as Hslash.
  { repeat (apply elem_of_cons in Hext as [->|Hext]; [done|]).
    by apply elem_of_nil in Hext. }
  assert (2 <= String.length ext) as Hlen.
  { repeat (apply elem_of_cons in Hext as [->|Hext]; [simpl; lia|]).
    by apply elem_of_nil in Hext. }
  rewrite name_joinpath; rewrite final_part_app by done; [done| |];
    intros Heq; apply (f_equal String.length) in Heq;
    rewrite append_length in Heq; simpl in Heq; lia.
Qed.

(** X14: the photos the two capture functions save carry an extension the
    scan of the recognition system accepts.  The name a photo gets in its
    directory is what stands after the last slash of the file name the
    function builds.  For the numbered name of a series and for the stamped
    name of a single photo it always carries an accepted extension.  A single
    photo saved under a given name does so too, with .jpg added where the
    given name does not end with .jpg, .jpeg or .png as written in lower
    case, unless what stands after the last slash of the given name is empty
    or is nothing but one of these three extensions: the file is then called
    [.jpg], [.jpeg] or [.png], it has no suffix, and the scan passes it
    over. *)
Theorem captured_photo_names_are_scanned (person_dir : path)
    (person_name : string) :
  let saved filename := name (joinpath person_dir filename) in
  (forall photo_count,
      has_image_suffix (saved (numbered_photo person_name photo_count)) = true)
  /\ (forall now,
        has_image_suffix (saved (single_photo_name person_name None now)) = true)
  /\ (forall photo_name now,
        has_image_suffix (saved (single_photo_name person_name (Some photo_name) now))
        = true
        <-> final_part photo_name ∉ [""; ".jpg"; ".jpeg"; ".png"]).
Proof.
  intros saved. subst saved. cbv beta.
  assert (forall x, x ∈ [""; ".jpg"; ".jpeg"; ".png"] -> has_image_suffix x = false)
    as Hbare.
  { intros x Hx. repeat (apply elem_of_cons in Hx as [->|Hx]; [done|]).
    by apply elem_of_nil in Hx. }
  split; [|split].
  - intros photo_count. unfold numbered_photo.
    rewrite <- !string_app_assoc, saved_name by listed.
    apply has_image_suffix_iff; [listed|].
    rewrite !string_app_assoc, final_part_app.
    + rewrite <- string_app_assoc. apply append_nonempty.
      unfold pad3. by apply append_nonempty, pretty_Z_nonempty.
    + rewrite occurs_app. apply orb_false_intro; [done|].
      apply occurs_pad3; [apply digit_not_slash | done].
  - intros now. unfold single_photo_name.
    rewrite <- !string_app_assoc, saved_name by listed.
    apply has_image_suffix_iff; [listed|].
    rewrite !string_app_assoc, final_part_app.
    + rewrite <- string_app_assoc. by apply append_nonempty, pretty_Z_nonempty.
    + rewrite occurs_app. apply orb_false_intro; [done|].
      apply occurs_pretty_Z; [apply digit_not_slash | done].
  - intros photo_name now. unfold single_photo_name.
    assert (forall stem ext, photo_name = stem +:+ ext ->
              ext ∈ [".jpg"; ".jpeg"; ".png"] ->
              has_image_suffix (name (joinpath person_dir photo_name)) = true
              <-> final_part photo_name ∉ [""; ".jpg"; ".jpeg"; ".png"]) as Hends.
    { intros stem ext -> Hext. rewrite saved_name by done.
      assert (occurs "/" ext = false) as Hslash.
      { repeat (apply elem_of_cons in Hext as [->|Hext]; [done|]).
        by apply elem_of_nil in Hext. }
      rewrite final_part_app by done. split.
      - intros Hscanned Hin. by rewrite (Hbare _ Hin) in Hscanned.
      - intros Hnot. apply has_image_suffix_iff; [done|]. intros Hstem.
        apply Hnot. rewrite Hstem, append_nil_l. by right. }
    destruct (endswith photo_name ".jpg") eqn:Hjpg; [|
      destruct (endswith photo_name ".jpeg") eqn:Hjpeg; [|
        destruct (endswith photo_name ".png") eqn:Hpng]]; simpl.
    + apply endswith_spec in Hjpg as [stem Hjpg]. apply (Hends stem ".jpg"); [done|listed].
    + apply endswith_spec in Hjpeg as [stem Hjpeg]. apply (Hends stem ".jpeg"); [done|listed].
    + apply endswith_spec in Hpng as [stem Hpng]. apply (Hends stem ".png"); [done|listed].
    + rewrite saved_name by listed. rewrite has_image_suffix_iff by listed.
      destruct (final_part_ends photo_name) as [a Ha]. split.
      * intros Hstem Hin. apply elem_of_cons in Hin as [Hin|Hin]; [done|].
        assert (forall ext, final_part photo_name = ext ->
                  endswith photo_name ext = true) as Hend.
        { intros ext Hext. apply endswith_spec. exists a. by rewrite <- Hext. }
        apply elem_of_cons in Hin as [Hin|Hin]; [by rewrite (Hend _ Hin) in Hjpg|].
        apply elem_of_cons in Hin as [Hin|Hin]; [by rewrite (Hend _ Hin) in Hjpeg|].
        apply elem_of_cons in Hin as [Hin|Hin]; [by rewrite (Hend _ Hin) in Hpng|].
        by apply elem_of_nil in Hin.
      * intros Hnot Hstem. apply Hnot. rewrite Hstem. by left.
Qed.

End NameFacts.

(** ** The camera programs *)

Section StudioFacts.
Context {L : Libraries} {B : Boxes L} {C : Camera L}.
Import Studio Drawing.

Lemma same_files_refl written root : same_files_except written root root.
Proof. by intros q c _. Qed.

Lemma same_files_trans written root1 root2 root3 :
  same_files_except written root1 root2 -> same_files_except written root2 root3 ->
  same_files_except written root1 root3.
Proof. intros H12 H23 q c Hq. by rewrite (H23 q c Hq), (H12 q c Hq). Qed.

Lemma same_files_weaken (written written' : path -> Prop) root root' :
  (forall q, written q -> written' q) ->
  same_files_except written root root' -> same_files_except written' root root'.
Proof. intros Hsub H q c Hq. apply H. intros Hw. by apply Hq, Hsub. Qed.

Lemma write_file_same_files root p x root' :
  write_file root p x = Ok root' -> same_files_except (fun q => q = p) root root'.
Proof.
  intros Hwrite q c Hq. split.
  - by apply write_file_adds_only with p x.
  - by apply write_file_keeps_others with p x.
Qed.

Lemma mkdir_same_files root p root' :
  mkdir_exist_ok root p = Ok root' -> same_files_except (fun _ => False) root root'.
Proof. intros Hmk q c _. by apply mkdir_exist_ok_files with p. Qed.

(** Writing a file makes no directory. *)
Lemma store_file_no_new_dirs root p x root' q :
  store root p (File x) = Ok root' ->
  is_dir root' q = true -> is_dir root q = true.
Proof.
  unfold is_dir. revert root root' q. induction p as [|k p IH]; intros root root' q; simpl.
  - intros [= <-]. by destruct q.
  - destruct root as [|es]; [done|].
    destruct (alist_find k es) as [child|] eqn:Hfind.
    + destruct (store child p (File x)) as [child'|] eqn:Hchild; [|done].
      intros [= <-]. destruct q as [|k2 q]; simpl; [done|].
      destruct (decide (k = k2)) as [<-|Hk].
      * rewrite Hfind, alist_find_set_eq. by apply IH.
      * by rewrite alist_find_set_ne.
    + destruct p; [|done]. intros [= <-].
      destruct q as [|k2 q]; simpl; [done|].
      destruct (decide (k = k2)) as [<-|Hk].
      * rewrite alist_find_set_eq. by destruct q.
      * by rewrite alist_find_set_ne.
Qed.

Lemma write_file_no_new_dirs root p x root' q :
  write_file root p x = Ok root' -> is_dir root q = false -> is_dir root' q = false.
Proof.
  unfold write_file. intros Hwrite Hq.
  destruct (is_dir root' q) eqn:Hq'; [|done].
  assert (store root p (File x) = Ok root') as Hstore
    by (by destruct (resolve root p) as [[|]| |]).
  by rewrite (store_file_no_new_dirs _ _ _ _ _ Hstore Hq') in Hq.
Qed.

Lemma name_snoc (p : path) (c : string) : name (p ++ [c]) = c.
Proof. unfold name. apply last_last. Qed.

(** What [imwrite] does: it returns, and the file is written when it can
    be. *)
Lemma imwrite_run p frame shapes st :
  exists disk',
    imwrite p frame shapes st = (Ok tt, {| disk := disk'; screen := screen st |})
    /\ match write_file (disk st) p (imencode (name p) frame shapes) with
       | Ok root' => disk' = root'
       | Raise _ => disk' = disk st
       end.
Proof.
  unfold imwrite, modify. destruct (write_file _ _ _) as [root'|t] eqn:Hwrite.
  - by exists root'.
  - exists (disk st). by destruct st.
Qed.

Lemma studio_eta st : {| disk := disk st; screen := screen st |} = st.
Proof. by destruct st. Qed.

(** The loop of [capture_faces_from_webcam], from any pass on.  [first] is
    the count the session started from and [served] the whole feed. *)
Lemma capture_loop_run (served : list tick) (person_dir : path)
    (person_name : string) (num_photos first : Z) :
  let photo k := joinpath person_dir (numbered_photo person_name k) in
  let saved root k :=
    exists t, t ∈ served /\ detectMultiScale (tick_frame t) <> []
              /\ resolve root (photo k)
                 = Found (File (imencode (name (photo k)) (tick_frame t) [])) in
  forall feed photo_count last st,
    (forall t, t ∈ feed -> t ∈ served) ->
    (first <= photo_count)%Z ->
    exists photo_count' disk' body,
      capture_loop person_dir person_name num_photos feed photo_count last st
      = (Ok photo_count', {| disk := disk'; screen := screen st ++ body |})
      /\ (photo_count <= photo_count' <= Z.max photo_count num_photos)%Z
      /\ (photo_count' - photo_count <= Z.of_nat (length feed))%Z
      /\ same_files_except
           (fun q => exists k, (photo_count < k <= photo_count')%Z /\ q = photo k)
           (disk st) disk'
      /\ Forall (fun o => o <> Release /\ o <> DestroyAllWindows) body
      /\ ((forall k, is_dir (disk st) (parent (photo k)) = true) ->
          (forall k, is_dir (disk st) (photo k) = false) ->
          (forall k, (first < k <= photo_count)%Z -> saved (disk st) k) ->
          forall k, (first < k <= photo_count')%Z -> saved disk' k).
Proof.
  intros photo saved feed.
  induction feed as [|t feed IH]; intros photo_count last st Hserved Hfirst.
  - exists photo_count, (disk st).
    destruct (photo_count <? num_photos)%Z eqn:Hmore.
    + exists [Print "❌ Impossible de lire l'image"]. simpl. rewrite Hmore.
      split; [done|]. split; [lia|]. split; [lia|]. split; [apply same_files_refl|].
      split; [by repeat constructor|]. by intros _ _ Hsaved.
    + exists []. simpl. rewrite Hmore, app_nil_r, studio_eta.
      split; [done|]. split; [lia|]. split; [lia|]. split; [apply same_files_refl|].
      split; [by repeat constructor|]. by intros _ _ Hsaved.
  - cbn [capture_loop]. destruct (photo_count <? num_photos)%Z eqn:Hmore.
    2:{ exists photo_count, (disk st), []. rewrite app_nil_r, studio_eta.
        split; [done|]. split; [lia|]. split; [simpl; lia|].
        split; [apply same_files_refl|]. split; [constructor|]. by intros _ _ Hsaved. }
    apply Z.ltb_lt in Hmore.
    set (shown := Imshow _ _).
    assert (forall t', t' ∈ feed -> t' ∈ served) as Hserved'.
    { intros t' Ht'. apply Hserved. by right. }
    unfold bind at 1. unfold emit at 1, modify at 1.
    destruct ((pressed t =? SPACE)%Z
              && PrimFloat.ltb (Binary64.of_Z 1) (PrimFloat.sub (tick_time t) last))
      eqn:Hspace.
    + destruct (0 <? length (detectMultiScale (tick_frame t)))%nat eqn:Hfaces.
      * (* a photo is saved *)
        unfold bind at 1. fold (photo (photo_count + 1)%Z).
        destruct (imwrite_run (photo (photo_count + 1)%Z) (tick_frame t) []
                    {| disk := disk st; screen := screen st ++ [shown] |})
          as (disk1 & -> & Hdisk1).
        cbn [disk screen] in Hdisk1.
        set (bytes := imencode (name (photo (photo_count + 1)%Z))
                        (tick_frame t) []) in Hdisk1.
        unfold bind at 1, print at 1, emit at 1, modify at 1.
        unfold bind at 1, emit at 1, modify at 1.
        unfold bind at 1, emit at 1, modify at 1.
        cbn [disk screen].
        match goal with
        | |- context [capture_loop _ _ _ feed _ _ ?st1] =>
            destruct (IH (photo_count + 1)%Z (tick_time t) st1)
              as (photo_count' & disk' & body & Hrun & Hbound & Hlen & Hfiles & Hquiet & Hsaved')
        end; [done | lia |].
        cbn [disk screen] in Hfiles, Hsaved', Hrun.
        exists photo_count', disk'. eexists. rewrite Hrun.
        split; [by rewrite <- !app_assoc|]. split; [lia|]. split; [simpl length; lia|].
        split; [|split; [by repeat constructor|]].
        -- apply same_files_trans with disk1.
           ++ apply (same_files_weaken (fun q => q = photo (photo_count + 1)%Z)).
              ** intros q ->. exists (photo_count + 1)%Z. split; [lia|done].
              ** destruct (write_file _ _ _) as [root'|] eqn:Hwrite; subst disk1;
                   [by apply write_file_same_files with bytes | apply same_files_refl].
           ++ apply (same_files_weaken
                       (fun q => exists k, (photo_count + 1 < k <= photo_count')%Z
                                           /\ q = photo k)); [|done].
              intros q (k & Hk & ->). exists k. split; [lia|done].
        -- intros Hparents Hnodir Hsaved.
           assert (write_file (disk st) (photo (photo_count + 1)%Z) bytes = Ok disk1)
             as Hwrite.
           { destruct (write_file_possible (disk st) (photo (photo_count + 1)%Z) bytes
                         (Hparents _) (Hnodir _))
               as (root' & Hwrite & _).
             rewrite Hwrite in Hdisk1. by subst. }
           apply Hsaved'.
           ++ intros k.
              by apply write_file_keeps_dirs with (disk st) (photo (photo_count + 1)%Z) bytes.
           ++ intros k. by apply write_file_no_new_dirs with (disk st)
                (photo (photo_count + 1)%Z) bytes.
           ++ intros k Hk.
              destruct (decide (photo k = photo (photo_count + 1)%Z)) as [Heq|Hne].
              ** exists t. split; [apply Hserved; left|]. split.
                 { intros Hnil. rewrite Hnil in Hfaces. done. }
                 rewrite Heq.
                 by apply resolve_after_write with (disk st).
              ** assert (k <> photo_count + 1)%Z by (by intros ->).
                 destruct (Hsaved k) as (t0 & Ht0 & Hface0 & Hfile0); [lia|].
                 exists t0. split; [done|]. split; [done|].
                 by apply (write_file_keeps_others _ _ _ _ _ _ Hwrite).
      * (* no face: the pass changes nothing on disk *)
        unfold bind at 1, print at 1, emit at 1, modify at 1. cbn [disk screen].
        match goal with
        | |- context [capture_loop _ _ _ feed _ _ ?st1] =>
            destruct (IH photo_count last st1)
              as (photo_count' & disk' & body & Hrun & Hbound & Hlen & Hfiles & Hquiet & Hsaved')
        end; try done.
        exists photo_count', disk'. eexists. rewrite Hrun. cbn [screen].
        split; [by rewrite <- !app_assoc|]. split; [lia|]. split; [simpl length; lia|].
        split; [done|]. split; [by repeat constructor|]. done.
    + destruct (pressed t =? KEY_Q)%Z eqn:Hquit.
      * exists photo_count, (disk st). eexists.
        unfold bind, print, emit, modify, ret. cbn [disk screen].
        split; [by rewrite <- !app_assoc|]. split; [lia|]. split; [simpl length; lia|].
        split; [apply same_files_refl|]. split; [by repeat constructor|].
        by intros _ _ Hsaved.
      * match goal with
        | |- context [capture_loop _ _ _ feed _ _ ?st1] =>
            destruct (IH photo_count last st1)
              as (photo_count' & disk' & body & Hrun & Hbound & Hlen & Hfiles & Hquiet & Hsaved')
        end; try done.
        exists photo_count', disk'. eexists. rewrite Hrun. cbn [screen].
        split; [by rewrite <- !app_assoc|]. split; [lia|]. split; [simpl length; lia|].
        split; [done|]. split; [by repeat constructor|]. done.
Qed.

(** [capture_faces_from_webcam] once the person's directory is there and the
    camera is open: the announcements, the loop, the release, and the closing
    lines when the count was reached. *)
Lemma capture_faces_from_webcam_run reg person_name num_photos feed st root1 :
  let person_dir := joinpath (Registration.known_faces_dir reg) person_name in
  mkdir_exist_ok (disk st) person_dir = Ok root1 ->
  exists header,
    Forall (fun o => exists text, o = Print text) header
    /\ forall photo_count disk' body,
        capture_loop person_dir person_name num_photos feed 0 (Binary64.of_Z 0)
          {| disk := root1; screen := screen st ++ header |}
        = (Ok photo_count, {| disk := disk'; screen := (screen st ++ header) ++ body |}) ->
        exists closing,
          capture_faces_from_webcam reg person_name num_photos true feed st
          = (Ok (Some photo_count),
             {| disk := disk';
                screen := screen st ++ header ++ body
                          ++ [Release; DestroyAllWindows] ++ closing |})
          /\ Forall (fun o => exists text, o = Print text) closing
          /\ (closing = [] <-> (photo_count < num_photos)%Z).
Proof.
  intros person_dir Hmkdir.
  set (header :=
         [Print (nl +:+ "📸 Capture de " +:+ pretty num_photos +:+ " photos pour "
                 +:+ person_name);
          Print "Instructions:";
          Print "  - Regardez la caméra";
          Print "  - Changez légèrement de position entre chaque photo";
          Print "  - Appuyez sur ESPACE pour capturer une photo";
          Print "  - Appuyez sur 'q' pour quitter"]).
  exists header. split; [|intros photo_count disk' body Hloop].
  2:{ unfold capture_faces_from_webcam. fold person_dir.
      unfold bind at 1, update at 1. rewrite Hmkdir.
      do 6 (unfold bind at 1, print at 1, emit at 1, modify at 1; cbn [disk screen]).
      cbn [negb]. unfold bind at 1, try_finally at 1.
      match goal with
      | |- context [capture_loop _ _ _ _ _ _ {| disk := root1; screen := ?s6 |}] =>
          replace s6 with (screen st ++ header) by (subst header; by rewrite <- !app_assoc)
      end.
      rewrite Hloop.
      unfold bind at 1, emit at 1, modify at 1. cbn [disk screen].
      unfold emit at 1, modify at 1. cbn [disk screen].
      destruct (num_photos <=? photo_count)%Z eqn:Hdone.
      - eexists. unfold bind, print, emit, modify, ret. cbn [disk screen].
        split; [|split].
        + rewrite <- !app_assoc. simpl app. reflexivity.
        + repeat constructor; eauto.
        + apply Z.leb_le in Hdone. split; [done | lia].
      - exists []. unfold bind, ret. split; [|split].
        + rewrite <- !app_assoc. simpl app. reflexivity.
        + constructor.
        + apply Z.leb_gt in Hdone. split; [lia | done]. }
  repeat constructor; eauto.
Qed.

(** X12: a session of [capture_faces_from_webcam], for a person's name
    that is a relative name without a [..] part.  The person's directory is
    [known_faces_dir / person_name], and the photo of number k goes to that
    directory joined with the file name [<person_name>_00k.jpg], slashes of
    the person's name included.  The session raises only where [mkdir] on the
    person's directory raises (as it does below a directory that is not
    there), before anything is printed or changed.  With a camera that does
    not open it returns nothing, having created at most that directory.
    Otherwise it returns a count between 0 and the number asked for, at most
    the number of frames the camera served; the only files it can have
    written are the photos numbered from 1 to that count; the camera is
    released and the windows are destroyed once, after the last pass; and the
    closing lines are printed exactly when the count reached the number asked
    for, also when that number is zero or negative and no photo was taken. *)
Theorem capture_faces_from_webcam_session (reg : Registration.FaceRegistration)
    (person_name : string) (num_photos : Z) (opened : bool) (feed : list tick)
    (st : studio) :
  below person_name = true ->
  let person_dir := joinpath (Registration.known_faces_dir reg) person_name in
  let photo k := joinpath person_dir (numbered_photo person_name k) in
  let run := capture_faces_from_webcam reg person_name num_photos opened feed st in
  let printed := Forall (fun o => exists text, o = Print text) in
  match mkdir_exist_ok (disk st) person_dir with
  | Raise t => run = (Raise (FromLibrary t), st)
  | Ok root1 =>
      if opened then
        exists photo_count disk' before closing,
          run = (Ok (Some photo_count),
                 {| disk := disk';
                    screen := screen st ++ before ++ [Release; DestroyAllWindows]
                              ++ closing |})
          /\ (0 <= photo_count <= Z.max 0 num_photos)%Z
          /\ (photo_count <= Z.of_nat (length feed))%Z
          /\ same_files_except
               (fun q => exists k, (0 < k <= photo_count)%Z /\ q = photo k)
               (disk st) disk'
          /\ Forall (fun o => o <> Release /\ o <> DestroyAllWindows) before
          /\ printed closing
          /\ (closing = [] <-> (photo_count < num_photos)%Z)
      else
        exists lines,
          run = (Ok None, {| disk := root1; screen := screen st ++ lines |})
          /\ printed lines
  end.
Proof.
  intros _ person_dir photo run printed.
  destruct (mkdir_exist_ok (disk st) person_dir) as [root1|t] eqn:Hmkdir.
  2:{ subst run. unfold capture_faces_from_webcam. fold person_dir.
      unfold bind at 1, update at 1. by rewrite Hmkdir. }
  destruct opened.
  - destruct (capture_faces_from_webcam_run reg person_name num_photos feed st root1 Hmkdir)
      as (header & Hheader & Hrun).
    fold person_dir in Hrun.
    destruct (capture_loop_run feed person_dir person_name num_photos 0 feed 0
                (Binary64.of_Z 0) {| disk := root1; screen := screen st ++ header |})
      as (photo_count & disk' & body & Hloop & Hbound & Hlen & Hfiles & Hquiet & _);
      [done | done |].
    cbn [disk screen] in Hloop, Hfiles.
    destruct (Hrun photo_count disk' body Hloop) as (closing & Hcapture & Hclosing & Hiff).
    exists photo_count, disk', (header ++ body), closing. subst run.
    split; [by rewrite Hcapture, <- !app_assoc|]. split; [lia|]. split; [lia|].
    split; [|split; [|done]].
    + apply same_files_trans with root1; [|done].
      apply (same_files_weaken (fun _ => False)); [done|].
      by apply mkdir_same_files with person_dir.
    + apply Forall_app. split; [|done].
      eapply Forall_impl; [exact Hheader|]. by intros o [text ->].
  - subst run. unfold capture_faces_from_webcam. fold person_dir.
    unfold bind at 1, update at 1. rewrite Hmkdir.
    eexists. unfold bind, print, emit, modify, ret. cbn [disk screen negb].
    split; [by rewrite <- !app_assoc|]. unfold printed. repeat constructor; eauto.
Qed.

Lemma mkdir_exist_ok_ready root p c root1 :
  is_dir root p = true -> is_file root (p ++ [c]) = false ->
  mkdir_exist_ok root (p ++ [c]) = Ok root1 ->
  is_dir root1 (p ++ [c]) = true
  /\ forall k, is_dir root (p ++ [c] ++ [k]) = false -> is_dir root1 (p ++ [c] ++ [k]) = false.
Proof.
  intros Hp Hc Hmkdir.
  destruct (mkdir_exist_ok_child root p c Hp Hc) as (root' & Hmk & _ & Hcase).
  assert (root' = root1) as -> by congruence.
  unfold is_dir. destruct Hcase as [[-> [es Hes]]|Hnew].
  - rewrite Hes. done.
  - rewrite Hnew. split; [done|]. intros k _. by rewrite app_assoc, resolve_app, Hnew.
Qed.

(** X13: the photos of a session replace the numbered files, for a
    person's name that is one component (not empty, without slash, neither
    [.] nor [..]): the photos then go into the directory of that name inside
    the known-faces directory.  With the known-faces directory in place, the
    person's name free or a directory, and no directory under a numbered photo
    name, a session on an open camera returns a count, and each photo
    numbered from 1 to that count then holds the bytes of a frame of this
    session in which the cascade found a face, whatever stood under that name
    before: the numbering starts again at 1 in every session. *)
Theorem captured_photos_replace_the_numbered_files
    (reg : Registration.FaceRegistration) (person_name : string)
    (num_photos : Z) (feed : list tick) (st : studio) :
  let person_dir := Registration.known_faces_dir reg ++ [person_name] in
  let photo k := person_dir ++ [numbered_photo person_name k] in
  is_component person_name = true ->
  is_dir (disk st) (Registration.known_faces_dir reg) = true ->
  is_file (disk st) person_dir = false ->
  (forall k, is_dir (disk st) (photo k) = false) ->
  exists photo_count st',
    capture_faces_from_webcam reg person_name num_photos true feed st
    = (Ok (Some photo_count), st')
    /\ forall k, (1 <= k <= photo_count)%Z ->
         exists t,
           t ∈ feed /\ detectMultiScale (tick_frame t) <> []
           /\ resolve (disk st') (photo k)
              = Found (File (imencode (numbered_photo person_name k) (tick_frame t) [])).
Proof.
  intros person_dir photo Hname Hdir Hperson Hnodir.
  destruct (mkdir_exist_ok_child (disk st) _ person_name Hdir Hperson)
    as (root1 & Hmkdir & _).
  fold person_dir in Hmkdir.
  destruct (mkdir_exist_ok_ready _ _ _ _ Hdir Hperson Hmkdir) as [Hdir1 Hnodir1].
  fold person_dir in Hdir1.
  assert (joinpath (Registration.known_faces_dir reg) person_name = person_dir)
    as Hjoin by (by apply joinpath_component).
  assert (forall k, joinpath person_dir (numbered_photo person_name k) = photo k)
    as Hphoto by (intros k; by apply joinpath_component, numbered_photo_component).
  rewrite <- Hjoin in Hmkdir.
  destruct (capture_faces_from_webcam_run reg person_name num_photos feed st root1 Hmkdir)
    as (header & Hheader & Hrun).
  rewrite Hjoin in Hrun.
  destruct (capture_loop_run feed person_dir person_name num_photos 0 feed 0
              (Binary64.of_Z 0) {| disk := root1; screen := screen st ++ header |})
    as (photo_count & disk' & body & Hloop & _ & _ & _ & _ & Hsaved);
    [done | done |].
  cbn [disk screen] in Hloop, Hsaved.
  destruct (Hrun photo_count disk' body Hloop) as (closing & Hcapture & _).
  eexists photo_count, _. split; [exact Hcapture|]. cbn [disk].
  intros k Hk.
  destruct (Hsaved) with (k := k) as (t & Ht & Hfaces & Hfile); try lia.
  - intros k'. rewrite Hphoto. unfold photo, parent. by rewrite removelast_last.
  - intros k'. rewrite Hphoto. unfold photo, person_dir. rewrite <- app_assoc.
    apply Hnodir1. rewrite app_assoc. apply Hnodir.
  - exists t. split; [done|]. split; [done|].
    rewrite Hphoto in Hfile. unfold photo at 2 in Hfile.
    by rewrite name_snoc in Hfile.
Qed.

(** The loop of [capture_single_photo], from any pass on. *)
Lemma single_loop_run (served : list tick) (person_dir : path)
    (person_name : string) (photo_name : option string) :
  forall feed st,
    (forall t, t ∈ feed -> t ∈ served) ->
    exists captured disk' body,
      single_loop person_dir person_name photo_name feed st
      = (Ok captured, {| disk := disk'; screen := screen st ++ body |})
      /\ Forall (fun o => o <> Release /\ o <> DestroyAllWindows) body
      /\ if captured then
           exists t,
             t ∈ served /\ detectMultiScale (tick_frame t) <> []
             /\ pressed t = SPACE
             /\ let saved_as := single_photo_name person_name photo_name (tick_time t) in
                let target := joinpath person_dir saved_as in
                match write_file (disk st) target
                        (imencode (name target) (tick_frame t) []) with
                | Ok root' => disk' = root'
                | Raise _ => disk' = disk st
                end
         else disk' = disk st.
Proof.
  induction feed as [|t feed IH]; intros st Hserved.
  - exists false, (disk st), [Print "❌ Impossible de lire l'image"].
    split; [done|]. split; [by repeat constructor|done].
  - cbn [single_loop]. set (shown := Imshow _ _).
    assert (forall t', t' ∈ feed -> t' ∈ served) as Hserved'.
    { intros t' Ht'. apply Hserved. by right. }
    unfold bind at 1. unfold emit at 1, modify at 1.
    destruct (pressed t =? SPACE)%Z eqn:Hspace.
    + destruct (0 <? length (detectMultiScale (tick_frame t)))%nat eqn:Hfaces.
      * unfold bind at 1.
        set (saved_as := single_photo_name person_name photo_name (tick_time t)).
        destruct (imwrite_run (joinpath person_dir saved_as) (tick_frame t) []
                    {| disk := disk st; screen := screen st ++ [shown] |})
          as (disk1 & -> & Hdisk1).
        cbn [disk screen] in Hdisk1.
        exists true, disk1. eexists.
        unfold bind, print, emit, modify, ret. cbn [disk screen].
        split; [by rewrite <- !app_assoc|]. split; [by repeat constructor|].
        exists t. split; [apply Hserved; left|]. split.
        { intros Hnil. by rewrite Hnil in Hfaces. }
        split; [by apply Z.eqb_eq|]. done.
      * unfold bind at 1, print at 1, emit at 1, modify at 1. cbn [disk screen].
        match goal with
        | |- context [single_loop _ _ _ feed ?st1] =>
            destruct (IH st1) as (captured & disk' & body & Hrun & Hquiet & Hcase)
        end; [done|].
        exists captured, disk'. eexists. rewrite Hrun. cbn [screen].
        split; [by rewrite <- !app_assoc|]. split; [by repeat constructor|]. done.
    + destruct (pressed t =? KEY_Q)%Z eqn:Hquit.
      * exists false, (disk st). eexists.
        unfold bind, print, emit, modify, ret. cbn [disk screen].
        split; [by rewrite <- !app_assoc|]. split; [by repeat constructor|]. done.
      * match goal with
        | |- context [single_loop _ _ _ feed ?st1] =>
            destruct (IH st1) as (captured & disk' & body & Hrun & Hquiet & Hcase)
        end; [done|].
        exists captured, disk'. eexists. rewrite Hrun. cbn [screen].
        split; [by rewrite <- !app_assoc|]. split; [by repeat constructor|]. done.
Qed.

(** X15: a session of [capture_single_photo], for a person's name and a
    photo name, if one is given, that are relative names without a [..] part.
    The person's directory is [known_faces_dir / person_name] and the photo
    goes to that directory joined with the file name chosen for it, which may
    lead into a subdirectory.  The session raises only where [mkdir] on the
    person's directory raises.  With a camera that does not open it returns
    False.  Otherwise it returns after the camera was released and the windows
    destroyed, once and at the end.  When it returns False, no file was
    written.  When it returns True, SPACE was pressed on a frame of the feed
    in which the cascade found a face, and every file other than the photo's
    is as it was; the photo's file then holds that frame, or else nothing was
    written, the photo's path being a directory or having no directory as its
    parent: True is returned although [cv2.imwrite] failed. *)
Theorem capture_single_photo_session (reg : Registration.FaceRegistration)
    (person_name : string) (photo_name : option string) (opened : bool)
    (feed : list tick) (st : studio) :
  below person_name = true ->
  (forall given, photo_name = Some given -> below given = true) ->
  let person_dir := joinpath (Registration.known_faces_dir reg) person_name in
  let run := capture_single_photo reg person_name photo_name opened feed st in
  match mkdir_exist_ok (disk st) person_dir with
  | Raise t => run = (Raise (FromLibrary t), st)
  | Ok root1 =>
      if opened then
        exists captured disk' before,
          run = (Ok captured,
                 {| disk := disk';
                    screen := screen st ++ before ++ [Release; DestroyAllWindows] |})
          /\ Forall (fun o => o <> Release /\ o <> DestroyAllWindows) before
          /\ if captured then
               exists t,
                 t ∈ feed /\ detectMultiScale (tick_frame t) <> []
                 /\ pressed t = SPACE
                 /\ let saved_as := single_photo_name person_name photo_name (tick_time t) in
                    let target := joinpath person_dir saved_as in
                    same_files_except (fun q => q = target) (disk st) disk'
                    /\ (resolve disk' target
                        = Found (File (imencode (name target) (tick_frame t) []))
                        \/ (disk' = root1
                            /\ (is_dir root1 target = true
                                \/ is_dir root1 (parent target) = false)))
             else disk' = root1
      else
        exists lines,
          run = (Ok false, {| disk := root1; screen := screen st ++ lines |})
          /\ Forall (fun o => exists text, o = Print text) lines
  end.
Proof.
  intros _ _ person_dir run.
  destruct (mkdir_exist_ok (disk st) person_dir) as [root1|t] eqn:Hmkdir.
  2:{ subst run. unfold capture_single_photo. fold person_dir.
      unfold bind at 1, update at 1. by rewrite Hmkdir. }
  destruct opened.
  - subst run. unfold capture_single_photo. fold person_dir.
    unfold bind at 1, update at 1. rewrite Hmkdir.
    do 2 (unfold bind at 1, print at 1, emit at 1, modify at 1; cbn [disk screen]).
    cbn [negb]. unfold try_finally.
    match goal with
    | |- context [single_loop _ _ _ _ ?st1] =>
        destruct (single_loop_run feed person_dir person_name photo_name feed st1)
          as (captured & disk' & body & -> & Hquiet & Hcase)
    end; [done|].
    cbn [disk screen] in Hcase |- *.
    unfold bind, emit, modify. cbn [disk screen].
    exists captured, disk',
      ([Print (nl +:+ "📸 Capture d'une photo pour " +:+ person_name);
        Print "Appuyez sur ESPACE pour capturer"] ++ body).
    split; [by rewrite <- !app_assoc|]. split; [by repeat constructor|].
    destruct captured; [|done].
    destruct Hcase as (t & Ht & Hfaces & Hspace & Hwritten).
    exists t. split; [done|]. split; [done|]. split; [done|]. cbv zeta in Hwritten |- *.
    set (saved_as := single_photo_name person_name photo_name (tick_time t)) in *.
    assert (same_files_except (fun _ => False) (disk st) root1) as Hmade
      by (by apply mkdir_same_files with person_dir).
    set (target := joinpath person_dir saved_as) in *.
    destruct (write_file root1 target _) as [root'|e] eqn:Hwrite.
    + subst disk'. split.
      * apply same_files_trans with root1.
        -- by apply (same_files_weaken (fun _ => False)).
        -- by apply write_file_same_files with (imencode (name target) (tick_frame t) []).
      * left. by apply resolve_after_write with root1.
    + subst disk'. split.
      * by apply (same_files_weaken (fun _ => False)).
      * right. split; [done|].
        destruct (is_dir root1 target) eqn:Htarget; [by left|]. right.
        destruct (is_dir root1 (parent target)) eqn:Hparent; [|done].
        destruct (write_file_possible root1 target
                    (imencode (name target) (tick_frame t) []) Hparent Htarget)
          as (root' & Hok & _).
        congruence.
  - subst run. unfold capture_single_photo. fold person_dir.
    unfold bind at 1, update at 1. rewrite Hmkdir.
    eexists. unfold bind, print, emit, modify, ret. cbn [disk screen negb].
    split; [by rewrite <- !app_assoc|]. repeat constructor; eauto.
Qed.

(** The loop of [start_video_recognition], from any pass on. *)
Lemma video_loop_run (sys : Recognition.FaceRecognitionSystem) :
  forall feed frame_count detected_names st,
    exists r disk' body,
      video_loop sys feed frame_count detected_names st
      = (r, {| disk := disk'; screen := screen st ++ body |})
      /\ Forall (fun o => o <> Release /\ o <> DestroyAllWindows) body
      /\ same_files_except
           (fun q => exists k,
              (frame_count < k <= frame_count + Z.of_nat (length feed))%Z
              /\ q = ["screenshot_" +:+ pretty k +:+ ".jpg"])
           (disk st) disk'
      /\ forall e, r = Raise e ->
           exists i t,
             feed !! i = Some t
             /\ ((frame_count + Z.of_nat i) mod 2 = 0)%Z
             /\ Drawing.recognize_faces_in_frame sys (tick_frame t) = Raise e.
Proof.
  induction feed as [|t feed IH]; intros frame_count detected_names st.
  - exists (Ok tt), (disk st), [Print "❌ Impossible de lire l'image"].
    split; [done|]. split; [by repeat constructor|]. split; [apply same_files_refl|].
    done.
  - cbn [video_loop]. unfold bind at 1.
    set (recognized :=
           if (frame_count mod 2 =? 0)%Z
           then Drawing.recognize_faces_in_frame sys (tick_frame t)
           else Ok ([], detected_names)).
    match goal with
    | |- context K [(if ?c then ?f else ?g) st] =>
        let G := context K [(recognized, st)] in
        cut G; [subst recognized; destruct c; exact (fun H => H)|]
    end.
    destruct recognized as [[shapes names]|e] eqn:Hrecognized.
    2:{ exists (Raise e), (disk st), []. rewrite app_nil_r, studio_eta.
        split; [done|]. split; [constructor|]. split; [apply same_files_refl|].
        intros e' [= <-]. exists 0, t. split; [done|].
        destruct (frame_count mod 2 =? 0)%Z eqn:Heven; [|done].
        apply Z.eqb_eq in Heven. split; [|done]. simpl. by rewrite Z.add_0_r. }
    clear Hrecognized.
    set (drawn := shapes ++ _).
    unfold bind at 1, emit at 1, modify at 1. cbn [disk screen].
    set (shown := Imshow _ _).
    destruct (pressed t =? KEY_Q)%Z eqn:Hquit.
    + exists (Ok tt), (disk st), [shown]. unfold ret.
      split; [done|]. split; [by repeat constructor|]. split; [apply same_files_refl|].
      done.
    + unfold bind at 1.
      set (screenshot := ["screenshot_" +:+ pretty (frame_count + 1)%Z +:+ ".jpg"]).
      assert (exists disk1 extra,
                (if (pressed t =? KEY_S)%Z
                 then (imwrite screenshot (tick_frame t) drawn ;;
                       print ("📸 Capture sauvegardée: "
                              +:+ "screenshot_" +:+ pretty (frame_count + 1)%Z +:+ ".jpg"))%prog
                 else ret tt)
                  {| disk := disk st; screen := screen st ++ [shown] |}
                = (Ok tt, {| disk := disk1; screen := (screen st ++ [shown]) ++ extra |})
                /\ Forall (fun o => o <> Release /\ o <> DestroyAllWindows) extra
                /\ same_files_except (fun q => q = screenshot) (disk st) disk1)
        as (disk1 & extra & -> & Hextra & Hshot).
      { destruct (pressed t =? KEY_S)%Z.
        - unfold bind at 1.
          destruct (imwrite_run screenshot (tick_frame t) drawn
                      {| disk := disk st; screen := screen st ++ [shown] |})
            as (disk1 & -> & Hdisk1).
          cbn [disk screen] in Hdisk1. exists disk1. eexists.
          unfold print, emit, modify. cbn [disk screen].
          split; [reflexivity|]. split; [by repeat constructor|].
          destruct (write_file _ _ _) as [root'|] eqn:Hwrite; subst disk1.
          + by apply write_file_same_files
              with (imencode (name screenshot) (tick_frame t) drawn).
          + apply same_files_refl.
        - exists (disk st), []. unfold ret. rewrite app_nil_r.
          split; [done|]. split; [constructor|]. apply same_files_refl. }
      destruct (IH (frame_count + 1)%Z names
                  {| disk := disk1; screen := (screen st ++ [shown]) ++ extra |})
        as (r & disk' & body & -> & Hquiet & Hfiles & Hraise).
      cbn [disk screen] in Hfiles |- *.
      exists r, disk', ([shown] ++ extra ++ body).
      split; [by rewrite <- !app_assoc|]. split.
      { apply Forall_app. split; [by repeat constructor|]. by apply Forall_app. }
      split.
      * apply same_files_trans with disk1.
        -- apply (same_files_weaken (fun q => q = screenshot)); [|done].
           intros q ->. exists (frame_count + 1)%Z. split; [simpl length; lia | done].
        -- apply (same_files_weaken
                    (fun q => exists k,
                       (frame_count + 1 < k <= frame_count + 1 + Z.of_nat (length feed))%Z
                       /\ q = ["screenshot_" +:+ pretty k +:+ ".jpg"])); [|done].
           intros q (k & Hk & ->). exists k. split; [simpl length; lia | done].
      * intros e He. destruct (Hraise e He) as (i & t' & Hi & Hparity & Hfailed).
        exists (S i), t'. split; [done|]. split; [|done].
        rewrite Nat2Z.inj_succ. by replace (frame_count + Z.succ (Z.of_nat i))%Z
          with (frame_count + 1 + Z.of_nat i)%Z by lia.
Qed.

(** X16: a session of [start_video_recognition].  With a camera that does
    not open it returns after its announcements and leaves the files alone.
    Otherwise, however the loop ends, the camera is released, the windows are
    destroyed and the closing line is printed, once and at the very end, also
    when the recognition raises.  An exception can only come out of the
    recognition of a frame at an even position in the feed: the frames in
    between are shown without being analysed.  The only files the session can
    write are screenshots in the working directory, numbered by the count of
    frames read so far, from 1 on. *)
Theorem start_video_recognition_session (sys : Recognition.FaceRecognitionSystem)
    (opened : bool) (feed : list tick) (st : studio) :
  let run := start_video_recognition sys opened feed st in
  if opened then
    exists r disk' before,
      run = (r, {| disk := disk';
                   screen := screen st ++ before
                             ++ [Release; DestroyAllWindows;
                                 Print (nl +:+ "✓ Reconnaissance faciale arrêtée")] |})
      /\ Forall (fun o => o <> Release /\ o <> DestroyAllWindows) before
      /\ same_files_except
           (fun q => exists k,
              (1 <= k <= Z.of_nat (length feed))%Z
              /\ q = ["screenshot_" +:+ pretty k +:+ ".jpg"])
           (disk st) disk'
      /\ (r = Ok tt
          \/ exists e i t,
               r = Raise e /\ feed !! (2 * i) = Some t
               /\ Drawing.recognize_faces_in_frame sys (tick_frame t) = Raise e)
  else
    exists lines,
      run = (Ok tt, {| disk := disk st; screen := screen st ++ lines |})
      /\ Forall (fun o => exists text, o = Print text) lines.
Proof.
  intros run. subst run. unfold start_video_recognition.
  do 3 (unfold bind at 1, print at 1, emit at 1, modify at 1; cbn [disk screen]).
  destruct opened; cbn [negb].
  - unfold try_finally.
    match goal with
    | |- context [video_loop _ _ _ _ ?st1] =>
        destruct (video_loop_run sys feed 0 [] st1)
          as (r & disk' & body & -> & Hquiet & Hfiles & Hraise)
    end.
    cbn [disk screen] in Hfiles |- *.
    unfold bind, print, emit, modify. cbn [disk screen].
    exists r, disk',
      ([Print (nl +:+ "🎥 Démarrage de la reconnaissance faciale...");
        Print "Appuyez sur 'q' pour quitter";
        Print "Appuyez sur 's' pour prendre une capture d'écran"] ++ body).
    split; [by rewrite <- !app_assoc|]. split; [by repeat constructor|]. split.
    + apply (same_files_weaken
               (fun q => exists k,
                  (0 < k <= 0 + Z.of_nat (length feed))%Z
                  /\ q = ["screenshot_" +:+ pretty k +:+ ".jpg"])); [|done].
      intros q (k & Hk & ->). exists k. split; [lia | done].
    + destruct r as [[]|e]; [by left|]. right.
      destruct (Hraise e eq_refl) as (i & t & Hi & Hparity & Hfailed).
      exists e, (i / 2), t. split; [done|]. split; [|done].
      replace (2 * (i / 2)) with i; [done|].
      assert (Z.of_nat i mod 2 = 0)%Z as Hmod by (by rewrite Z.add_0_l in Hparity).
      pose proof (Nat.div_mod_eq i 2) as Hdiv.
      assert (i mod 2 = 0); [|lia].
      apply Nat2Z.inj. by rewrite Nat2Z.inj_mod.
  - exists [Print (nl +:+ "🎥 Démarrage de la reconnaissance faciale...");
            Print "Appuyez sur 'q' pour quitter";
            Print "Appuyez sur 's' pour prendre une capture d'écran";
            Print "❌ Impossible d'ouvrir la webcam"].
    unfold bind, print, emit, modify. cbn beta iota. cbn [disk screen].
    split; [by rewrite <- !app_assoc|]. repeat constructor; eauto.
Qed.

End StudioFacts.

(** ** Recognition on one image *)

Section ImageFacts.
Context {L : Libraries} {B : Boxes L} {C : Camera L}.
Import Studio Drawing.

(** X17: [recognize_in_image] never writes a file, and an image that cv2
    cannot read makes it print a line and return, where [load_image] of
    utils.py raises.  On a readable image it raises only what the recognition
    raises; with libraries that keep their laws and a registry of two lists of
    equal length it returns, after the window was shown and closed, and the
    line it prints counts the faces that were detected. *)
Theorem recognize_in_image_session (sys : Recognition.FaceRecognitionSystem)
    (image_path : path) (st : studio) :
  let run := recognize_in_image sys image_path st in
  disk run.2 = disk st
  /\ match Utils.imread (disk st) image_path with
     | None =>
         exists lines,
           run = (Ok tt, {| disk := disk st; screen := screen st ++ lines |})
           /\ Forall (fun o => exists text, o = Print text) lines
     | Some frame =>
         (forall e, run.1 = Raise e ->
                    Drawing.recognize_faces_in_frame sys frame = Raise e)
         /\ (LibraryLaws L ->
             length (Recognition.known_face_names sys)
             = length (Recognition.known_face_encodings sys) ->
             exists shapes names before,
               Recognition.recognize_faces_in_frame sys frame = Ok names
               /\ length names
                  = length (fr_face_encodings_at
                              (cv2_resize_quarter (cv2_cvtColor_BGR2RGB frame))
                              (fr_face_locations
                                 (cv2_resize_quarter (cv2_cvtColor_BGR2RGB frame))))
               /\ run
                  = (Ok tt,
                     {| disk := disk st;
                        screen :=
                          screen st ++ before
                          ++ [Print ("✓ " +:+ pretty (length names)
                                     +:+ " visage(s) détecté(s): "
                                     +:+ String.concat ", " names);
                              Imshow "Reconnaissance Faciale - Image" (Drawn frame shapes);
                              Print "Appuyez sur une touche pour fermer...";
                              WaitKey 0;
                              DestroyAllWindows] |}))
     end.
Proof.
  intros run. subst run.
  unfold recognize_in_image, bind, print, emit, modify, gets.
  cbn beta iota delta [fst snd disk screen].
  destruct (Utils.imread (disk st) image_path) as [frame|] eqn:Hread.
  - destruct (Drawing.recognize_faces_in_frame sys frame) as [[shapes names]|e] eqn:Hrun;
      cbn beta iota delta [fst snd disk screen].
    + split; [done|]. split; [done|]. intros laws Hlen.
      assert (Recognition.recognize_faces_in_frame sys frame = Ok names) as Hnames.
      { revert Hrun. unfold Drawing.recognize_faces_in_frame,
          Recognition.recognize_faces_in_frame.
        destruct (for_each _ _ _) as [[[]|e] names']; [|done]. by intros [= _ <-]. }
      exists shapes, names,
        [Print (nl +:+ "🖼️ Analyse de l'image: " +:+ path_str image_path)].
      split; [done|]. split; [|by rewrite <- !app_assoc].
      revert Hnames. unfold Recognition.recognize_faces_in_frame.
      rewrite name_faces_run by done. intros [= <-]. by rewrite length_fmap.
    + split; [done|]. split; [by intros e' [= <-]|].
      intros laws Hlen. exfalso. revert Hrun.
      unfold Drawing.recognize_faces_in_frame. by rewrite name_faces_run.
  - cbn beta iota delta [fst snd disk screen]. split; [done|].
    exists [Print (nl +:+ "🖼️ Analyse de l'image: " +:+ path_str image_path);
            Print "❌ Impossible de charger l'image"].
    split; [by rewrite <- !app_assoc|]. repeat constructor; eauto.
Qed.

End ImageFacts.

(** ** Runs of Part III on the small instance *)

#[local] Existing Instance ToyStudio.boxes.
#[local] Existing Instance ToyStudio.camera.

(** A name with a slash at its end: the photo goes to the directory of the
    name without it. *)
Lemma add_from_file_touches_only_the_destination_witness :
  resolve (fs Toy.start) ["known_faces"; "Jean"; "photo1.jpg"]
  = Found (File (Toy.Picture [100%Z; 900%Z]))
  /\ is_component "photo1.jpg" = true
  /\ below "Paul/" = true
  /\ (is_dir (fs Toy.start) ["known_faces"; "Paul"] = true
      \/ (path_exists (fs Toy.start) ["known_faces"; "Paul"] = false
          /\ is_dir (fs Toy.start) (parent ["known_faces"; "Paul"]) = true))
  /\ is_dir (fs Toy.start) ["known_faces"; "Paul"; "photo1.jpg"] = false
  /\ ["known_faces"; "Jean"; "photo1.jpg"] <> ["known_faces"; "Paul"; "photo1.jpg"]
  /\ exists w',
       Registration.add_from_file Toy.registration "Paul/"
         ["known_faces"; "Jean"; "photo1.jpg"] Toy.start = (Ok true, w')
       /\ resolve (fs w') ["known_faces"; "Paul"; "photo1.jpg"]
          = Found (File (Toy.Picture [100%Z; 900%Z]))
       /\ resolve (fs w') ["known_faces"; "Jean"; "photo1.jpg"]
          = Found (File (Toy.Picture [100%Z; 900%Z]))
       /\ (forall q x, q <> ["known_faces"; "Paul"; "photo1.jpg"] ->
             resolve (fs w') q = Found (File x) <-> resolve (fs Toy.start) q = Found (File x))
       /\ console w' = [ImageAdded ["known_faces"; "Paul"; "photo1.jpg"]].
Proof.
  split; [reflexivity|]. split; [reflexivity|]. split; [reflexivity|].
  split; [right; split; reflexivity|]. split; [reflexivity|].
  split; [discriminate|].
  apply (add_from_file_touches_only_the_destination (L := Toy.libraries)
           Toy.registration "Paul/" ["known_faces"; "Jean"; "photo1.jpg"]
           (Toy.Picture [100%Z; 900%Z]) Toy.start);
    first [reflexivity | discriminate | right; split; reflexivity].
Defined.

Lemma added_photo_is_registered_at_next_start_witness :
  UtilsMore.get_face_encoding ["known_faces"; "Jean"; "photo1.jpg"] Toy.start
  = (Ok [100%Z; 900%Z], Toy.start)
  /\ has_image_suffix "photo1.jpg" = true
  /\ is_component "photo1.jpg" = true
  /\ below "./Paul" = true
  /\ components "./Paul" = ["Paul"]
  /\ path_exists (fs Toy.start) ["face_encodings.pkl"] = false
  /\ ["known_faces"] <> ([] : path)
  /\ is_dir (fs Toy.start) ["known_faces"] = true
  /\ is_file (fs Toy.start) ["known_faces"; "Paul"] = false
  /\ is_dir (fs Toy.start) ["known_faces"; "Paul"; "photo1.jpg"] = false
  /\ ["known_faces"; "Jean"; "photo1.jpg"] <> ["known_faces"; "Paul"; "photo1.jpg"]
  /\ exists w' s',
       Registration.add_from_file Toy.registration "./Paul"
         ["known_faces"; "Jean"; "photo1.jpg"] Toy.start = (Ok true, w')
       /\ Recognition.init ["known_faces"] 600%Z w' = (Ok tt, s')
       /\ exists i,
            Recognition.known_face_encodings (Recognition.self s') !! i = Some 100%Z
            /\ Recognition.known_face_names (Recognition.self s') !! i = Some "Paul".
Proof.
  repeat (split; [first [reflexivity | discriminate]|]).
  apply (added_photo_is_registered_at_next_start (L := Toy.libraries)
           Toy.registration "./Paul" "Paul" ["known_faces"; "Jean"; "photo1.jpg"]
           100%Z [900%Z] 600%Z Toy.start);
    first [reflexivity | discriminate].
Defined.

(** A photo added under an empty name lands in the known-faces directory,
    where the scan looks at directories only: the next start registers
    nothing of it. *)
Example photo_added_under_an_empty_name_is_not_registered :
  let added := Registration.add_from_file Toy.registration ""
                 ["known_faces"; "Marie"; "portrait.BMP"] Toy.start in
  let restarted := Recognition.init ["known_faces"] 600%Z added.2 in
  added.1 = Ok true
  /\ resolve (fs added.2) ["known_faces"; "portrait.BMP"]
     = Found (File (Toy.Picture [500%Z]))
  /\ restarted.1 = Ok tt
  /\ Recognition.known_face_names (Recognition.self restarted.2) = ["Jean"; "Marie"].
Proof. cbv zeta. repeat apply conj; vm_compute; reflexivity. Qed.

Lemma saved_encodings_are_the_registry_at_next_start_witness :
  PickleRoundTrip Toy.libraries
  /\ Utils.save_encodings [7%Z; 8%Z] ["Ada"] ["face_encodings.pkl"] Toy.start
     = (Ok tt,
        {| fs := Dir [("known_faces", Toy.known_faces);
                      ("face_encodings.pkl",
                       File (Toy.Pickled (Utils.blob [7%Z; 8%Z] ["Ada"])))];
           console := [] |})
  /\ exists s',
       Recognition.init ["known_faces"] 600%Z
         {| fs := Dir [("known_faces", Toy.known_faces);
                       ("face_encodings.pkl",
                        File (Toy.Pickled (Utils.blob [7%Z; 8%Z] ["Ada"])))];
            console := [] |}
       = (Ok tt, s')
       /\ Recognition.known_face_encodings (Recognition.self s') = [7%Z; 8%Z]
       /\ Recognition.known_face_names (Recognition.self s') = ["Ada"]
       /\ fs (Recognition.env s')
          = Dir [("known_faces", Toy.known_faces);
                 ("face_encodings.pkl",
                  File (Toy.Pickled (Utils.blob [7%Z; 8%Z] ["Ada"])))].
Proof.
  split; [exact toy_pickle|]. split; [reflexivity|].
  exact (saved_encodings_are_the_registry_at_next_start (L := Toy.libraries)
           [7%Z; 8%Z] ["Ada"] ["known_faces"] 600%Z Toy.start _ toy_pickle eq_refl).
Defined.

Lemma restart_keeps_the_registry_witness :
  PickleRoundTrip Toy.libraries
  /\ Recognition.known_face_encodings
       (Recognition.self
          (Recognition.init ["known_faces"] 600%Z
             (Recognition.env (Recognition.init ["known_faces"] 600%Z Toy.start).2)).2)
     = Recognition.known_face_encodings
         (Recognition.self (Recognition.init ["known_faces"] 600%Z Toy.start).2)
  /\ Recognition.known_face_names
       (Recognition.self
          (Recognition.init ["known_faces"] 600%Z
             (Recognition.env (Recognition.init ["known_faces"] 600%Z Toy.start).2)).2)
     = Recognition.known_face_names
         (Recognition.self (Recognition.init ["known_faces"] 600%Z Toy.start).2).
Proof.
  split; [exact toy_pickle|].
  exact (restart_keeps_the_registry (L := Toy.libraries) ["known_faces"] 600%Z Toy.start
           toy_pickle).
Defined.

Lemma reencode_appends_to_the_registry_witness :
  Recognition.encodings_file Toy.system = ["face_encodings.pkl"]
  /\ Recognition.known_faces_dir Toy.system = "known_faces" :: []
  /\ "known_faces" <> "face_encodings.pkl"
  /\ is_dir Toy.cwd ["face_encodings.pkl"] = false
  /\ resolve Toy.cwd ["known_faces"] = Found Toy.known_faces
  /\ exists s',
       Main.reencode {| Recognition.self := Toy.system; Recognition.env := Toy.start |}
       = (Ok Main.ReencodingDone, s')
       /\ Recognition.known_face_encodings (Recognition.self s')
          = [100%Z; 500%Z; 100%Z; 500%Z]
       /\ Recognition.known_face_names (Recognition.self s')
          = ["Jean"; "Marie"; "Jean"; "Marie"].
Proof.
  repeat (split; [first [reflexivity | discriminate]|]).
  destruct (reencode_appends_to_the_registry (L := Toy.libraries)
              {| Recognition.self := Toy.system; Recognition.env := Toy.start |}
              "face_encodings.pkl" "known_faces" [] _
              eq_refl eq_refl ltac:(discriminate) eq_refl eq_refl)
    as (s' & Hrun & Hes & Hns & _).
  exists s'. split; [exact Hrun|]. split; [exact Hes | exact Hns].
Defined.

Lemma reencode_after_a_scan_doubles_the_registry_witness :
  "known_faces" <> "face_encodings.pkl"
  /\ path_exists (fs Toy.start) ["face_encodings.pkl"] = false
  /\ resolve (fs Toy.start) ["known_faces"] = Found Toy.known_faces
  /\ exists s1 s2,
       Recognition.init ["known_faces"] 600%Z Toy.start = (Ok tt, s1)
       /\ Recognition.known_face_encodings (Recognition.self s1) = [100%Z; 500%Z]
       /\ Recognition.known_face_names (Recognition.self s1) = ["Jean"; "Marie"]
       /\ Main.reencode s1 = (Ok Main.ReencodingDone, s2)
       /\ Recognition.known_face_encodings (Recognition.self s2)
          = [100%Z; 500%Z; 100%Z; 500%Z]
       /\ Recognition.known_face_names (Recognition.self s2)
          = ["Jean"; "Marie"; "Jean"; "Marie"].
Proof.
  repeat (split; [first [reflexivity | discriminate]|]).
  destruct (reencode_after_a_scan_doubles_the_registry (L := Toy.libraries)
              "known_faces" [] 600%Z Toy.start _
              ltac:(discriminate) eq_refl eq_refl)
    as (s1 & s2 & Hinit & Hes1 & Hns1 & Hrun & Hes2 & Hns2 & _).
  exists s1, s2. repeat (split; [assumption|]). assumption.
Defined.

Lemma mosaic_grid_is_nearly_square_witness :
  (1 <= 7)%Z
  /\ ((Utils.mosaic_cols 7 - 1) * (Utils.mosaic_cols 7 - 1) < 7
      <= Utils.mosaic_cols 7 * Utils.mosaic_cols 7
      /\ Utils.mosaic_cols 7 - 1 <= Utils.mosaic_rows 7 <= Utils.mosaic_cols 7
      /\ (Utils.mosaic_rows 7 - 1) * Utils.mosaic_cols 7 < 7
         <= Utils.mosaic_rows 7 * Utils.mosaic_cols 7)%Z.
Proof.
  split; [lia|]. apply (mosaic_grid_is_nearly_square 7). lia.
Defined.

Lemma mosaic_cells_in_reading_order_witness :
  [[1%Z]; [2%Z]; [3%Z]; [4%Z]; [5%Z]] <> ([] : list (list Z))
  /\ exists m,
       Utils.build_mosaic (L := Toy.libraries) [[1%Z]; [2%Z]; [3%Z]; [4%Z]; [5%Z]]
       = Some (Ok tt, m)
       /\ Utils.blocks m !! (1, 1)%Z = Some [5%Z]
       /\ Utils.blocks m !! (1, 2)%Z = None.
Proof.
  split; [discriminate|].
  destruct (mosaic_cells_in_reading_order (L := Toy.libraries)
              [[1%Z]; [2%Z]; [3%Z]; [4%Z]; [5%Z]]) as (m & Hrun & _ & _ & Hcells);
    [discriminate|].
  exists m. split; [exact Hrun|]. split.
  - apply (Hcells 1%Z 1%Z); vm_compute; split; congruence.
  - apply (Hcells 1%Z 2%Z); vm_compute; split; congruence.
Defined.

Lemma recognize_faces_in_frame_draws_the_labels_witness :
  Drawing.recognize_faces_in_frame Toy.system [120%Z; 2000%Z]
  = Ok (Drawing.draw_face (0, "Jean (98.0%)") ++ Drawing.draw_face (1, "Inconnu"),
        ["Jean (98.0%)"; "Inconnu"])
  /\ Recognition.recognize_faces_in_frame Toy.system [120%Z; 2000%Z]
     = Ok ["Jean (98.0%)"; "Inconnu"]
  /\ take 3 (drop (3 * 1)
               (Drawing.draw_face (0, "Jean (98.0%)") ++ Drawing.draw_face (1, "Inconnu")))
     = [Drawing.Rectangle (40, 40)%Z (72, 72)%Z (0, 0, 255)%Z 2;
        Drawing.Rectangle (40, 37)%Z (72, 72)%Z (0, 0, 255)%Z (-1);
        Drawing.PutText "Inconnu" (46, 66)%Z Drawing.FONT_HERSHEY_DUPLEX (6 # 10)
          (255, 255, 255)%Z 1].
Proof.
  split; [reflexivity|].
  destruct (recognize_faces_in_frame_draws_the_labels (L := Toy.libraries)
              Toy.system [120%Z; 2000%Z] _ _ eq_refl) as (Hnames & _ & Hdrawn).
  split; [exact Hnames|].
  exact (Hdrawn 1 1 "Inconnu" 10%Z 18%Z 18%Z 10%Z eq_refl eq_refl eq_refl).
Defined.

Lemma captured_photos_replace_the_numbered_files_witness :
  is_component "Marie" = true
  /\ is_dir (Studio.disk ToyStudio.studio) ["known_faces"] = true
  /\ is_file (Studio.disk ToyStudio.studio) ["known_faces"; "Marie"] = false
  /\ (forall k, is_dir (Studio.disk ToyStudio.studio)
                  (["known_faces"; "Marie"] ++ [Studio.numbered_photo "Marie" k]) = false)
  /\ exists photo_count st',
       Studio.capture_faces_from_webcam Toy.registration "Marie" 2 true ToyStudio.feed
         ToyStudio.studio
       = (Ok (Some photo_count), st')
       /\ forall k, (1 <= k <= photo_count)%Z ->
            exists t,
              t ∈ ToyStudio.feed /\ detectMultiScale (Studio.tick_frame t) <> []
              /\ resolve (Studio.disk st')
                   (["known_faces"; "Marie"] ++ [Studio.numbered_photo "Marie" k])
                 = Found (File (imencode (Studio.numbered_photo "Marie" k)
                                  (Studio.tick_frame t) [])).
Proof.
  assert (forall k, is_dir (Studio.disk ToyStudio.studio)
                      (["known_faces"; "Marie"] ++ [Studio.numbered_photo "Marie" k]) = false)
    as Hfree.
  { intros k. unfold is_dir. simpl.
    by destruct (String.eqb (Studio.numbered_photo "Marie" k) "portrait.BMP"). }
  split; [reflexivity|]. split; [reflexivity|]. split; [reflexivity|].
  split; [exact Hfree|].
  exact (captured_photos_replace_the_numbered_files (L := Toy.libraries)
           Toy.registration "Marie" 2 ToyStudio.feed ToyStudio.studio
           eq_refl eq_refl eq_refl Hfree).
Defined.

Lemma capture_faces_from_webcam_session_witness :
  below "Marie" = true
  /\ exists photo_count disk' before closing,
       Studio.capture_faces_from_webcam Toy.registration "Marie" 2 true ToyStudio.feed
         ToyStudio.studio
       = (Ok (Some photo_count),
          {| Studio.disk := disk';
             Studio.screen :=
               Studio.screen ToyStudio.studio
               ++ before ++ [Studio.Release; Studio.DestroyAllWindows] ++ closing |})
       /\ (0 <= photo_count <= Z.max 0 2)%Z
       /\ (photo_count <= Z.of_nat (length ToyStudio.feed))%Z
       /\ same_files_except
            (fun q => exists k, (0 < k <= photo_count)%Z
                                /\ q = joinpath ["known_faces"; "Marie"]
                                         (Studio.numbered_photo "Marie" k))
            (Studio.disk ToyStudio.studio) disk'
       /\ Forall (fun o => o <> Studio.Release /\ o <> Studio.DestroyAllWindows) before
       /\ Forall (fun o => exists text, o = Studio.Print text) closing
       /\ (closing = [] <-> (photo_count < 2)%Z).
Proof.
  split; [reflexivity|].
  exact (capture_faces_from_webcam_session (L := Toy.libraries)
           Toy.registration "Marie" 2 true ToyStudio.feed ToyStudio.studio eq_refl).
Defined.

(** A photo name that leads into a subdirectory that is not there: SPACE on a
    frame with a face returns True, and nothing is written. *)
Lemma capture_single_photo_session_witness :
  below "Marie" = true
  /\ (forall given, Some "2024/face" = Some given -> below given = true)
  /\ exists captured disk' before,
       Studio.capture_single_photo Toy.registration "Marie" (Some "2024/face") true
         ToyStudio.feed ToyStudio.studio
       = (Ok captured,
          {| Studio.disk := disk';
             Studio.screen :=
               Studio.screen ToyStudio.studio
               ++ before ++ [Studio.Release; Studio.DestroyAllWindows] |})
       /\ Forall (fun o => o <> Studio.Release /\ o <> Studio.DestroyAllWindows) before
       /\ if captured then
            exists t,
              t ∈ ToyStudio.feed /\ detectMultiScale (Studio.tick_frame t) <> []
              /\ Studio.pressed t = Studio.SPACE
              /\ let saved_as :=
                   Studio.single_photo_name "Marie" (Some "2024/face")
                     (Studio.tick_time t) in
                 let target := joinpath ["known_faces"; "Marie"] saved_as in
                 same_files_except (fun q => q = target)
                   (Studio.disk ToyStudio.studio) disk'
                 /\ (resolve disk' target
                     = Found (File (imencode (name target) (Studio.tick_frame t) []))
                     \/ (disk' = Toy.cwd
                         /\ (is_dir Toy.cwd target = true
                             \/ is_dir Toy.cwd (parent target) = false)))
          else disk' = Toy.cwd.
Proof.
  assert (forall given, Some "2024/face" = Some given -> below given = true) as Hgiven
    by (by intros given [= <-]).
  split; [reflexivity|]. split; [exact Hgiven|].
  exact (capture_single_photo_session (L := Toy.libraries)
           Toy.registration "Marie" (Some "2024/face") true ToyStudio.feed
           ToyStudio.studio eq_refl Hgiven).
Defined.

Example toy_single_photo_below_a_missing_directory :
  let run := Studio.capture_single_photo Toy.registration "Marie" (Some "2024/face") true
               ToyStudio.feed ToyStudio.studio in
  run.1 = Ok true /\ Studio.disk run.2 = Toy.cwd.
Proof. cbv zeta. repeat apply conj; vm_compute; reflexivity. Qed.

(** A person's name of two parts: the directory is made inside an existing
    one, but the file name of the photos repeats the whole name, so that the
    photos are aimed below a directory that is not there and none is written,
    while the session counts them. *)
Example toy_capture_with_a_name_of_two_parts :
  let run := Studio.capture_faces_from_webcam Toy.registration "Marie/2024" 2 true
               ToyStudio.feed ToyStudio.studio in
  run.1 = Ok (Some 2%Z)
  /\ resolve (Studio.disk run.2) ["known_faces"; "Marie"; "2024"] = Found (Dir [])
  /\ joinpath ["known_faces"; "Marie"; "2024"] (Studio.numbered_photo "Marie/2024" 1)
     = ["known_faces"; "Marie"; "2024"; "Marie"; "2024_001.jpg"].
Proof. cbv zeta. repeat apply conj; vm_compute; reflexivity. Qed.

(** The session on the small feed: the first SPACE saves a photo, the second
    comes within the second after and is ignored, the third finds no face, the
    fourth saves the second photo, and the count is reached before the q. *)
Example toy_capture_session :
  let run := Studio.capture_faces_from_webcam Toy.registration "Marie" 2 true
               ToyStudio.feed ToyStudio.studio in
  run.1 = Ok (Some 2%Z)
  /\ resolve (Studio.disk run.2) ["known_faces"; "Marie"; "Marie_001.jpg"]
     = Found (File (Toy.Picture [110%Z]))
  /\ resolve (Studio.disk run.2) ["known_faces"; "Marie"; "Marie_002.jpg"]
     = Found (File (Toy.Picture [130%Z]))
  /\ resolve (Studio.disk run.2) ["known_faces"; "Marie"; "Marie_003.jpg"] = NoEntry
  /\ length (List.filter (fun o => match o with Studio.Release => true | _ => false end)
               (Studio.screen run.2)) = 1.
Proof. cbv zeta. repeat apply conj; vm_compute; reflexivity. Qed.

(** Three frames on the camera: s is pressed on the second, which is shown
    without being analysed and saved as the second screenshot, and q on the
    third; the fourth is never read. *)
Example toy_video_session :
  let run := Studio.start_video_recognition Toy.system true
               [ToyStudio.pass [120%Z] (-1) 0; ToyStudio.pass [2000%Z] 115 0;
                ToyStudio.pass [480%Z] (113 + 256) 0; ToyStudio.pass [1%Z] 0 0]
               ToyStudio.studio in
  run.1 = Ok tt
  /\ resolve (Studio.disk run.2) ["screenshot_2.jpg"] = Found (File (Toy.Picture [2000%Z]))
  /\ resolve (Studio.disk run.2) ["screenshot_1.jpg"] = NoEntry
  /\ List.filter (fun o => match o with Studio.Imshow _ _ => true | _ => false end)
       (Studio.screen run.2)
     = [Studio.Imshow "Reconnaissance Faciale"
          (Studio.Drawn [120%Z]
             (Drawing.draw_face (0, "Jean (98.0%)")
              ++ [Drawing.PutText "Visages: 1" (10, 30)%Z Drawing.FONT_HERSHEY_SIMPLEX
                    (7 # 10) Studio.green 2]));
        Studio.Imshow "Reconnaissance Faciale"
          (Studio.Drawn [2000%Z]
             [Drawing.PutText "Visages: 1" (10, 30)%Z Drawing.FONT_HERSHEY_SIMPLEX
                (7 # 10) Studio.green 2]);
        Studio.Imshow "Reconnaissance Faciale"
          (Studio.Drawn [480%Z]
             (Drawing.draw_face (0, "Marie (98.0%)")
              ++ [Drawing.PutText "Visages: 1" (10, 30)%Z Drawing.FONT_HERSHEY_SIMPLEX
                    (7 # 10) Studio.green 2]))].
Proof. cbv zeta. repeat apply conj; vm_compute; reflexivity. Qed.

(** ** Runs of the scripts on the small instance *)

#[local] Existing Instance ToyScripts.vision.
#[local] Existing Instance ToyScripts.interpreter.

(** The menu of register_face.py, choice 3: the photo of Jean is added for
    Paul. *)
Example toy_registration_menu_adds_a_file :
  let run := Scripts.registration_main false []
               (ToyScripts.terminal ["3"; "Paul"; "known_faces/Jean/photo1.jpg"]) in
  run.1 = Ok tt
  /\ resolve (Scripts.files run.2) ["known_faces"; "Paul"; "photo1.jpg"]
     = Found (File (Toy.Picture [100%Z; 900%Z]))
  /\ List.last (Scripts.lines run.2) (Scripts.Asked "")
     = Scripts.Said (ImageAdded ["known_faces"; "Paul"; "photo1.jpg"])
  /\ Scripts.keyboard run.2 = [].
Proof. cbv zeta. repeat apply conj; vm_compute; reflexivity. Qed.

(** Choice 1 with a number that is not one: the ValueError of [int] is
    caught; and a menu that gets no answer ends with EOFError. *)
Example toy_registration_menu_with_a_bad_number :
  let run := Scripts.registration_main true ToyStudio.feed
               (ToyScripts.terminal ["1"; "Paul"; "dix"]) in
  run.1 = Ok tt
  /\ List.last (Scripts.lines run.2) (Scripts.Asked "")
     = Scripts.Shown (Studio.Print "❌ Nombre invalide")
  /\ (Scripts.registration_main true ToyStudio.feed (ToyScripts.terminal [])).1
     = Raise (FromLibrary EOFError).
Proof. cbv zeta. repeat apply conj; vm_compute; reflexivity. Qed.

(** The statistics of examples.py on a registry with three photos of two
    persons. *)
Example toy_counts :
  Scripts.most_common (Scripts.Counter ["Jean"; "Marie"; "Marie"; "Ada"])
  = [("Marie", 2); ("Jean", 1); ("Ada", 1)].
Proof. reflexivity. Qed.

Example toy_statistics :
  let run := Scripts.exemple_statistiques (ToyScripts.terminal []) in
  run.1 = Ok tt
  /\ List.filter (fun l => match l with Scripts.Shown _ => true | _ => false end)
       (Scripts.lines run.2)
     = [Scripts.Shown (Studio.Print ("=== Statistiques ===" +:+ nl));
        Scripts.Shown (Studio.Print "📊 Nombre total de visages: 2");
        Scripts.Shown (Studio.Print "👥 Nombre de personnes: 2");
        Scripts.Shown (Studio.Print (nl +:+ "📋 Détails:"));
        Scripts.Shown (Studio.Print "  • Jean: 1 photo(s)");
        Scripts.Shown (Studio.Print "  • Marie: 1 photo(s)")].
Proof. cbv zeta. repeat apply conj; vm_compute; reflexivity. Qed.

(** The quality of an image that cannot be read: cv2.cvtColor raises, and
    the example prints the exception. *)
Example toy_quality :
  (UtilsRest.get_image_quality ["missing.jpg"] Toy.start).1
  = Raise (FromLibrary LibraryError)
  /\ UtilsRest.quality_score
       {| UtilsRest.brightness := Binary64.of_Z 2; UtilsRest.contrast := Binary64.of_Z 2;
          UtilsRest.sharpness := Binary64.of_Z 2; UtilsRest.quality_score := Binary64.of_Z 2 |}
     = Binary64.of_Z 2
  /\ format_2f (PrimFloat.div (Binary64.of_Z 300) (Binary64.of_Z 10000)) = "0.03"
  /\ format_2f (PrimFloat.div (Binary64.of_Z 12345) (Binary64.of_Z 100)) = "123.45"
  /\ (Scripts.exemple_analyse_qualite (ToyScripts.terminal ["missing.jpg"])).1 = Ok tt.
Proof. cbv zeta. repeat apply conj; vm_compute; reflexivity. Qed.

(** The mosaic of the known faces: the one file whose name ends with .jpg,
    in a grid of one cell. *)
Example toy_mosaic :
  UtilsRest.glob_jpg ["known_faces"] Toy.known_faces
  = [["known_faces"; "Jean"; "photo1.jpg"]]
  /\ let run := UtilsRest.create_face_mosaic ["known_faces"] "mosaic.jpg" ToyStudio.studio in
     run.1 = Ok tt
     /\ resolve (Studio.disk run.2) ["mosaic.jpg"] = Found (File (Toy.Picture [200%Z; 200%Z]))
     /\ (UtilsRest.create_face_mosaic ["known_faces"] "mosaic" ToyStudio.studio).1
        = Raise (FromLibrary LibraryError).
Proof. cbv zeta. repeat apply conj; vm_compute; reflexivity. Qed.
